(** * Halo analysis and shift predicates of the CUDA fuser (lower_shift.cpp)

    A shallow embedding of [torch/csrc/jit/codegen/cuda/lower_shift.cpp]:
    [AxisHaloInfo], [HaloInfo] (root-axis propagation, leaf-extent
    propagation, validation, extent comparison) and
    [ShiftPredicateInserter::getPredicate].

    Conventions of the embedding.
    - A [TORCH_INTERNAL_ASSERT] or [TORCH_CHECK] that fires, and an access the
      C++ leaves undefined, end the computation with a [Failure].
    - Kernel IR nodes are compared by address in the source ([x == y] on
      pointers), so every node carries the address the kernel arena gave it,
      and the functions that create nodes run in the [Lower] monad, which
      threads the next free address.
    - [GpuLower::lowerValue] is a memoised one-to-one correspondence between
      fusion IR nodes and kernel IR nodes: a fusion scalar or IterDomain is
      identified here with its lowered node, so [root_axis_map_] and
      [kir_root_axis_map_] share their keys. *)

From Stdlib Require Import ZArith String List Bool Lia.
From stdpp Require Import gmap strings list.

Local Open Scope Z_scope.

(** ** Failures and the lowering monad *)

Inductive Failure : Type :=
| InternalAssert (msg : string)      (* TORCH_INTERNAL_ASSERT *)
| CheckFailed (msg : string)         (* TORCH_CHECK *)
| Undefined (what : string).         (* out-of-range or null access *)

Inductive Result (A : Type) : Type :=
| Ok (a : A)
| Fail (e : Failure).
Arguments Ok {A} a.
Arguments Fail {A} e.

Definition is_ok {A} (r : Result A) : bool :=
  match r with Ok _ => true | Fail _ => false end.

Definition rbind {A B} (r : Result A) (f : A -> Result B) : Result B :=
  match r with Ok a => f a | Fail e => Fail e end.

Definition addr := positive.
Bind Scope positive_scope with addr.

(** The kernel arena: the next address it will hand out. *)
Definition Kernel := positive.
Bind Scope positive_scope with Kernel.

Definition Lower (A : Type) : Type := Kernel -> Result (A * Kernel).

Definition ret {A} (a : A) : Lower A := fun k => Ok (a, k).

Definition bind {A B} (m : Lower A) (f : A -> Lower B) : Lower B :=
  fun k => match m k with
           | Ok (a, k') => f a k'
           | Fail e => Fail e
           end.

Definition fail {A} (e : Failure) : Lower A := fun _ => Fail e.

Definition lift {A} (r : Result A) : Lower A :=
  fun k => match r with Ok a => Ok (a, k) | Fail e => Fail e end.

Definition assert_that (b : bool) (msg : string) : Lower unit :=
  if b then ret tt else fail (InternalAssert msg).

Declare Scope lower_scope.
Delimit Scope lower_scope with lower.
Notation "'let*' x ':=' m 'in' k" := (bind m (fun x => k))
  (at level 10, x pattern, m at level 100, k at level 200) : lower_scope.
Notation "m1 ';;' m2" := (bind m1 (fun _ => m2))
  (at level 100, m2 at level 200, right associativity) : lower_scope.
Local Open Scope lower_scope.

Notation "'let?' x ':=' m 'in' k" := (rbind m (fun x => k))
  (at level 10, x pattern, m at level 100, k at level 200).

(** A loop with an accumulator: [for (x : xs) acc = body(acc, x)]. *)
Fixpoint foldM {A S} (body : S -> A -> Lower S) (xs : list A) (s : S)
  : Lower S :=
  match xs with
  | [] => ret s
  | x :: xs' => let* s' := body s x in foldM body xs' s'
  end.

(** ** Kernel IR scalars *)

Inductive UnaryOpType : Type := Neg | Not | Set_ | Cast.

Inductive BinaryOpType : Type :=
| Add | Sub | Mul | Div | Mod | Max | Min | And | Or | Eq | GE | GT | LE | LT.

Global Instance UnaryOpType_eq_dec : EqDecision UnaryOpType.
Proof. solve_decision. Defined.
Global Instance BinaryOpType_eq_dec : EqDecision BinaryOpType.
Proof. solve_decision. Defined.

(** [kir::Val]. A [kir::Int] either holds a value ([IntConst], created by
    [create<kir::Int>(v)], never the result of an expression) or does not
    ([IntSym]: a scalar input when it has no definition, else the result of
    its defining expression). [NamedScalar] stands for the values of integer
    type that are not [kir::Int] nodes ([threadIdx.x] and the like). *)
Inductive Val : Type :=
| IntConst (a : addr) (v : Z)
| IntSym (a : addr) (def : Def)
| BoolConst (a : addr) (b : bool)
| BoolSym (a : addr) (def : Def)
| NamedScalar (a : addr) (name : string)
with Def : Type :=
| NoDef
| UnaryOp (op : UnaryOpType) (in_ : Val)
| BinaryOp (op : BinaryOpType) (lhs rhs : Val)
| TernaryOp (in1 in2 in3 : Val).

Definition val_addr (v : Val) : addr :=
  match v with
  | IntConst a _ | IntSym a _ | BoolConst a _ | BoolSym a _
  | NamedScalar a _ => a
  end.

(** [x == y] on [kir::Val*]. *)
Definition same_ptr (x y : Val) : bool := bool_decide (val_addr x = val_addr y).

Definition isInt (v : Val) : bool :=
  match v with IntConst _ _ | IntSym _ _ => true | _ => false end.

Definition isBool (v : Val) : bool :=
  match v with BoolConst _ _ | BoolSym _ _ => true | _ => false end.

(** [kir::Int::value()]. *)
Definition value (v : Val) : option Z :=
  match v with IntConst _ z => Some z | _ => None end.

(** [kir::Bool::value()]. *)
Definition bvalue (v : Val) : option bool :=
  match v with BoolConst _ b => Some b | _ => None end.

(** [isConst()]: the node holds a value. *)
Definition isConst (v : Val) : bool :=
  match v with IntConst _ _ | BoolConst _ _ => true | _ => false end.

Definition isZeroInt (v : Val) : bool :=
  match v with IntConst _ z => z =? 0 | _ => false end.

Definition isOneInt (v : Val) : bool :=
  match v with IntConst _ z => z =? 1 | _ => false end.

Definition definition (v : Val) : Def :=
  match v with IntSym _ d | BoolSym _ d => d | _ => NoDef end.

(** *** Meaning of a scalar

    What a node evaluates to in the generated kernel, given the values of the
    scalars that have no definition. Booleans are 0 and 1. *)

Definition eval_unary (op : UnaryOpType) (x : Z) : option Z :=
  match op with
  | Neg => Some (- x)
  | Not => Some (Z.b2z (x =? 0))
  | Set_ | Cast => Some x
  end.

Definition eval_binary (op : BinaryOpType) (x y : Z) : option Z :=
  match op with
  | Add => Some (x + y)
  | Sub => Some (x - y)
  | Mul => Some (x * y)
  | Div => if y =? 0 then None else Some (Z.quot x y)
  | Mod => if y =? 0 then None else Some (Z.rem x y)
  | Max => Some (Z.max x y)
  | Min => Some (Z.min x y)
  | And => Some (Z.b2z (negb (x =? 0) && negb (y =? 0)))
  | Or => Some (Z.b2z (negb (x =? 0) || negb (y =? 0)))
  | Eq => Some (Z.b2z (x =? y))
  | GE => Some (Z.b2z (x >=? y))
  | GT => Some (Z.b2z (x >? y))
  | LE => Some (Z.b2z (x <=? y))
  | LT => Some (Z.b2z (x <? y))
  end.

Fixpoint eval (env : addr -> option Z) (v : Val) : option Z :=
  let eval_def (a : addr) (d : Def) : option Z :=
    match d with
    | NoDef => env a
    | UnaryOp op x =>
        match eval env x with Some vx => eval_unary op vx | None => None end
    | BinaryOp op x y =>
        match eval env x, eval env y with
        | Some vx, Some vy => eval_binary op vx vy
        | _, _ => None
        end
    | TernaryOp _ _ _ => None
    end in
  match v with
  | IntConst _ z => Some z
  | BoolConst _ b => Some (Z.b2z b)
  | NamedScalar a _ => env a
  | IntSym a d => eval_def a d
  | BoolSym a d => eval_def a d
  end.

(** Induction over a scalar and its defining expression together. *)
Scheme Val_Def_ind := Induction for Val Sort Prop
  with Def_Val_ind := Induction for Def Sort Prop.

(** The nodes a scalar is built from, itself included. *)
Fixpoint subnodes (v : Val) : list Val :=
  let of_def (d : Def) : list Val :=
    match d with
    | NoDef => []
    | UnaryOp _ x => subnodes x
    | BinaryOp _ x y => subnodes x ++ subnodes y
    | TernaryOp x y z => subnodes x ++ subnodes y ++ subnodes z
    end in
  v :: match v with
       | IntSym _ d | BoolSym _ d => of_def d
       | _ => []
       end.

(** ** The IR builders

    The two builders are declared in [kernel_ir_builder.h], outside
    [lower_shift.cpp]; they are modelled after the contract the specification
    gives for the symbolic expression builder. *)

Module IrBuilder.

(** Modelled from the spec: [kir::IrBuilder::create<kir::Int>(v)], the
    constant node of the symbolic expression builder; every call allocates a
    new node. *)
Definition create_Int (v : Z) : Lower Val :=
  fun k => Ok (IntConst k v, Pos.succ k).

(** Modelled from the spec: [kir::IrBuilder::create<kir::Bool>(b)]. *)
Definition create_Bool (b : bool) : Lower Val :=
  fun k => Ok (BoolConst k b, Pos.succ k).

Definition zeroVal : Lower Val := create_Int 0.
Definition oneVal : Lower Val := create_Int 1.
Definition trueVal : Lower Val := create_Bool true.
Definition falseVal : Lower Val := create_Bool false.

(** Modelled from the spec: the plain builder constructs an add, subtract,
    multiply or max node over its operands and does not fold anything. The
    result is a fresh node of the operands' type, which is the integer type
    at every use in this file. *)
Definition newArithmeticExpr (op : BinaryOpType) (lhs rhs : Val)
  : Lower Val :=
  fun k => Ok (IntSym k (BinaryOp op lhs rhs), Pos.succ k).

(** Modelled from the spec: a comparison or conjunction node; its result is
    a fresh [kir::Bool]. *)
Definition newLogicExpr (op : BinaryOpType) (lhs rhs : Val) : Lower Val :=
  fun k => Ok (BoolSym k (BinaryOp op lhs rhs), Pos.succ k).

Definition addExpr := newArithmeticExpr Add.
Definition subExpr := newArithmeticExpr Sub.
Definition mulExpr := newArithmeticExpr Mul.
Definition maxExpr := newArithmeticExpr Max.
Definition andExpr := newLogicExpr And.
Definition geExpr := newLogicExpr GE.
Definition ltExpr := newLogicExpr LT.

Definition negExpr (v : Val) : Lower Val :=
  fun k => Ok (IntSym k (UnaryOp Neg v), Pos.succ k).

End IrBuilder.

Module SimplifyingIrBuilder.

Definition create_Int := IrBuilder.create_Int.
Definition create_Bool := IrBuilder.create_Bool.
Definition zeroVal := IrBuilder.zeroVal.
Definition trueVal := IrBuilder.trueVal.
Definition falseVal := IrBuilder.falseVal.

(** Modelled from the spec: negation folds a known constant to a literal. *)
Definition negExpr (v : Val) : Lower Val :=
  match value v with
  | Some z => create_Int (- z)
  | None => IrBuilder.negExpr v
  end.

(** Modelled from the spec: [addExpr] of a [kir::Int] and an [int64_t].
    Adding a known zero collapses to the other operand, adding to a known
    constant folds to a literal, and a negative literal is subtracted. *)
Definition addExpr_imm (a : Val) (b : Z) : Lower Val :=
  if b =? 0 then ret a
  else match value a with
       | Some va => create_Int (va + b)
       | None =>
           if 0 <? b
           then let* c := create_Int b in IrBuilder.addExpr a c
           else let* c := create_Int (Z.abs b) in IrBuilder.subExpr a c
       end.

(** Modelled from the spec: [addExpr] of two [kir::Int]. A constant
    operand is passed on as a literal; two symbolic operands give an add
    node. *)
Definition addExpr_Int (a b : Val) : Lower Val :=
  match value a with
  | Some va => addExpr_imm b va
  | None =>
      match value b with
      | Some vb => addExpr_imm a vb
      | None => IrBuilder.addExpr a b
      end
  end.

(** Modelled from the spec: [addExpr] of two [kir::Val], the same sum. *)
Definition addExpr (a b : Val) : Lower Val := addExpr_Int a b.

(** Modelled from the spec: subtraction is the addition of the negation. *)
Definition subExpr (a b : Val) : Lower Val :=
  let* nb := negExpr b in
  addExpr a nb.

(** Modelled from the spec: comparing known constants folds to a literal;
    anything else gives a comparison node. *)
Definition cmpExpr (op : BinaryOpType) (test : Z -> Z -> bool) (a b : Val)
  : Lower Val :=
  match value a, value b with
  | Some va, Some vb => create_Bool (test va vb)
  | _, _ => IrBuilder.newLogicExpr op a b
  end.

Definition geExpr := cmpExpr GE Z.geb.
Definition ltExpr := cmpExpr LT Z.ltb.

(** Modelled from the spec: the conjunction of two predicates, either of
    which may be absent ([nullptr]). A known-false operand makes the result
    false, a known-true operand is dropped. *)
Definition andExpr (a b : option Val) : Lower (option Val) :=
  match a, b with
  | None, _ => ret b
  | _, None => ret a
  | Some x, Some y =>
      match bvalue x, bvalue y with
      | Some true, Some true => let* t := trueVal in ret (Some t)
      | Some false, _ | _, Some false =>
          let* f := falseVal in ret (Some f)
      | Some true, None => ret (Some y)
      | None, Some true => ret (Some x)
      | None, None =>
          let* r := IrBuilder.andExpr x y in ret (Some r)
      end
  end.

End SimplifyingIrBuilder.

(** ** AxisHaloInfo *)

(** [std::array<kir::Int*, 2> widths_]: the halo width at offset zero
    ([widths_[0]], the low side) and past the extent ([widths_[1]], the high
    side). *)
Record AxisHaloInfo : Type := mkAxisHaloInfo {
  widths_0 : Val;
  widths_1 : Val
}.

Module AxisHalo.

(** [AxisHaloInfo::AxisHaloInfo()] *)
Definition new : Lower AxisHaloInfo :=
  let* z0 := IrBuilder.zeroVal in
  let* z1 := IrBuilder.zeroVal in
  ret (mkAxisHaloInfo z0 z1).

(** [AxisHaloInfo::width(int pos)] *)
Definition width (h : AxisHaloInfo) (pos : nat) : Result Val :=
  match pos with
  | 0%nat => Ok (widths_0 h)
  | 1%nat => Ok (widths_1 h)
  | _ => Fail (InternalAssert "pos >= 0 && pos < 2")
  end.

(** [AxisHaloInfo::setWidth(int pos, kir::Int* width)] *)
Definition setWidth (h : AxisHaloInfo) (pos : nat) (w : Val)
  : Result AxisHaloInfo :=
  match pos with
  | 0%nat => Ok (mkAxisHaloInfo w (widths_1 h))
  | 1%nat => Ok (mkAxisHaloInfo (widths_0 h) w)
  | _ => Fail (InternalAssert "pos >= 0 && pos < 2")
  end.

(** [AxisHaloInfo::width()]: the sum of both sides. *)
Definition total_width (h : AxisHaloInfo) : Lower Val :=
  SimplifyingIrBuilder.addExpr_Int (widths_0 h) (widths_1 h).

(** [AxisHaloInfo::merge(int pos, kir::Int* other)] *)
Definition merge_pos (h : AxisHaloInfo) (pos : nat) (other : Val)
  : Lower AxisHaloInfo :=
  let* cur := lift (width h pos) in
  let* new_width :=
    match value cur, value other with
    | Some vc, Some vo => IrBuilder.create_Int (Z.max vc vo)
    | _, _ =>
        if isZeroInt cur then ret other
        else if isZeroInt other then ret cur
        else IrBuilder.maxExpr cur other
    end in
  lift (setWidth h pos new_width).

(** [AxisHaloInfo::merge(const AxisHaloInfo& other)] *)
Definition merge (h other : AxisHaloInfo) : Lower AxisHaloInfo :=
  foldM (fun h i => let* w := lift (width other i) in merge_pos h i w)
        [0%nat; 1%nat] h.

(** [AxisHaloInfo::hasHalo()] *)
Definition hasHalo (h : AxisHaloInfo) : bool :=
  existsb (fun w => negb (isZeroInt w)) [widths_0 h; widths_1 h].

End AxisHalo.


(** ** Fusion IR: axes, tensors and the expressions between them *)

(** Modelled from the spec: the enumeration [ParallelType]. *)
Inductive ParallelType : Type :=
| BIDz | BIDy | BIDx | TIDz | TIDy | TIDx
| Vectorize | MisalignedVectorize | Unroll | Unswitch | Serial.

(** Modelled from the spec: the parallel dimensions are serial, warp/thread
    level ([TIDx], [TIDy], [TIDz]) or block level ([BIDx], [BIDy], [BIDz]);
    [isParallelTypeThread] holds of both thread-indexed kinds. *)
Definition isParallelTypeThreadDim (p : ParallelType) : bool :=
  match p with TIDx | TIDy | TIDz => true | _ => false end.

(** Modelled from the spec: the block level of the same enumeration. *)
Definition isParallelTypeBlockDim (p : ParallelType) : bool :=
  match p with BIDx | BIDy | BIDz => true | _ => false end.

(** Modelled from the spec: thread-indexed at either level. *)
Definition isParallelTypeThread (p : ParallelType) : bool :=
  isParallelTypeThreadDim p || isParallelTypeBlockDim p.

Inductive MemoryType : Type := Local | Shared | Global.

Global Instance ParallelType_eq_dec : EqDecision ParallelType.
Proof. solve_decision. Defined.
Global Instance MemoryType_eq_dec : EqDecision MemoryType.
Proof. solve_decision. Defined.

(** What [IterDomain::definition()] is: nothing for a root axis, else the
    split or merge that produced the axis, with its inputs. *)
Inductive IterDef (I : Type) : Type :=
| RootAxis
| MergeOf (outer inner : I)
| SplitOf (in_ : I)
| OtherDef.
Arguments RootAxis {I}.
Arguments MergeOf {I} outer inner.
Arguments SplitOf {I} in_.
Arguments OtherDef {I}.

(** An [IterDomain], together with its lowered [kir::IterDomain] (which
    supplies [start], [stop] and [extent] as kernel scalars). [id_addr] is
    the identity of the axis: the maps of [HaloInfo] are keyed by it. *)
#[local] Unset Elimination Schemes.
Inductive IterDomain : Type := mkIterDomain {
  id_addr : addr;
  id_start : Val;
  id_extent : Val;
  id_stop : Val;
  id_isBroadcast : bool;
  id_isReduction : bool;
  id_isRFactorProduct : bool;
  id_parallelType : ParallelType;
  id_definition : IterDef IterDomain
}.
#[local] Set Elimination Schemes.

(** The expressions of a tensor domain, as [ExprSort::getExprs] lists them. *)
Inductive DomainExpr : Type :=
| Split (in_ outer inner : IterDomain)
| Merge (outer inner out : IterDomain)
| OtherDomainExpr.

Record TensorDomain : Type := mkTensorDomain {
  td_root : list IterDomain;          (* getRootDomain() *)
  td_rfactor : list IterDomain;       (* getRFactorDomain() *)
  td_domain : list IterDomain;        (* domain(): the leaf axes *)
  td_exprs : list DomainExpr          (* ExprSort::getExprs, topological *)
}.

Record TensorView : Type := mkTensorView {
  tv_name : nat;
  tv_domain : TensorDomain;
  tv_memoryType : MemoryType;
  tv_isFusionInput : bool;
  tv_hasRFactor : bool
}.

(** The kinds of expression the pass tells apart by [dynamic_cast]. *)
Inductive OpKind : Type :=
| ShiftOp (offsets : list Z) (pad : bool)
| GatherOp (windowShape : list Val) (padWidth : list (list Val))
| OtherOp (tv_op : bool).             (* tv_op: ir_utils::isTVOp *)

Inductive IOVal : Type :=
| TV (tv : TensorView)
| Scalar (v : Val).

Record Expr : Type := mkExpr {
  expr_op : OpKind;
  expr_inputs : list IOVal;
  expr_outputs : list IOVal
}.

Definition as_TensorView (v : IOVal) : option TensorView :=
  match v with TV tv => Some tv | Scalar _ => None end.

Definition isShift (op : OpKind) : bool :=
  match op with ShiftOp _ _ => true | _ => false end.

Definition isGather (op : OpKind) : bool :=
  match op with GatherOp _ _ => true | _ => false end.

(** [ir_utils::isTVOp] *)
Definition isTVOp (e : Expr) : bool :=
  match expr_op e with
  | ShiftOp _ _ | GatherOp _ _ => true
  | OtherOp tv_op => tv_op
  end.

(** [ir_utils::getTVOutput]: the first output that is a tensor. *)
Definition getTVOutput (e : Expr) : option TensorView :=
  head (omap as_TensorView (expr_outputs e)).

(** [ShiftOp::offset(dim)] *)
Definition offset (offsets : list Z) (i : nat) : Result Z :=
  match offsets !! i with
  | Some o => Ok o
  | None => Fail (Undefined "ShiftOp::offset out of range")
  end.

(** The offsets of a shift are C++ [int]s. *)
Definition INT_MIN : Z := - 2 ^ 31.
Definition INT_MAX : Z := 2 ^ 31 - 1.

(** [std::abs(int)]: the result is not representable at [INT_MIN], where the
    behaviour is undefined. *)
Definition std_abs (x : Z) : Result Z :=
  if x =? INT_MIN then Fail (Undefined "std::abs(INT_MIN)")
  else Ok (Z.abs x).

(** [-x] on an [int]: undefined at [INT_MIN]. *)
Definition negate (x : Z) : Result Z :=
  if x =? INT_MIN then Fail (Undefined "-INT_MIN")
  else Ok (- x).

(** [v[i]] on a [std::vector]. *)
Definition at_index {A} (what : string) (v : list A) (i : nat) : Result A :=
  match v !! i with
  | Some x => Ok x
  | None => Fail (Undefined what)
  end.

(** [for (const auto i : c10::irange(v.size()))] with [v[i]] at hand. *)
Definition indexed {A} (v : list A) : list (nat * A) :=
  combine (seq 0 (length v)) v.

(** The collaborators the pass reaches through [GpuLower::current()]. *)
Record GpuLower : Type := mkGpuLower {
  (* caParallelMap().getConcreteMappedID *)
  getConcreteMappedID : IterDomain -> IterDomain;
  (* caLoopMap().areMapped *)
  areMapped : IterDomain -> IterDomain -> bool;
  (* trivialReductionInfo().isDerived *)
  isDerived : IterDomain -> bool;
  (* PairwiseRootDomainMap(producer, consumer).mapConsumerToProducer *)
  mapConsumerToProducer : TensorView -> TensorView -> gmap addr IterDomain
}.

(** ** HaloInfo *)

Record HaloInfo : Type := mkHaloInfo {
  root_axis_map_ : gmap addr AxisHaloInfo;
  kir_root_axis_map_ : gmap addr AxisHaloInfo;
  kir_extent_map_ : gmap addr Val;
  halo_width_map_ : gmap addr Val
}.

(** [std::unordered_map::insert]: an existing entry is kept. *)
Definition insert_new {V} (k : addr) (v : V) (m : gmap addr V) : gmap addr V :=
  match m !! k with
  | Some _ => m
  | None => <[k := v]> m
  end.

Module Halo.

Definition empty : HaloInfo := mkHaloInfo ∅ ∅ ∅ ∅.

Definition is_root (id : IterDomain) : bool :=
  match id_definition id with
  | RootAxis => true
  | _ => id_isRFactorProduct id
  end.

(** [HaloInfo::getRootAxisInfo(IterDomain* id)] *)
Definition getRootAxisInfo (h : HaloInfo) (id : IterDomain)
  : Result AxisHaloInfo :=
  if is_root id then
    match root_axis_map_ h !! id_addr id with
    | Some info => Ok info
    | None => Fail (InternalAssert "Halo root axis info not found")
    end
  else Fail (InternalAssert "Invalid IterDomain").

(** [HaloInfo::getRootAxisInfo(kir::IterDomain* id)] *)
Definition getRootAxisInfo_kir (h : HaloInfo) (id : IterDomain)
  : Result AxisHaloInfo :=
  if is_root id then
    match kir_root_axis_map_ h !! id_addr id with
    | Some info => Ok info
    | None => Fail (InternalAssert "Halo root axis info not found")
    end
  else Fail (InternalAssert "Invalid IterDomain").

(** [HaloInfo::setRootAxisInfo] *)
Definition setRootAxisInfo (h : HaloInfo) (id : IterDomain)
    (root_axis_info : AxisHaloInfo) : Result HaloInfo :=
  if is_root id then
    Ok (mkHaloInfo (<[id_addr id := root_axis_info]> (root_axis_map_ h))
                   (<[id_addr id := root_axis_info]> (kir_root_axis_map_ h))
                   (kir_extent_map_ h)
                   (halo_width_map_ h))
  else Fail (InternalAssert "Invalid IterDomain").

(** [HaloInfo::getExtent]: [nullptr] when the axis is not extended. *)
Definition getExtent (h : HaloInfo) (id : IterDomain) : option Val :=
  kir_extent_map_ h !! id_addr id.

(** [HaloInfo::hasHaloWidth] *)
Definition hasHaloWidth (h : HaloInfo) (id : IterDomain) : bool :=
  bool_decide (is_Some (halo_width_map_ h !! id_addr id)).

(** [HaloInfo::getHaloWidth] *)
Definition getHaloWidth (h : HaloInfo) (id : IterDomain) : Result Val :=
  match halo_width_map_ h !! id_addr id with
  | Some w => Ok w
  | None => Fail (InternalAssert "it != halo_width_map_.end()")
  end.

Definition set_kir_extent (h : HaloInfo) (m : gmap addr Val) : HaloInfo :=
  mkHaloInfo (root_axis_map_ h) (kir_root_axis_map_ h) m (halo_width_map_ h).

Definition set_halo_width (h : HaloInfo) (m : gmap addr Val) : HaloInfo :=
  mkHaloInfo (root_axis_map_ h) (kir_root_axis_map_ h) (kir_extent_map_ h) m.

(** *** Backward propagation over the root axes *)

(** The body of the loop over the consumer root axes in
    [HaloInfo::propagateRootAxisInfo(producer, consumer, expr)]. [p_info]
    is a copy of the producer's entry, written back by [setRootAxisInfo];
    the [continue] of a gather axis with a window of one leaves the loop
    body before that. Operands of a call are built left to right. *)
Definition propagateRootAxis (op : OpKind) (c2p : gmap addr IterDomain)
    (h : HaloInfo) (ic : nat * IterDomain) : Lower HaloInfo :=
  let '(i, c_id) := ic in
  match c2p !! id_addr c_id with
  | None => ret h                                  (* nothing to propagate *)
  | Some p_id =>
      let* p_info := lift (getRootAxisInfo h p_id) in
      let* c_info := lift (getRootAxisInfo h c_id) in
      if id_isBroadcast c_id then
        assert_that (negb (AxisHalo.hasHalo c_info)) "!c_info.hasHalo()";;
        let* p_info := AxisHalo.merge p_info c_info in
        lift (setRootAxisInfo h p_id p_info)
      else
        match op with
        | ShiftOp offsets _ =>
            let* o := lift (offset offsets i) in
            let* p_info :=
              if o =? 0 then AxisHalo.merge p_info c_info
              else
                let pos := if 0 <? o then 0%nat else 1%nat in
                let* cw := lift (AxisHalo.width c_info pos) in
                let* amount := lift (std_abs o) in
                let* w := SimplifyingIrBuilder.addExpr_imm cw amount in
                AxisHalo.merge_pos p_info pos w in
            lift (setRootAxisInfo h p_id p_info)
        | GatherOp windowShape padWidth =>
            let* window_dim := lift (at_index "windowShape" windowShape i) in
            if isOneInt window_dim then
              let* _ := AxisHalo.merge p_info c_info in
              ret h                                (* continue *)
            else
              let* pad_dim := lift (at_index "padWidth" padWidth i) in
              let* pad_dim0 := lift (at_index "pad_dim" pad_dim 0) in
              assert_that (isInt pad_dim0) "pad_dim[0] is a kir::Int";;
              let* w0 :=
                SimplifyingIrBuilder.addExpr_Int (widths_0 c_info) pad_dim0 in
              let* p_info := AxisHalo.merge_pos p_info 0 w0 in
              let* reach :=
                SimplifyingIrBuilder.addExpr (widths_1 c_info) window_dim in
              let* covered := SimplifyingIrBuilder.addExpr_imm pad_dim0 1 in
              let* w1 := SimplifyingIrBuilder.subExpr reach covered in
              let* p_info := AxisHalo.merge_pos p_info 1 w1 in
              lift (setRootAxisInfo h p_id p_info)
        | OtherOp _ =>
            let* p_info := AxisHalo.merge p_info c_info in
            lift (setRootAxisInfo h p_id p_info)
        end
  end.

(** [HaloInfo::propagateRootAxisInfo(producer, consumer, expr)] *)
Definition propagateRootAxisInfo_pc (g : GpuLower) (h : HaloInfo)
    (producer consumer : TensorView) (expr : Expr) : Lower HaloInfo :=
  if tv_isFusionInput producer then ret h   (* no halo on input tensors *)
  else
    let c2p := mapConsumerToProducer g producer consumer in
    let c_root := td_root (tv_domain consumer) in
    foldM (propagateRootAxis (expr_op expr) c2p) (indexed c_root) h.

(** [HaloInfo::propagateRootAxisInfo(expr)] *)
Definition propagateRootAxisInfo (g : GpuLower) (h : HaloInfo) (expr : Expr)
  : Lower HaloInfo :=
  foldM (fun h out_tv =>
           foldM (fun h in_tv =>
                    propagateRootAxisInfo_pc g h in_tv out_tv expr)
                 (omap as_TensorView (expr_inputs expr)) h)
        (omap as_TensorView (expr_outputs expr)) h.

(** *** Forward propagation to the leaf axes *)

(** The body of the loop over the root axes in
    [HaloInfo::build(TensorDomain* td)]. *)
Definition build_root_axis (h : HaloInfo) (root_axis : IterDomain)
  : Lower HaloInfo :=
  let* halo_info := lift (getRootAxisInfo h root_axis) in
  let* halo_width := AxisHalo.total_width halo_info in
  assert_that (negb (hasHaloWidth h root_axis)) "Invalid domain";;
  if negb (AxisHalo.hasHalo halo_info) then
    let* z := IrBuilder.zeroVal in
    ret (set_halo_width h
           (insert_new (id_addr root_axis) z (halo_width_map_ h)))
  else
    let* expanded_extent :=
      IrBuilder.addExpr (id_extent root_axis) halo_width in
    let h := set_kir_extent h
               (insert_new (id_addr root_axis) expanded_extent
                           (kir_extent_map_ h)) in
    ret (set_halo_width h
           (insert_new (id_addr root_axis) halo_width (halo_width_map_ h))).

(** The body of the loop over the domain expressions in
    [HaloInfo::build(TensorDomain* td)]; the state is the [HaloInfo] and
    the local set [merged_shifted_ids]. *)
Definition build_domain_expr (st : HaloInfo * gset addr) (expr : DomainExpr)
  : Lower (HaloInfo * gset addr) :=
  let '(h, merged_shifted_ids) := st in
  match expr with
  | Split in_id outer inner =>
      (* Merge-then-split of halo-extended IDs is not allowed *)
      assert_that (negb (bool_decide (id_addr in_id ∈ merged_shifted_ids)))
        "Splitting IterDomain that is a merged domain of halo-extended domains is not allowed";;
      let* halo_width := lift (getHaloWidth h in_id) in
      if isZeroInt halo_width then
        let m := insert_new (id_addr outer) halo_width (halo_width_map_ h) in
        let m := insert_new (id_addr inner) halo_width m in
        ret (set_halo_width h m, merged_shifted_ids)
      else
        (* propagate to inner domain *)
        let* expanded_extent :=
          IrBuilder.addExpr (id_extent inner) halo_width in
        let h := set_kir_extent h
                   (insert_new (id_addr inner) expanded_extent
                               (kir_extent_map_ h)) in
        let* z := IrBuilder.zeroVal in
        let m := insert_new (id_addr outer) z (halo_width_map_ h) in
        let m := insert_new (id_addr inner) halo_width m in
        ret (set_halo_width h m, merged_shifted_ids)
  | Merge outer inner out =>
      let inner_extent := getExtent h inner in
      let outer_extent := getExtent h outer in
      match inner_extent, outer_extent with
      | None, None =>
          let* z := IrBuilder.zeroVal in
          ret (set_halo_width h
                 (insert_new (id_addr out) z (halo_width_map_ h)),
               merged_shifted_ids)
      | _, _ =>
          let inner_extent := default (id_extent inner) inner_extent in
          let outer_extent := default (id_extent outer) outer_extent in
          let* expanded_extent :=
            IrBuilder.mulExpr outer_extent inner_extent in
          (* halo_width_map_ is not updated *)
          ret (set_kir_extent h
                 (insert_new (id_addr out) expanded_extent
                             (kir_extent_map_ h)),
               {[id_addr out]} ∪ merged_shifted_ids)
      end
  | OtherDomainExpr => fail (InternalAssert "Unsupported expr")
  end.

(** [HaloInfo::build(TensorDomain* td)] *)
Definition build_td (h : HaloInfo) (td : TensorDomain) : Lower HaloInfo :=
  let* h := foldM build_root_axis (td_root td) h in
  let* st := foldM build_domain_expr (td_exprs td) (h, ∅) in
  ret (fst st).

(** *** Extent comparison *)

(** [extentCompare], for [cmp] either of the two comparisons below. *)
Fixpoint extentCompare (g : GpuLower) (h : HaloInfo)
    (cmp : Val -> Val -> Result bool) (id1 id2 : IterDomain) {struct id1}
  : Result bool :=
  if negb (areMapped g id1 id2)
  then Fail (InternalAssert "Invalid axes to compare")
  else if hasHaloWidth h id1 then
    if negb (hasHaloWidth h id2)
    then Fail (InternalAssert "Invalid comparison")
    else
      let? w1 := getHaloWidth h id1 in
      let? w2 := getHaloWidth h id2 in
      cmp w1 w2
  else if hasHaloWidth h id2
  then Fail (InternalAssert "!halo_map.hasHaloWidth(id2)")
  else
    match id1 with
    | mkIterDomain _ _ _ _ _ _ _ _ (MergeOf outer1 inner1) =>
        match id_definition id2 with
        | MergeOf outer2 inner2 =>
            let? inner_le := extentCompare g h cmp inner1 inner2 in
            let? outer_le := extentCompare g h cmp outer1 outer2 in
            Ok (inner_le && outer_le)
        | _ => Fail (InternalAssert "Invalid comparison")
        end
    | _ => Fail (InternalAssert "Invalid comparison")
    end.

(** The comparison of [HaloInfo::extentLessEqual]. *)
Definition cmp_lessEqual (x y : Val) : Result bool :=
  if same_ptr x y then Ok true
  else
    match value x, value y with
    | Some xv, Some yv => Ok (xv <=? yv)
    | _, _ => Ok false
    end.

(** The comparison of [HaloInfo::extentEqual]: the same node, the same
    constant, or the same kind of operation over operands that compare
    equal. *)
Fixpoint cmp_equal (x y : Val) {struct x} : Result bool :=
  let same_value :=
    match value x, value y with
    | Some xv, Some yv => xv =? yv
    | _, _ => false
    end in
  let input (recurse : Val -> Result bool) (x_input y_input : Val)
    : Result bool :=
    if isInt x_input && isInt y_input then recurse y_input
    else Fail (InternalAssert "x_input && y_input") in
  if same_ptr x y then Ok true
  else if same_value then Ok true
  else
    match x with
    | IntSym _ (UnaryOp x_op x0) =>
        match definition y with
        | UnaryOp y_op y0 =>
            if bool_decide (x_op = y_op)
            then
              let? e0 := input (cmp_equal x0) x0 y0 in
              if negb e0 then Ok false else Ok true
            else Ok false
        | _ => Ok false
        end
    | IntSym _ (BinaryOp x_op x0 x1) =>
        match definition y with
        | BinaryOp y_op y0 y1 =>
            if bool_decide (x_op = y_op)
            then
              let? e0 := input (cmp_equal x0) x0 y0 in
              if negb e0 then Ok false
              else
                let? e1 := input (cmp_equal x1) x1 y1 in
                if negb e1 then Ok false else Ok true
            else Ok false
        | _ => Ok false
        end
    | _ => Ok false
    end.

(** [HaloInfo::extentLessEqual] *)
Definition extentLessEqual (g : GpuLower) (h : HaloInfo)
    (id1 id2 : IterDomain) : Result bool :=
  extentCompare g h cmp_lessEqual id1 id2.

(** [HaloInfo::extentEqual] *)
Definition extentEqual (g : GpuLower) (h : HaloInfo)
    (id1 id2 : IterDomain) : Result bool :=
  extentCompare g h cmp_equal id1 id2.

(** *** Validation *)

(** The loop over [tv->uses()] in [HaloInfo::validate] that sets
    [shared_mem_needed]. *)
Fixpoint shared_mem_needed (g : GpuLower) (h : HaloInfo)
    (uses : list Expr) (axis : IterDomain) : Result bool :=
  match uses with
  | [] => Ok false
  | use :: rest =>
      if negb (isTVOp use) then shared_mem_needed g h rest axis
      else if isShift (expr_op use) || isGather (expr_op use) then Ok true
      else
        match expr_outputs use with
        | TV consumer :: _ =>
            (* Find the corresponding axis in the consumer *)
            match find (fun consumer_axis => areMapped g axis consumer_axis)
                       (td_domain (tv_domain consumer)) with
            | None => shared_mem_needed g h rest axis
            | Some it =>
                let? eq := extentEqual g h axis it in
                if negb eq then Ok true
                else shared_mem_needed g h rest axis
            end
        | _ => Fail (Undefined "use->outputs()[0]->as<TensorView>()")
        end
  end.

(** The body of the loop over the axes in [HaloInfo::validate]. *)
Definition validate_axis (g : GpuLower) (h : HaloInfo) (uses : list Expr)
    (mem_type : MemoryType) (axis : IterDomain) : Result unit :=
  let concrete_id := getConcreteMappedID g axis in
  (* The extent is assumed to be the same *)
  let? eq := extentEqual g h axis concrete_id in
  if negb eq then
    Fail (InternalAssert
      "Axis does not have the same exact size with its concrete ID due to halo extension.")
  else
    match getExtent h axis with
    | None => Ok tt                 (* the axis is not extended *)
    | Some _ =>
        let ptype := id_parallelType concrete_id in
        if bool_decide (ptype = Serial) then Ok tt
        else if negb (isParallelTypeThread ptype)
        then Fail (CheckFailed "Unsupported parallel type")
        else
          let? needed := shared_mem_needed g h uses axis in
          if negb needed then Ok tt
          else if isParallelTypeThreadDim ptype then
            if bool_decide (mem_type = Shared) then Ok tt
            else Fail (CheckFailed
              "must be allocated on shared memory as its halo-extended axis is parallelized")
          else if isParallelTypeBlockDim ptype then
            Fail (CheckFailed
              "Block-based parallelization of a halo-extended axis is not supported")
          else Ok tt
    end.

(** [HaloInfo::validate(TensorView* tv)]; [uses] is [tv->uses()]. *)
Definition validate (g : GpuLower) (h : HaloInfo) (uses : list Expr)
    (tv : TensorView) : Result unit :=
  let mem_type := tv_memoryType tv in
  fold_left (fun r axis => let? _ := r in
                           validate_axis g h uses mem_type axis)
            (td_domain (tv_domain tv)) (Ok tt).

(** *** Is a shift predicate needed? *)

(** The condition of the loop in [HaloInfo::needsShiftPredicate] at
    root axis [i]; [||] and [&&] evaluate their operands in order and only
    as far as needed. *)
Definition needsShiftPredicate_axis (h : HaloInfo) (op : OpKind)
    (ic : nat * IterDomain) : Result bool :=
  let '(i, consumer_id) := ic in
  let? consumer_halo_info := getRootAxisInfo h consumer_id in
  if AxisHalo.hasHalo consumer_halo_info then Ok true
  else
    let? shifted :=
      match op with
      | ShiftOp offsets _ =>
          let? o := offset offsets i in
          Ok (negb (o =? 0) && negb (id_isBroadcast consumer_id))
      | _ => Ok false
      end in
    if shifted then Ok true
    else
      match op with
      | GatherOp windowShape _ =>
          let? w := at_index "windowShape" windowShape i in
          Ok (negb (isOneInt w) && negb (id_isBroadcast consumer_id))
      | _ => Ok false
      end.

Fixpoint needsShiftPredicate_loop (h : HaloInfo) (op : OpKind)
    (axes : list (nat * IterDomain)) : Result bool :=
  match axes with
  | [] => Ok false
  | ic :: rest =>
      let? b := needsShiftPredicate_axis h op ic in
      if b then Ok true else needsShiftPredicate_loop h op rest
  end.

(** [HaloInfo::needsShiftPredicate(Expr* expr)] *)
Definition needsShiftPredicate (h : HaloInfo) (expr : Expr) : Result bool :=
  match getTVOutput expr with
  | None => Fail (Undefined "ir_utils::getTVOutput(expr)->domain()")
  | Some out_tv =>
      needsShiftPredicate_loop h (expr_op expr)
        (indexed (td_root (tv_domain out_tv)))
  end.

(** *** The whole analysis *)

(** What [HaloInfo::build] of a fusion reads of the fusion: the tensors among
    [usedMathVals()], [exprs()] and the uses of each tensor. *)
Record Fusion : Type := mkFusion {
  fusion_tvs : list TensorView;
  fusion_exprs : list Expr;
  fusion_uses : TensorView -> list Expr
}.

Definition init_root_axes (h : HaloInfo) (axes : list IterDomain)
  : Lower HaloInfo :=
  foldM (fun h root_axis =>
           let* info := AxisHalo.new in
           lift (setRootAxisInfo h root_axis info)) axes h.

(** [HaloInfo::build(Fusion* fusion)] *)
Definition build (g : GpuLower) (h : HaloInfo) (fusion : Fusion)
  : Lower HaloInfo :=
  let tvs := fusion_tvs fusion in
  (* Initialize all root axis info *)
  let* h :=
    foldM (fun h tv =>
             let* h := init_root_axes h (td_root (tv_domain tv)) in
             if tv_hasRFactor tv
             then init_root_axes h (td_rfactor (tv_domain tv))
             else ret h) tvs h in
  (* Propagate backward halo information of root axes *)
  let* h :=
    foldM (fun h expr =>
             let* out0 := lift (at_index "expr->outputs()[0]"
                                         (expr_outputs expr) 0) in
             match out0 with
             | TV _ => propagateRootAxisInfo g h expr
             | Scalar _ => ret h
             end) (rev (fusion_exprs fusion)) h in
  (* Propagates halo information from root axes down to leaf axes *)
  let* h := foldM (fun h tv => build_td h (tv_domain tv)) tvs h in
  (* Note that validation requires consumer halo info *)
  foldM (fun h tv => lift (validate g h (fusion_uses fusion tv) tv);; ret h)
        tvs h.

End Halo.

(** ** ShiftPredicateInserter *)

Module ShiftPredicateInserter.

Definition as_ShiftOp (op : OpKind) : option (list Z * bool) :=
  match op with ShiftOp offsets pad => Some (offsets, pad) | _ => None end.

Definition as_GatherOp (op : OpKind) : option (list Val * list (list Val)) :=
  match op with GatherOp ws pw => Some (ws, pw) | _ => None end.

Definition non_null {A} (p : option A) : bool :=
  match p with Some _ => true | None => false end.

(** [getShiftProducerIndex] *)
Definition getShiftProducerIndex (consumer_root_axis : nat)
    (consumer_index : Val) (shift_expr : option (list Z * bool))
  : Lower Val :=
  let* shift_offset :=
    match shift_expr with
    | Some (offsets, _) => lift (offset offsets consumer_root_axis)
    | None => ret 0
    end in
  if shift_offset =? 0 then ret consumer_index
  else
    assert_that (isInt consumer_index) "consumer_index->as<kir::Int>()";;
    let* back := lift (negate shift_offset) in
    SimplifyingIrBuilder.addExpr_imm consumer_index back.

(** Modelled from the spec: [GatherOp::gatherAxis], the root axis that
    holds the window-position index of tensor axis [axis]; the window axes
    of a gather output follow its tensor axes. *)
Definition gatherAxis (windowShape : list Val) (axis : nat) : nat :=
  (length windowShape + axis)%nat.

(** Modelled from the spec: [create<kir::Int>(node)] for a fusion scalar
    [node], a new kernel scalar with the value of [node] if it has one. *)
Definition copy_Int (node : Val) : Lower Val :=
  match value node with
  | Some v => IrBuilder.create_Int v
  | None => fun k => Ok (IntSym k NoDef, Pos.succ k)
  end.

(** [getGatherProducerIndex] *)
Definition getGatherProducerIndex (consumer_root_axis : nat)
    (consumer_index : Val)
    (gather_expr : option (list Val * list (list Val)))
    (indices : list Val) : Lower Val :=
  match gather_expr with
  | None => ret consumer_index
  | Some (windowShape, padWidth) =>
      if (length windowShape <=? consumer_root_axis)%nat
      then ret consumer_index
      else
        let* w := lift (at_index "windowShape" windowShape
                                 consumer_root_axis) in
        if isOneInt w then ret consumer_index
        else
          let window_axis := gatherAxis windowShape consumer_root_axis in
          assert_that (window_axis <? length indices)%nat
            "window_axis < (int)indices.size()";;
          let* window_idx := lift (at_index "indices" indices window_axis) in
          let* pad_dim := lift (at_index "padWidth" padWidth
                                         consumer_root_axis) in
          let* pad_size := lift (at_index "padWidth[axis]" pad_dim 0) in
          let* sum := IrBuilder.addExpr consumer_index window_idx in
          let* pad := copy_Int pad_size in
          IrBuilder.subExpr sum pad
  end.

(** [predicate = andExpr(predicate, cmp(index, limit))] *)
Definition and_ge (predicate : option Val) (index limit : Val)
  : Lower (option Val) :=
  let* c := SimplifyingIrBuilder.geExpr index limit in
  SimplifyingIrBuilder.andExpr predicate (Some c).

Definition and_lt (predicate : option Val) (index limit : Val)
  : Lower (option Val) :=
  let* c := SimplifyingIrBuilder.ltExpr index limit in
  SimplifyingIrBuilder.andExpr predicate (Some c).

(** [shift_expr->pad()] *)
Definition shift_pad (shift_expr : option (list Z * bool)) : bool :=
  match shift_expr with Some (_, pad) => pad | None => false end.

(** [shift_expr && shift_expr->offset(i) > 0], and the same for [< 0] *)
Definition shift_offset_is (test : Z -> bool)
    (shift_expr : option (list Z * bool)) (i : nat) : Lower bool :=
  match shift_expr with
  | Some (offsets, _) => let* o := lift (offset offsets i) in ret (test o)
  | None => ret false
  end.

(** The lower-limit part of the loop body of [getPredicate]. *)
Definition lower_limit_predicate
    (shift_expr : option (list Z * bool))
    (gather_expr : option (list Val * list (list Val)))
    (i : nat) (consumer_index producer_index left_limit : Val)
    (predicate : option Val) : Lower (option Val) :=
  let* shift_positive := shift_offset_is (fun o => 0 <? o) shift_expr i in
  if shift_positive then
    (* When padding is not used, the start position of the consumer axis
       is shifted right, so that's the first valid position for the
       consumer index. *)
    let pred_index :=
      if shift_pad shift_expr then producer_index else consumer_index in
    and_ge predicate pred_index left_limit
  else if non_null gather_expr then
    let* predicate := and_ge predicate consumer_index left_limit in
    if negb (same_ptr consumer_index producer_index)
    then and_ge predicate producer_index left_limit
    else ret predicate
  else if negb (isZeroInt left_limit)
  then and_ge predicate consumer_index left_limit
  else ret predicate.

(** The upper-limit part of the loop body of [getPredicate]. *)
Definition upper_limit_predicate
    (shift_expr : option (list Z * bool))
    (gather_expr : option (list Val * list (list Val)))
    (i : nat) (consumer_index producer_index right_limit : Val)
    (predicate : option Val) : Lower (option Val) :=
  let* shift_negative := shift_offset_is (fun o => o <? 0) shift_expr i in
  if shift_negative then
    (* Similar to the left-limit case, use the consumer index when padding
       is not used. *)
    let pred_index :=
      if shift_pad shift_expr then producer_index else consumer_index in
    and_lt predicate pred_index right_limit
  else if non_null gather_expr then
    let* predicate := and_lt predicate consumer_index right_limit in
    if negb (same_ptr consumer_index producer_index)
    then and_lt predicate producer_index right_limit
    else ret predicate
  else and_lt predicate consumer_index right_limit.

(** The axes the loop of [getPredicate] skips. *)
Definition skipped (g : GpuLower) (buffer_init : bool) (root_id : IterDomain)
  : bool :=
  id_isBroadcast root_id || (buffer_init && id_isReduction root_id)
  || isDerived g root_id.

(** The body of the loop over the root axes in [getPredicate]. *)
Definition predicate_axis (g : GpuLower) (h : HaloInfo)
    (shift_expr : option (list Z * bool))
    (gather_expr : option (list Val * list (list Val)))
    (indices : list Val) (buffer_init isShiftPredicate : bool)
    (predicate : option Val) (ir : nat * IterDomain) : Lower (option Val) :=
  let '(i, root_id) := ir in
  if skipped g buffer_init root_id then ret predicate
  else
    let* halo_info := lift (Halo.getRootAxisInfo h root_id) in
    let* consumer_index := lift (at_index "indices" indices i) in
    if isShiftPredicate then
      let* left_limit :=
        SimplifyingIrBuilder.addExpr (widths_0 halo_info) (id_start root_id) in
      let* right_limit :=
        SimplifyingIrBuilder.addExpr (id_stop root_id) (widths_0 halo_info) in
      let* producer_index :=
        if non_null shift_expr
        then getShiftProducerIndex i consumer_index shift_expr
        else if non_null gather_expr
        then getGatherProducerIndex i consumer_index gather_expr indices
        else lift (at_index "indices" indices i) in
      let* predicate :=
        lower_limit_predicate shift_expr gather_expr i consumer_index
          producer_index left_limit predicate in
      (* upper limit predication *)
      upper_limit_predicate shift_expr gather_expr i consumer_index
        producer_index right_limit predicate
    else
      let* width := AxisHalo.total_width halo_info in
      let* padding_max_offset :=
        SimplifyingIrBuilder.addExpr (id_extent root_id) width in
      and_lt predicate consumer_index padding_max_offset.

(** The end of [getPredicate]: the thread predicate is merged in. *)
Definition merge_thread_pred (predicate : option Val) (thread_pred : Val)
  : Lower (option Val) :=
  match bvalue thread_pred with
  | Some false =>
      let* f := SimplifyingIrBuilder.create_Bool false in ret (Some f)
  | Some true => ret predicate
  | None => SimplifyingIrBuilder.andExpr predicate (Some thread_pred)
  end.

(** [ShiftPredicateInserter::getPredicate]. [definition] is
    [out_tv->fuserTv()->definition()], and [pred_indices] is what
    [Index::getConsumerRootPredIndices(out_tv, loops, pred_contiguity)]
    returns: one index for each root axis, and whether the expression
    initialises a reduction buffer. The result may be [nullptr]. *)
Definition getPredicate (g : GpuLower) (h : HaloInfo) (definition : Expr)
    (pred_indices : list Val * bool) (out_tv : TensorView)
    (thread_pred : Val) (isShiftPredicate : bool) : Lower (option Val) :=
  let* needs_shift_predicate :=
    lift (Halo.needsShiftPredicate h definition) in
  assert_that needs_shift_predicate "needs_shift_predicate";;
  let root_domain := td_root (tv_domain out_tv) in
  let shift_expr := as_ShiftOp (expr_op definition) in
  let gather_expr := as_GatherOp (expr_op definition) in
  (* Padding is only necessary for padded shift and gather *)
  if negb isShiftPredicate
     && ((negb (non_null shift_expr) && negb (non_null gather_expr))
         || (non_null shift_expr && negb (shift_pad shift_expr)))
  then let* f := SimplifyingIrBuilder.falseVal in ret (Some f)
  else
    let '(indices, buffer_init) := pred_indices in
    (* No predication is needed when the expr is to initialize reduction
       buffer on local memory *)
    if bool_decide (tv_memoryType out_tv = Local) && buffer_init
    then let* t := SimplifyingIrBuilder.trueVal in ret (Some t)
    else
      assert_that (length indices =? length root_domain)%nat
        "indices.size() == root_domain.size()";;
      let* predicate :=
        foldM (predicate_axis g h shift_expr gather_expr indices buffer_init
                              isShiftPredicate)
              (indexed root_domain) None in
      merge_thread_pred predicate thread_pred.

End ShiftPredicateInserter.

(** ** Vocabulary of the statements *)

(** Two widths are the same width when they are the same node or hold the
    same constant. *)
Definition same_width (x y : Val) : Prop :=
  x = y \/ exists v, value x = Some v /\ value y = Some v.

(** A width that is a constant is not negative. *)
Definition nonneg_width (w : Val) : Prop :=
  forall v, value w = Some v -> 0 <= v.

Definition nonneg_halo (h : AxisHaloInfo) : Prop :=
  nonneg_width (widths_0 h) /\ nonneg_width (widths_1 h).

Definition zero_halo (h : AxisHaloInfo) : Prop :=
  isZeroInt (widths_0 h) = true /\ isZeroInt (widths_1 h) = true.

(** The width [merge(pos, other)] stores: what the four branches of the
    source compute from the current width and [other]. *)
Definition merged_width (cur other new_width : Val) : Prop :=
  match value cur, value other with
  | Some vc, Some vo => value new_width = Some (Z.max vc vo)
  | _, _ =>
      if isZeroInt cur then new_width = other
      else if isZeroInt other then new_width = cur
      else definition new_width = BinaryOp Max cur other
           /\ isInt new_width = true
  end.

(** The condition of [needsShiftPredicate] at root axis [i], read off the
    tables: the axis carries halo, or it is not a broadcast and the
    expression shifts it by a non-zero offset or gathers it with a window
    that is not a known one. *)
Definition axis_needs_predicate (h : HaloInfo) (op : OpKind)
    (ic : nat * IterDomain) : bool :=
  let '(i, consumer_id) := ic in
  match root_axis_map_ h !! id_addr consumer_id with
  | Some info => AxisHalo.hasHalo info
  | None => false
  end
  || negb (id_isBroadcast consumer_id)
     && match op with
        | ShiftOp offsets _ =>
            match offsets !! i with Some o => negb (o =? 0) | None => false end
        | GatherOp windowShape _ =>
            match windowShape !! i with
            | Some w => negb (isOneInt w)
            | None => false
            end
        | OtherOp _ => false
        end.

(** The loop of [needsShiftPredicate] can evaluate its condition at root
    axis [i]: the axis has a root entry, and unless that entry has halo, the
    offset or the window size of the axis exists. *)
Definition axis_evaluable (h : HaloInfo) (op : OpKind)
    (ic : nat * IterDomain) : Prop :=
  let '(i, consumer_id) := ic in
  exists info,
    Halo.getRootAxisInfo h consumer_id = Ok info
    /\ (AxisHalo.hasHalo info = false ->
        match op with
        | ShiftOp offsets _ => is_Some (offsets !! i)
        | GatherOp windowShape _ => is_Some (windowShape !! i)
        | OtherOp _ => True
        end).

(** Every axis the loop reaches can be evaluated: the axes before the first
    one that needs the predicate, and that one. *)
Definition reached_axes_evaluable (h : HaloInfo) (op : OpKind)
    (axes : list (nat * IterDomain)) : Prop :=
  forall pre ic post,
    axes = pre ++ ic :: post ->
    existsb (axis_needs_predicate h op) pre = false ->
    axis_evaluable h op ic.

(** The padding flavour of [getPredicate] applies to the expression: it is a
    shift with padding or a gather. *)
Definition padded_shift_or_gather (op : OpKind) : bool :=
  match op with
  | ShiftOp _ pad => pad
  | GatherOp _ _ => true
  | OtherOp _ => false
  end.

(** A predicate holds in the kernel state [env]: it evaluates, to a value
    other than zero. A missing predicate ([nullptr]) holds. *)
Definition truthy (env : addr -> option Z) (v : Val) : Prop :=
  exists z, eval env v = Some z /\ z <> 0.

Definition ptruthy (env : addr -> option Z) (predicate : option Val) : Prop :=
  match predicate with
  | Some v => truthy env v
  | None => True
  end.

(** In the kernel state [env], [index] is below [limit]. *)
Definition index_below (env : addr -> option Z) (index limit : Val) : Prop :=
  exists x y, eval env index = Some x /\ eval env limit = Some y /\ x < y.

(** In the kernel state [env], [index] is below the stop position of the
    axis plus the low-side halo width [width(0)] of its root entry. *)
Definition below_stop_plus_low (env : addr -> option Z) (index : Val)
    (root_id : IterDomain) (info : AxisHaloInfo) : Prop :=
  exists x s w,
    eval env index = Some x /\ eval env (id_stop root_id) = Some s
    /\ eval env (widths_0 info) = Some w /\ x < s + w.

(** The upper bound the shift predicate enforces at root axis [i], whose
    root entry is [info]: with [c] the consumer index, the bound is
    [stop + width(0)]; it is imposed on the producer index [c - o] of a
    padded shift by a negative offset [o], else on [c], and for a gather
    also on the producer index [c + window index - padding] of an axis with
    a window other than one (stated for a constant padding). *)
Definition upper_bound_holds (env : addr -> option Z) (op : OpKind)
    (indices : list Val) (i : nat) (root_id : IterDomain)
    (info : AxisHaloInfo) : Prop :=
  exists c s w,
    (exists idx, indices !! i = Some idx /\ eval env idx = Some c)
    /\ eval env (id_stop root_id) = Some s
    /\ eval env (widths_0 info) = Some w
    /\ match op with
       | ShiftOp offsets pad =>
           exists o, offsets !! i = Some o
                     /\ if pad && (o <? 0) then c - o < s + w else c < s + w
       | GatherOp windowShape padWidth =>
           c < s + w
           /\ forall wdim pad_dim pad_size p,
               windowShape !! i = Some wdim -> isOneInt wdim = false ->
               padWidth !! i = Some pad_dim ->
               pad_dim !! 0%nat = Some pad_size ->
               value pad_size = Some p ->
               exists widx x,
                 indices !! ShiftPredicateInserter.gatherAxis windowShape i
                 = Some widx
                 /\ eval env widx = Some x
                 /\ c + x - p < s + w
       | OtherOp _ => c < s + w
       end.

(** In the kernel state [env], [index] is at least [limit]. *)
Definition index_at_least (env : addr -> option Z) (index limit : Val)
  : Prop :=
  exists x y, eval env index = Some x /\ eval env limit = Some y /\ y <= x.

(** The left limit [width(0) + start] of the axis is a known zero: both
    operands are constants that add up to zero. *)
Definition known_zero_limit (info : AxisHaloInfo) (root_id : IterDomain)
  : Prop :=
  exists a b, value (widths_0 info) = Some a
              /\ value (id_start root_id) = Some b /\ a + b = 0.

(** The lower bound the shift predicate enforces at root axis [i], whose
    root entry is [info]: with [c] the consumer index, the bound is
    [width(0) + start]; it is imposed on the producer index [c - o] of a
    padded shift by a positive offset [o] and on [c] for one without
    padding, for a gather on [c] and on the producer index
    [c + window index - padding] of an axis with a window other than one,
    and in any other case on [c] unless the limit is a known zero. *)
Definition lower_bound_holds (env : addr -> option Z) (op : OpKind)
    (indices : list Val) (i : nat) (root_id : IterDomain)
    (info : AxisHaloInfo) : Prop :=
  exists c s w,
    (exists idx, indices !! i = Some idx /\ eval env idx = Some c)
    /\ eval env (id_start root_id) = Some s
    /\ eval env (widths_0 info) = Some w
    /\ match op with
       | ShiftOp offsets pad =>
           exists o, offsets !! i = Some o
                     /\ if 0 <? o
                        then (if pad then w + s <= c - o else w + s <= c)
                        else known_zero_limit info root_id \/ w + s <= c
       | GatherOp windowShape padWidth =>
           w + s <= c
           /\ forall wdim pad_dim pad_size p,
               windowShape !! i = Some wdim -> isOneInt wdim = false ->
               padWidth !! i = Some pad_dim ->
               pad_dim !! 0%nat = Some pad_size ->
               value pad_size = Some p ->
               exists widx x,
                 indices !! ShiftPredicateInserter.gatherAxis windowShape i
                 = Some widx
                 /\ eval env widx = Some x
                 /\ w + s <= c + x - p
       | OtherOp _ => known_zero_limit info root_id \/ w + s <= c
       end.

(** The comparisons the lower-limit part of the loop body of [getPredicate]
    adds at root axis [i], over the nodes at hand: the consumer index [c],
    the producer index [p] and the left limit. *)
Definition lower_checks (env : addr -> option Z) (op : OpKind) (i : nat)
    (c p left_limit : Val) : Prop :=
  match op with
  | ShiftOp offsets pad =>
      exists o, offsets !! i = Some o
                /\ if 0 <? o
                   then index_at_least env (if pad then p else c) left_limit
                   else isZeroInt left_limit = true
                        \/ index_at_least env c left_limit
  | GatherOp _ _ =>
      index_at_least env c left_limit
      /\ (same_ptr c p = false -> index_at_least env p left_limit)
  | OtherOp _ =>
      isZeroInt left_limit = true \/ index_at_least env c left_limit
  end.

(** The comparisons the upper-limit part adds, over the nodes at hand. *)
Definition upper_checks (env : addr -> option Z) (op : OpKind) (i : nat)
    (c p right_limit : Val) : Prop :=
  match op with
  | ShiftOp offsets pad =>
      exists o, offsets !! i = Some o
                /\ index_below env (if pad && (o <? 0) then p else c)
                               right_limit
  | GatherOp _ _ =>
      index_below env c right_limit
      /\ (same_ptr c p = false -> index_below env p right_limit)
  | OtherOp _ => index_below env c right_limit
  end.

(** The bound the padding predicate enforces at root axis [i], whose root
    entry is [info]: the consumer index is below the extent of the axis plus
    its halo on both sides, [extent + width()]. *)
Definition padding_bound_holds (env : addr -> option Z) (indices : list Val)
    (i : nat) (root_id : IterDomain) (info : AxisHaloInfo) : Prop :=
  exists c e a b,
    (exists idx, indices !! i = Some idx /\ eval env idx = Some c)
    /\ eval env (id_extent root_id) = Some e
    /\ eval env (widths_0 info) = Some a
    /\ eval env (widths_1 info) = Some b
    /\ c < e + (a + b).

(** The paddings of a gather are constants. *)
Definition constant_padding (op : OpKind) : Prop :=
  match op with
  | GatherOp _ padWidth =>
      forall pad_dim pad_size,
        pad_dim ∈ padWidth -> pad_dim !! 0%nat = Some pad_size ->
        is_Some (value pad_size)
  | _ => True
  end.

(** A use of a tensor makes shared visibility of its axis [axis] necessary:
    the use is a shift or a gather, or it is a tensor operation and the axis
    of its output that is loop-mapped to [axis], the first one in the
    domain, is not proven to have an equal extent. *)
Definition use_needs_shared (g : GpuLower) (h : HaloInfo)
    (axis : IterDomain) (use : Expr) : Prop :=
  isShift (expr_op use) = true \/ isGather (expr_op use) = true
  \/ (isTVOp use = true
      /\ exists consumer rest it,
          expr_outputs use = TV consumer :: rest
          /\ find (fun consumer_axis => areMapped g axis consumer_axis)
                  (td_domain (tv_domain consumer)) = Some it
          /\ Halo.extentEqual g h axis it <> Ok true).

Definition needs_shared_visibility (g : GpuLower) (h : HaloInfo)
    (uses : list Expr) (axis : IterDomain) : Prop :=
  exists use, use ∈ uses /\ use_needs_shared g h axis use.

(** Two scalars live in one arena: among the nodes they are built from, an
    address stands for one node. *)
Definition one_arena (x y : Val) : Prop :=
  forall u v, u ∈ subnodes x -> v ∈ subnodes y ->
              val_addr u = val_addr v -> u = v.


(** A computation in [Lower] only moves the arena forward. *)
Definition mono {A} (m : Lower A) : Prop :=
  forall k a k', m k = Ok (a, k') -> (k <= k')%positive.

(** The loop of [propagateRootAxisInfo] can process consumer root axis [i] in
    the state [h]: if the axis is mapped to a producer axis, both have root
    entries; a broadcast axis carries no halo; and the offset (other than
    [INT_MIN]), or the window and the left padding (a [kir::Int]), of the
    axis exist. *)
Definition propagates (op : OpKind) (c2p : gmap addr IterDomain)
    (h : HaloInfo) (ic : nat * IterDomain) : Prop :=
  let '(i, c_id) := ic in
  forall p_id,
    c2p !! id_addr c_id = Some p_id ->
    exists p_info c_info,
      Halo.getRootAxisInfo h p_id = Ok p_info
      /\ Halo.getRootAxisInfo h c_id = Ok c_info
      /\ (id_isBroadcast c_id = true -> AxisHalo.hasHalo c_info = false)
      /\ (id_isBroadcast c_id = false ->
          match op with
          | ShiftOp offsets _ =>
              exists o, offsets !! i = Some o /\ o <> INT_MIN
          | GatherOp windowShape padWidth =>
              exists w,
                windowShape !! i = Some w
                /\ (isOneInt w = false ->
                    exists pad_dim pad_dim0,
                      padWidth !! i = Some pad_dim
                      /\ pad_dim !! 0%nat = Some pad_dim0
                      /\ isInt pad_dim0 = true)
          | OtherOp _ => True
          end).

(** No consumer root axis is itself the producer axis of a consumer axis. *)
Definition consumers_apart (c2p : gmap addr IterDomain)
    (c_root : list IterDomain) : Prop :=
  forall c c' p,
    c ∈ c_root -> c' ∈ c_root -> c2p !! id_addr c' = Some p ->
    id_addr p <> id_addr c.

(** Only consumer axis [i] is mapped to the producer axis [p_id]. *)
Definition only_consumer_of (c2p : gmap addr IterDomain)
    (c_root : list IterDomain) (i : nat) (p_id : IterDomain) : Prop :=
  forall j c p,
    c_root !! j = Some c -> j <> i -> c2p !! id_addr c = Some p ->
    id_addr p <> id_addr p_id.


(** ** Small fusions used as concrete inputs *)

Module Sample.

(** A root axis; its extent is a scalar input of the fusion. *)
Definition axis (a : addr) (bcast : bool) : IterDomain :=
  mkIterDomain a (IntConst 100 0) (IntSym 101 NoDef) (IntSym 101 NoDef)
               bcast false false Serial RootAxis.

(** A one-dimensional tensor [T<n>] over root axis [n], not split. *)
Definition tensor (n : nat) (bcast input : bool) : TensorView :=
  let ax := axis (Pos.of_nat n) bcast in
  mkTensorView n (mkTensorDomain [ax] [] [ax] []) Global input false.

Definition T0 := tensor 1 false true.        (* the fusion input *)
Definition T1 := tensor 2 false false.
Definition T2 := tensor 3 false false.
Definition T3 := tensor 4 false false.
Definition T2b := tensor 3 true false.       (* T2 with a broadcast axis *)

Definition unary (op : OpKind) (input output : TensorView) : Expr :=
  mkExpr op [TV input] [TV output].

(** The first consumer axis maps to the first axis of the producer; axes
    are loop-mapped to themselves only, and are their own concrete axes. *)
Definition lower : GpuLower :=
  mkGpuLower
    (fun id => id)
    (fun id1 id2 => bool_decide (id_addr id1 = id_addr id2))
    (fun _ => false)
    (fun producer consumer =>
       match td_root (tv_domain producer), td_root (tv_domain consumer) with
       | p :: _, c :: _ => {[ id_addr c := p ]}
       | _, _ => ∅
       end).

Definition uses_of (exprs : list Expr) (tv : TensorView) : list Expr :=
  filter (fun e => bool_decide
                     (tv_name tv ∈ (tv_name <$> omap as_TensorView
                                                     (expr_inputs e))))
         exprs.

Definition fusion (tvs : list TensorView) (exprs : list Expr)
  : Halo.Fusion :=
  Halo.mkFusion tvs exprs (uses_of exprs).

(** [T1 = T0 + 1; T2 = shift(T1, {2}); T3 = shift(T1, {5})] *)
Definition two_shifts : Halo.Fusion :=
  fusion [T0; T1; T2; T3]
         [unary (OtherOp true) T0 T1;
          unary (ShiftOp [2] false) T1 T2;
          unary (ShiftOp [5] false) T1 T3].

(** [T1 = T0 + 1; T2 = shift(T1, {2})], the axis of [T2] a broadcast. *)
Definition shift_broadcast : Halo.Fusion :=
  fusion [T0; T1; T2b]
         [unary (OtherOp true) T0 T1;
          unary (ShiftOp [2] false) T1 T2b].

(** The output of a gather of a one-dimensional tensor: the tensor axis
    and the window axis. *)
Definition gathered (n : nat) (window : Z) : TensorView :=
  let ax := axis (Pos.of_nat n) false in
  let win := mkIterDomain (Pos.of_nat n + 50) (IntConst 100 0)
               (IntConst 102 window) (IntConst 102 window)
               false false false Serial RootAxis in
  mkTensorView n (mkTensorDomain [ax; win] [] [ax; win] []) Global false
               false.

Definition T2g := gathered 3 3.
Definition T2u := gathered 3 1.

(** A window of 3 with one element of padding on each side. *)
Definition gather3 : OpKind :=
  GatherOp [IntConst 103 3] [[IntConst 104 1; IntConst 105 1]].

(** A window of 1 without padding. *)
Definition gather1 : OpKind :=
  GatherOp [IntConst 103 1] [[IntConst 104 0; IntConst 105 0]].

(** [T1 = T0 + 1; T2 = gather(T1, {3}, {{1, 1}}); T3 = shift(T1, {5})] *)
Definition gather_and_shift : Halo.Fusion :=
  fusion [T0; T1; T2g; T3]
         [unary (OtherOp true) T0 T1;
          unary gather3 T1 T2g;
          unary (ShiftOp [5] false) T1 T3].

(** [T1 = T0 + 1; T2 = gather(T1, {1}, {{0, 0}}); T3 = shift(T2, {2})] *)
Definition unit_gather_then_shift : Halo.Fusion :=
  fusion [T0; T1; T2u; T3]
         [unary (OtherOp true) T0 T1;
          unary gather1 T1 T2u;
          unary (ShiftOp [2; 0] false) T2u T3].

(** [T1 = T0 + 1; T2 = T1 + 1; T3 = shift(T2, {2})] *)
Definition pointwise_then_shift : Halo.Fusion :=
  fusion [T0; T1; T2; T3]
         [unary (OtherOp true) T0 T1;
          unary (OtherOp true) T1 T2;
          unary (ShiftOp [2] false) T2 T3].

(** The low and high halo widths recorded for the first root axis of a
    tensor, when both are constants. *)
Definition root_halo (h : HaloInfo) (tv : TensorView) : option (Z * Z) :=
  match td_root (tv_domain tv) with
  | ax :: _ =>
      match Halo.getRootAxisInfo h ax with
      | Ok info =>
          match value (widths_0 info), value (widths_1 info) with
          | Some lo, Some hi => Some (lo, hi)
          | _, _ => None
          end
      | Fail _ => None
      end
  | _ => None
  end.

(** The root entries after initialisation: no halo anywhere. *)
Definition blank : HaloInfo :=
  let none a := mkAxisHaloInfo (IntConst a 0) (IntConst (a + 1) 0) in
  let m : gmap addr AxisHaloInfo :=
    <[1%positive := none 10%positive]>
      (<[2%positive := none 12%positive]>
         (<[3%positive := none 14%positive]>
            (<[4%positive := none 16%positive]>
               (<[5%positive := none 18%positive]> ∅)))) in
  mkHaloInfo m m ∅ ∅.

(** The axis of [T1] with a halo width of 3, about to be split. *)
Definition before_split : HaloInfo :=
  mkHaloInfo (root_axis_map_ blank) (kir_root_axis_map_ blank)
             {[ 2%positive := IntSym 21 (BinaryOp Add (IntSym 101 NoDef)
                                                  (IntConst 20 3)) ]}
             {[ 2%positive := IntConst 20 3 ]}.

Definition outer : IterDomain :=
  mkIterDomain 6 (IntConst 100 0) (IntSym 106 NoDef) (IntSym 106 NoDef)
               false false false Serial (SplitOf (axis 2 false)).

Definition inner : IterDomain :=
  mkIterDomain 7 (IntConst 100 0) (IntConst 107 32) (IntConst 107 32)
               false false false Serial (SplitOf (axis 2 false)).

(** The axis of [T1], with halo, merged with the axis of [T3] and the output
    split again. *)
Definition merged_axis : IterDomain :=
  mkIterDomain 8 (IntConst 100 0) (IntSym 108 NoDef) (IntSym 108 NoDef)
               false false false Serial
               (MergeOf (axis 2 false) (axis 4 false)).




(** The root entries with a low halo of 3 on the axis of [T1]. *)
Definition halo_on_T1 : HaloInfo :=
  let none a := mkAxisHaloInfo (IntConst a 0) (IntConst (a + 1) 0) in
  let m : gmap addr AxisHaloInfo :=
    <[2%positive := mkAxisHaloInfo (IntConst 12 3) (IntConst 13 0)]>
      (<[4%positive := none 16%positive]> ∅) in
  mkHaloInfo m m ∅ ∅.

(** Two merged axes over operands with the same halo widths. *)
Definition derived (a : addr) (def : IterDef IterDomain) : IterDomain :=
  mkIterDomain a (IntConst 100 0) (IntSym (a + 100) NoDef)
               (IntSym (a + 100) NoDef) false false false Serial def.

Definition merged1 : IterDomain :=
  derived 10 (MergeOf (derived 6 OtherDef) (derived 7 OtherDef)).

Definition merged2 : IterDomain :=
  derived 11 (MergeOf (derived 8 OtherDef) (derived 9 OtherDef)).

Definition after_merge : HaloInfo :=
  mkHaloInfo ∅ ∅
    {[ 7%positive := IntSym 40 NoDef; 9%positive := IntSym 41 NoDef;
       10%positive := IntSym 42 NoDef; 11%positive := IntSym 43 NoDef ]}
    {[ 6%positive := IntConst 30 0; 7%positive := IntConst 20 3;
       8%positive := IntConst 31 0; 9%positive := IntConst 32 3 ]}.

(** The same merged axes, the inner operands with the widths 3 and 5. *)
Definition after_uneven_merge : HaloInfo :=
  mkHaloInfo ∅ ∅
    {[ 7%positive := IntSym 40 NoDef; 9%positive := IntSym 41 NoDef;
       10%positive := IntSym 42 NoDef; 11%positive := IntSym 43 NoDef ]}
    {[ 6%positive := IntConst 30 0; 7%positive := IntConst 20 3;
       8%positive := IntConst 31 0; 9%positive := IntConst 32 5 ]}.

(** Two axes whose halo widths are separate [max] nodes over the same two
    symbolic widths. *)
Definition symbolic_widths : HaloInfo :=
  mkHaloInfo ∅ ∅ ∅
    {[ 6%positive := IntSym 30 (BinaryOp Max (IntSym 40 NoDef)
                                         (IntSym 41 NoDef));
       7%positive := IntSym 31 (BinaryOp Max (IntSym 40 NoDef)
                                         (IntSym 41 NoDef)) ]}.

(** All axes are loop-mapped to each other. *)
Definition mapped_all : GpuLower :=
  mkGpuLower (fun id => id) (fun _ _ => true) (fun _ => false)
             (mapConsumerToProducer lower).

(** A root axis bound to [ptype]. *)
Definition parallel_axis (a : addr) (ptype : ParallelType) : IterDomain :=
  mkIterDomain a (IntConst 100 0) (IntSym 101 NoDef) (IntSym 101 NoDef)
               false false false ptype RootAxis.

(** A one-dimensional tensor whose axis is bound to [ptype]. *)
Definition parallel_tensor (n : nat) (ptype : ParallelType) (mem : MemoryType)
  : TensorView :=
  let ax := parallel_axis (Pos.of_nat n) ptype in
  mkTensorView n (mkTensorDomain [ax] [] [ax] []) mem false false.

Definition B1 := parallel_tensor 2 BIDx Global.
Definition B2 := parallel_tensor 3 BIDx Global.
Definition T4 := tensor 5 false false.

(** The axes of [B1] and [B2] share a loop; no other axes do. *)
Definition lower_blocks : GpuLower :=
  mkGpuLower
    (fun id => id)
    (fun id1 id2 =>
       bool_decide (id_addr id1 = id_addr id2)
       || (bool_decide (id_addr id1 ∈ [2%positive; 3%positive])
           && bool_decide (id_addr id2 ∈ [2%positive; 3%positive])))
    (fun _ => false)
    (mapConsumerToProducer lower).

(** [B1 = T0 + 1; B2 = B1 + 1; T3 = B2 + 1; T4 = shift(T3, {2})], the axes of
    [B1] and [B2] bound to [blockIdx.x]. *)
Definition block_chain : Halo.Fusion :=
  fusion [T0; B1; B2; T3; T4]
         [unary (OtherOp true) T0 B1;
          unary (OtherOp true) B1 B2;
          unary (OtherOp true) B2 T3;
          unary (ShiftOp [2] false) T3 T4].

(** [B1 = T0 + 1; T3 = shift(B1, {2})]: the halo-extended block-parallel
    axis of [B1] is read by a shift. *)
Definition block_shift : Halo.Fusion :=
  fusion [T0; B1; T3]
         [unary (OtherOp true) T0 B1;
          unary (ShiftOp [2] false) B1 T3].

(** The root entries of [block_shift] after backward propagation: the axis
    of [B1] has a low halo of 2. *)
Definition after_block_shift : HaloInfo :=
  let none a := mkAxisHaloInfo (IntConst a 0) (IntConst (a + 1) 0) in
  let m : gmap addr AxisHaloInfo :=
    <[1%positive := none 10%positive]>
      (<[2%positive := mkAxisHaloInfo (IntConst 12 2) (IntConst 13 0)]>
         (<[4%positive := none 16%positive]> ∅)) in
  mkHaloInfo m m ∅ ∅.

(** [T1] shifted by 2 with padding into a tensor in local memory. *)
Definition L2 : TensorView :=
  let ax := axis 3 false in
  mkTensorView 3 (mkTensorDomain [ax] [] [ax] []) Local false false.

Definition padded_shift : Expr := unary (ShiftOp [2] true) T1 L2.

(** [T1 = T0 + 1; T2 = shift(T1, {-2})], with padding: [T1] gets a high
    halo of 2. *)
Definition negative_shift : Halo.Fusion :=
  fusion [T0; T1; T2]
         [unary (OtherOp true) T0 T1;
          unary (ShiftOp [-2] true) T1 T2].

(** A kernel state: the loop index (node 200) is [c], the extent [N] of the
    axes (node 101) is 10. *)
Definition state (c : Z) : addr -> option Z :=
  fun a => if (a =? 200)%positive then Some c
           else if (a =? 101)%positive then Some 10
           else None.

(** As [lower], with every axis derived from a trivial reduction. *)
Definition lower_trivial : GpuLower :=
  mkGpuLower (getConcreteMappedID lower) (areMapped lower) (fun _ => true)
             (mapConsumerToProducer lower).

Definition analysed (f : Halo.Fusion) : Result HaloInfo :=
  match Halo.build lower Halo.empty f 1000%positive with
  | Ok (h, _) => Ok h
  | Fail e => Fail e
  end.

End Sample.

(** ** Properties of [AxisHaloInfo::merge] *)

Lemma same_width_eval x y env :
  same_width x y -> eval env x = eval env y.
Proof.
  intros [-> | (v & Hx & Hy)]; [reflexivity |].
  destruct x; try discriminate; destruct y; try discriminate.
  simpl in *. congruence.
Qed.

Lemma isZeroInt_value w : isZeroInt w = true <-> value w = Some 0.
Proof.
  destruct w; simpl; split; try discriminate; intros H.
  - apply Z.eqb_eq in H. now subst.
  - injection H as ->. reflexivity.
Qed.

Lemma hasHalo_false h : AxisHalo.hasHalo h = false <-> zero_halo h.
Proof.
  unfold AxisHalo.hasHalo, zero_halo. simpl.
  destruct (isZeroInt (widths_0 h)), (isZeroInt (widths_1 h)); simpl;
    intuition congruence.
Qed.

Lemma hasHalo_true info :
  AxisHalo.hasHalo info = true
  <-> isZeroInt (widths_0 info) = false \/ isZeroInt (widths_1 info) = false.
Proof.
  unfold AxisHalo.hasHalo. simpl.
  destruct (isZeroInt (widths_0 info)), (isZeroInt (widths_1 info)); simpl;
    intuition discriminate.
Qed.

Lemma merge_pos_0 h other k :
  exists w k', AxisHalo.merge_pos h 0 other k
               = Ok (mkAxisHaloInfo w (widths_1 h), k')
               /\ merged_width (widths_0 h) other w /\ (k <= k')%positive.
Proof.
  unfold AxisHalo.merge_pos, merged_width, bind, lift. simpl.
  destruct (value (widths_0 h)) as [vc|] eqn:Hc;
    [destruct (value other) as [vo|] eqn:Ho |].
  - simpl. eexists _, _. split; [reflexivity |]. simpl. split; [easy | lia].
  - destruct (isZeroInt (widths_0 h)); [| destruct (isZeroInt other)];
      simpl; eexists _, _; (split; [reflexivity |]); simpl; (split; [easy | lia]).
  - destruct (isZeroInt (widths_0 h)); [| destruct (isZeroInt other)];
      simpl; eexists _, _; (split; [reflexivity |]); simpl; (split; [easy | lia]).
Qed.

Lemma merge_pos_1 h other k :
  exists w k', AxisHalo.merge_pos h 1 other k
               = Ok (mkAxisHaloInfo (widths_0 h) w, k')
               /\ merged_width (widths_1 h) other w /\ (k <= k')%positive.
Proof.
  unfold AxisHalo.merge_pos, merged_width, bind, lift. simpl.
  destruct (value (widths_1 h)) as [vc|] eqn:Hc;
    [destruct (value other) as [vo|] eqn:Ho |].
  - simpl. eexists _, _. split; [reflexivity |]. simpl. split; [easy | lia].
  - destruct (isZeroInt (widths_1 h)); [| destruct (isZeroInt other)];
      simpl; eexists _, _; (split; [reflexivity |]); simpl; (split; [easy | lia]).
  - destruct (isZeroInt (widths_1 h)); [| destruct (isZeroInt other)];
      simpl; eexists _, _; (split; [reflexivity |]); simpl; (split; [easy | lia]).
Qed.

(** [merge(other)] always succeeds and merges each side on its own. *)
Lemma merge_sides h other k :
  exists w0 w1 k', AxisHalo.merge h other k = Ok (mkAxisHaloInfo w0 w1, k')
    /\ merged_width (widths_0 h) (widths_0 other) w0
    /\ merged_width (widths_1 h) (widths_1 other) w1
    /\ (k <= k')%positive.
Proof.
  unfold AxisHalo.merge. simpl.
  destruct (merge_pos_0 h (widths_0 other) k) as (w0 & k0 & E0 & M0 & L0).
  destruct (merge_pos_1 (mkAxisHaloInfo w0 (widths_1 h)) (widths_1 other) k0)
    as (w1 & k1 & E1 & M1 & L1).
  exists w0, w1, k1. unfold bind at 1. unfold bind at 1, lift at 1. simpl.
  rewrite E0. unfold bind at 1. unfold bind at 1, lift at 1. simpl.
  rewrite E1. simpl in *. repeat split; try assumption. lia.
Qed.

Lemma merged_width_zero cur zero w :
  nonneg_width cur -> isZeroInt zero = true ->
  merged_width cur zero w -> same_width w cur.
Proof.
  intros Hn Hz. apply isZeroInt_value in Hz as Hv.
  unfold merged_width. rewrite Hv, Hz.
  destruct (value cur) as [vc|] eqn:Hc.
  - intros Hw. right. exists vc. split; [| exact Hc].
    rewrite Hw. f_equal. specialize (Hn vc Hc). lia.
  - destruct (isZeroInt cur) eqn:Hzc.
    + apply isZeroInt_value in Hzc. congruence.
    + intros ->. now left.
Qed.

Lemma merged_width_comm a b w1 w2 env :
  merged_width a b w1 -> merged_width b a w2 -> eval env w1 = eval env w2.
Proof.
  unfold merged_width.
  destruct (value a) as [va|] eqn:Ha, (value b) as [vb|] eqn:Hb.
  - intros H1 H2. destruct w1; try discriminate; destruct w2; try discriminate.
    simpl in *. injection H1 as ->. injection H2 as ->. f_equal. lia.
  - assert (isZeroInt b = false) as -> by (destruct b; simpl in *; congruence).
    destruct (isZeroInt a); [intros -> ->; reflexivity |].
    intros [D1 I1] [D2 I2].
    destruct w1; try discriminate; destruct w2; try discriminate.
    simpl in *. subst. destruct (eval env a), (eval env b); simpl; try easy.
    f_equal. lia.
  - assert (isZeroInt a = false) as -> by (destruct a; simpl in *; congruence).
    destruct (isZeroInt b); [intros -> ->; reflexivity |].
    intros [D1 I1] [D2 I2].
    destruct w1; try discriminate; destruct w2; try discriminate.
    simpl in *. subst. destruct (eval env a), (eval env b); simpl; try easy.
    f_equal. lia.
  - assert (isZeroInt a = false) as -> by (destruct a; simpl in *; congruence).
    assert (isZeroInt b = false) as -> by (destruct b; simpl in *; congruence).
    intros [D1 I1] [D2 I2].
    destruct w1; try discriminate; destruct w2; try discriminate.
    simpl in *. subst. destruct (eval env a), (eval env b); simpl; try easy.
    f_equal. lia.
Qed.

Lemma merged_width_const a b w va vb :
  value a = Some va -> value b = Some vb -> merged_width a b w ->
  value w = Some (Z.max va vb).
Proof. unfold merged_width. now intros -> ->. Qed.

(** Constant widths stay non-negative under merge, whatever is merged in:
    this is why a recorded constant width is never negative. *)
Lemma merged_width_nonneg cur other w :
  nonneg_width cur -> merged_width cur other w -> nonneg_width w.
Proof.
  intros Hn. unfold merged_width.
  destruct (value cur) as [vc|] eqn:Hc;
    [destruct (value other) as [vo|] eqn:Ho |].
  - intros Hw v. rewrite Hw. intros [= <-]. specialize (Hn vc Hc). lia.
  - destruct (isZeroInt cur); [intros -> v Hv; congruence |].
    destruct (isZeroInt other); [now intros -> |].
    intros [D I] v Hv. destruct w; discriminate.
  - destruct (isZeroInt cur) eqn:Hz;
      [apply isZeroInt_value in Hz; congruence |].
    destruct (isZeroInt other); [now intros -> |].
    intros [D I] v Hv. destruct w; discriminate.
Qed.

Lemma merge_nonneg a b k r k' :
  nonneg_halo a -> AxisHalo.merge a b k = Ok (r, k') -> nonneg_halo r.
Proof.
  intros [N0 N1] E.
  destruct (merge_sides a b k) as (w0 & w1 & k1 & E' & M0 & M1 & _).
  rewrite E' in E. injection E as <- <-.
  split; simpl.
  - exact (merged_width_nonneg _ _ _ N0 M0).
  - exact (merged_width_nonneg _ _ _ N1 M1).
Qed.

Lemma new_nonneg k r k' : AxisHalo.new k = Ok (r, k') -> nonneg_halo r.
Proof.
  unfold AxisHalo.new, bind, IrBuilder.zeroVal, IrBuilder.create_Int, ret.
  intros [= <- <-]. split; intros v [= <-]; lia.
Qed.

(** C8. [AxisHaloInfo::merge], on each side: merging in a known zero leaves a
    (non-negative) width as it is; the merged width has the same value
    whichever operand is the current one; and two constants merge to a
    constant that is at least the larger of them. *)
Theorem merge_zero_comm_max (a b : AxisHaloInfo) (k : Kernel) :
  (forall z, nonneg_halo a -> zero_halo z ->
     exists r k', AxisHalo.merge a z k = Ok (r, k')
       /\ same_width (widths_0 r) (widths_0 a)
       /\ same_width (widths_1 r) (widths_1 a))
  /\ (exists r1 r2 k1 k2,
        AxisHalo.merge a b k = Ok (r1, k1)
        /\ AxisHalo.merge b a k = Ok (r2, k2)
        /\ forall env, eval env (widths_0 r1) = eval env (widths_0 r2)
                       /\ eval env (widths_1 r1) = eval env (widths_1 r2))
  /\ (forall a0 a1 b0 b1,
        value (widths_0 a) = Some a0 -> value (widths_1 a) = Some a1 ->
        value (widths_0 b) = Some b0 -> value (widths_1 b) = Some b1 ->
        exists r k' r0 r1,
          AxisHalo.merge a b k = Ok (r, k')
          /\ value (widths_0 r) = Some r0 /\ value (widths_1 r) = Some r1
          /\ Z.max a0 b0 <= r0 /\ Z.max a1 b1 <= r1
          /\ a0 <= r0 /\ a1 <= r1).
Proof.
  split; [| split].
  - intros z [N0 N1] [Z0 Z1].
    destruct (merge_sides a z k) as (w0 & w1 & k1 & E & M0 & M1 & _).
    exists (mkAxisHaloInfo w0 w1), k1. split; [exact E |]. simpl.
    split; [exact (merged_width_zero _ _ _ N0 Z0 M0)
           | exact (merged_width_zero _ _ _ N1 Z1 M1)].
  - destruct (merge_sides a b k) as (w0 & w1 & k1 & E1 & M0 & M1 & _).
    destruct (merge_sides b a k) as (v0 & v1 & k2 & E2 & M0' & M1' & _).
    exists (mkAxisHaloInfo w0 w1), (mkAxisHaloInfo v0 v1), k1, k2.
    split; [exact E1 |]. split; [exact E2 |]. intros env. simpl.
    split; [exact (merged_width_comm _ _ _ _ env M0 M0')
           | exact (merged_width_comm _ _ _ _ env M1 M1')].
  - intros a0 a1 b0 b1 Ha0 Ha1 Hb0 Hb1.
    destruct (merge_sides a b k) as (w0 & w1 & k1 & E & M0 & M1 & _).
    exists (mkAxisHaloInfo w0 w1), k1, (Z.max a0 b0), (Z.max a1 b1).
    split; [exact E |]. simpl.
    rewrite (merged_width_const _ _ _ _ _ Ha0 Hb0 M0).
    rewrite (merged_width_const _ _ _ _ _ Ha1 Hb1 M1).
    repeat split; lia.
Qed.

Lemma merge_zero_comm_max_witness :
  exists r k',
    AxisHalo.merge (mkAxisHaloInfo (IntConst 1%positive 2) (IntSym 2%positive NoDef))
                   (mkAxisHaloInfo (IntConst 3%positive 0) (IntConst 4%positive 0)) 5%positive
    = Ok (r, k')
    /\ same_width (widths_0 r) (IntConst 1%positive 2)
    /\ same_width (widths_1 r) (IntSym 2%positive NoDef).
Proof.
  apply (merge_zero_comm_max
           (mkAxisHaloInfo (IntConst 1%positive 2) (IntSym 2%positive NoDef))
           (mkAxisHaloInfo (IntConst 3%positive 0) (IntConst 4%positive 0)) 5%positive).
  - split; intros v; simpl; intros [= <-]; lia.
  - split; reflexivity.
Defined.

(** ** Backward propagation: shift *)

Lemma isZeroInt_inv w : isZeroInt w = true -> exists a, w = IntConst a 0.
Proof.
  destruct w; simpl; try discriminate.
  intros H. apply Z.eqb_eq in H. subst. now eexists.
Qed.

Lemma zero_halo_inv info :
  zero_halo info ->
  exists a0 a1, info = mkAxisHaloInfo (IntConst a0 0) (IntConst a1 0).
Proof.
  destruct info as [w0 w1]. intros [H0 H1]. simpl in *.
  apply isZeroInt_inv in H0 as [a0 ->]. apply isZeroInt_inv in H1 as [a1 ->].
  now exists a0, a1.
Qed.

Lemma getRootAxisInfo_is_root h id info :
  Halo.getRootAxisInfo h id = Ok info ->
  Halo.is_root id = true /\ root_axis_map_ h !! id_addr id = Some info.
Proof.
  unfold Halo.getRootAxisInfo. destruct (Halo.is_root id); [| discriminate].
  destruct (root_axis_map_ h !! id_addr id); [| discriminate].
  intros [= ->]. now split.
Qed.

Lemma get_set_RootAxisInfo h id info :
  Halo.is_root id = true ->
  exists h', Halo.setRootAxisInfo h id info = Ok h'
             /\ Halo.getRootAxisInfo h' id = Ok info
             /\ kir_extent_map_ h' = kir_extent_map_ h
             /\ halo_width_map_ h' = halo_width_map_ h.
Proof.
  intros R. unfold Halo.setRootAxisInfo, Halo.getRootAxisInfo. rewrite R.
  eexists. split; [reflexivity |]. simpl.
  now rewrite lookup_insert_eq.
Qed.

Lemma addExpr_imm_const a v b k :
  b <> 0 ->
  SimplifyingIrBuilder.addExpr_imm (IntConst a v) b k
  = Ok (IntConst k (v + b), Pos.succ k).
Proof.
  intros Hb. unfold SimplifyingIrBuilder.addExpr_imm.
  apply Z.eqb_neq in Hb. now rewrite Hb.
Qed.

(** Running a step that ends by writing the producer entry back. *)
Lemma bind_setRootAxisInfo (m : Lower AxisHaloInfo) h p_id info k k1 :
  Halo.is_root p_id = true ->
  m k = Ok (info, k1) ->
  exists h', (let* p_info := m in lift (Halo.setRootAxisInfo h p_id p_info)) k
             = Ok (h', k1)
             /\ Halo.getRootAxisInfo h' p_id = Ok info
             /\ kir_extent_map_ h' = kir_extent_map_ h
             /\ halo_width_map_ h' = halo_width_map_ h.
Proof.
  intros R E.
  destruct (get_set_RootAxisInfo h p_id info R) as (h' & S & G).
  exists h'. split; [| exact G].
  unfold bind, lift. now rewrite E, S.
Qed.

Lemma std_abs_ok o : o <> INT_MIN -> std_abs o = Ok (Z.abs o).
Proof.
  intros H. unfold std_abs. apply Z.eqb_neq in H. now rewrite H.
Qed.

Lemma negate_ok o : o <> INT_MIN -> negate o = Ok (- o).
Proof.
  intros H. unfold negate. apply Z.eqb_neq in H. now rewrite H.
Qed.

(** The loop body at a mapped, non-broadcast axis of a shift. *)
Lemma propagateRootAxis_shift offsets pad c2p h i c_id p_id c_info p_info o k :
  c2p !! id_addr c_id = Some p_id ->
  offsets !! i = Some o ->
  id_isBroadcast c_id = false ->
  Halo.getRootAxisInfo h c_id = Ok c_info ->
  Halo.getRootAxisInfo h p_id = Ok p_info ->
  Halo.propagateRootAxis (ShiftOp offsets pad) c2p h (i, c_id) k
  = (let* p_info :=
       if o =? 0 then AxisHalo.merge p_info c_info
       else
         let pos := if 0 <? o then 0%nat else 1%nat in
         let* cw := lift (AxisHalo.width c_info pos) in
         let* amount := lift (std_abs o) in
         let* w := SimplifyingIrBuilder.addExpr_imm cw amount in
         AxisHalo.merge_pos p_info pos w in
     lift (Halo.setRootAxisInfo h p_id p_info)) k.
Proof.
  intros Hmap Hoff Hb Hc Hp.
  unfold Halo.propagateRootAxis. rewrite Hmap.
  unfold bind at 1. unfold lift at 1. rewrite Hp.
  unfold bind at 1. unfold lift at 1. rewrite Hc. rewrite Hb.
  unfold bind at 1. unfold lift at 1. unfold offset. rewrite Hoff.
  reflexivity.
Qed.

(** At a consumer root axis that is mapped to a producer axis, is not a
    broadcast and is shifted by [o], one round of the loop records
    [max(o,0)] and [max(-o,0)] when neither axis carries halo yet, and the
    merge of the two entries when [o = 0]. *)
Lemma shift_axis_halo
    (offsets : list Z) (pad : bool) (c2p : gmap addr IterDomain)
    (h : HaloInfo) (i : nat) (c_id p_id : IterDomain)
    (c_info p_info : AxisHaloInfo) (o : Z) (k : Kernel) :
  c2p !! id_addr c_id = Some p_id ->
  offsets !! i = Some o ->
  id_isBroadcast c_id = false ->
  Halo.getRootAxisInfo h c_id = Ok c_info ->
  Halo.getRootAxisInfo h p_id = Ok p_info ->
  INT_MIN < o <= INT_MAX ->
  (zero_halo c_info -> zero_halo p_info ->
     exists h' k' info',
       Halo.propagateRootAxis (ShiftOp offsets pad) c2p h (i, c_id) k
       = Ok (h', k')
       /\ Halo.getRootAxisInfo h' p_id = Ok info'
       /\ value (widths_0 info') = Some (Z.max o 0)
       /\ value (widths_1 info') = Some (Z.max (- o) 0))
  /\ (o = 0 ->
      exists merged h' k',
        AxisHalo.merge p_info c_info k = Ok (merged, k')
        /\ Halo.propagateRootAxis (ShiftOp offsets pad) c2p h (i, c_id) k
           = Ok (h', k')
        /\ Halo.getRootAxisInfo h' p_id = Ok merged).
Proof.
  intros Hmap Hoff Hb Hc Hp Hint.
  assert (Habs : std_abs o = Ok (Z.abs o)) by (apply std_abs_ok; lia).
  destruct (getRootAxisInfo_is_root _ _ _ Hp) as [Rp _].
  rewrite (propagateRootAxis_shift _ pad _ _ _ _ _ _ _ _ k Hmap Hoff Hb Hc Hp).
  split.
  - intros Zc Zp.
    apply zero_halo_inv in Zc as (c0 & c1 & ->).
    apply zero_halo_inv in Zp as (p0 & p1 & ->).
    destruct (o =? 0) eqn:E0.
    + apply Z.eqb_eq in E0. subst o.
      edestruct bind_setRootAxisInfo as (h' & E & G & _);
        [exact Rp | | eexists h', _, _; split; [exact E | split; [exact G |]]].
      * reflexivity.
      * simpl. split; reflexivity.
    + apply Z.eqb_neq in E0.
      destruct (0 <? o) eqn:Epos.
      * apply Z.ltb_lt in Epos.
        edestruct bind_setRootAxisInfo as (h' & E & G & _);
          [exact Rp | | eexists h', _, _; split; [exact E | split; [exact G |]]].
        -- unfold bind at 1. unfold lift at 1. simpl AxisHalo.width. cbv iota.
           unfold bind at 1. unfold lift at 1. rewrite Habs.
           unfold bind at 1. rewrite addExpr_imm_const by lia.
           reflexivity.
        -- simpl. split; f_equal; lia.
      * apply Z.ltb_ge in Epos.
        edestruct bind_setRootAxisInfo as (h' & E & G & _);
          [exact Rp | | eexists h', _, _; split; [exact E | split; [exact G |]]].
        -- unfold bind at 1. unfold lift at 1. simpl AxisHalo.width. cbv iota.
           unfold bind at 1. unfold lift at 1. rewrite Habs.
           unfold bind at 1. rewrite addExpr_imm_const by lia.
           reflexivity.
        -- simpl. split; f_equal; lia.
  - intros ->. change (0 =? 0) with true. cbv iota.
    destruct (merge_sides p_info c_info k) as (w0 & w1 & k1 & E & _).
    destruct (bind_setRootAxisInfo (AxisHalo.merge p_info c_info) h p_id _ k k1
                Rp E) as (h' & E' & G & _).
    exists (mkAxisHaloInfo w0 w1), h', k1. repeat split; assumption.
Qed.

(** *** Indexed loops *)

Lemma In_indexed_from {A} (l : list A) n i x :
  In (i, x) (combine (seq n (length l)) l)
  <-> (n <= i)%nat /\ l !! (i - n)%nat = Some x.
Proof.
  revert n. induction l as [| y l IH]; intros n; simpl.
  - split; [tauto | intros [_ H]; discriminate].
  - rewrite IH. split.
    + intros [[= <- <-] | [Hle Hl]].
      * split; [lia |]. now rewrite Nat.sub_diag.
      * split; [lia |].
        replace (i - n)%nat with (S (i - S n)) by lia. exact Hl.
    + intros [Hle Hl].
      destruct (decide (i = n)) as [-> | Hne].
      * left. rewrite Nat.sub_diag in Hl. simpl in Hl. congruence.
      * right. split; [lia |].
        replace (i - n)%nat with (S (i - S n)) in Hl by lia. exact Hl.
Qed.

Lemma In_indexed {A} (l : list A) i x :
  In (i, x) (indexed l) <-> l !! i = Some x.
Proof.
  unfold indexed. rewrite In_indexed_from, Nat.sub_0_r.
  split; [tauto | split; [lia | assumption]].
Qed.

(** *** The whole loop over the consumer root axes *)

Lemma bind_ok_eq {A B} (m : Lower A) (f : A -> Lower B) k a k1 :
  m k = Ok (a, k1) -> bind m f k = f a k1.
Proof. intros E. unfold bind. now rewrite E. Qed.

Lemma lift_ok_eq {A} (r : Result A) a k : r = Ok a -> lift r k = Ok (a, k).
Proof. now intros ->. Qed.

Lemma bind_Ok {A B} (m : Lower A) (f : A -> Lower B) k b k' :
  bind m f k = Ok (b, k') ->
  exists a k1, m k = Ok (a, k1) /\ f a k1 = Ok (b, k').
Proof.
  unfold bind. destruct (m k) as [[a k1] |]; [| discriminate].
  intros H. now exists a, k1.
Qed.

Lemma lift_Ok {A} (r : Result A) k a k' :
  lift r k = Ok (a, k') -> r = Ok a /\ k' = k.
Proof. unfold lift. destruct r; [| discriminate]. now intros [= -> ->]. Qed.

Lemma foldM_app {A S} (body : S -> A -> Lower S) xs ys s k :
  foldM body (xs ++ ys) s k
  = match foldM body xs s k with
    | Ok (s', k') => foldM body ys s' k'
    | Fail e => Fail e
    end.
Proof.
  revert s k. induction xs as [| x xs IH]; intros s k; [reflexivity |].
  simpl. unfold bind. destruct (body s x k) as [[s1 k1] |]; [| reflexivity].
  apply IH.
Qed.

Lemma addExpr_imm_total a b k :
  exists r k', SimplifyingIrBuilder.addExpr_imm a b k = Ok (r, k')
               /\ (isInt a = true -> isInt r = true).
Proof.
  unfold SimplifyingIrBuilder.addExpr_imm.
  destruct (b =? 0); [now eexists _, _ |].
  destruct (value a); [now eexists _, _ |].
  destruct (0 <? b); now eexists _, _.
Qed.

Lemma addExpr_Int_total a b k :
  exists r k', SimplifyingIrBuilder.addExpr_Int a b k = Ok (r, k')
               /\ (isInt a = true -> isInt b = true -> isInt r = true).
Proof.
  unfold SimplifyingIrBuilder.addExpr_Int.
  destruct (value a) as [va|].
  - destruct (addExpr_imm_total b va k) as (r & k' & E & I).
    exists r, k'. split; [exact E | intros _; exact I].
  - destruct (value b) as [vb|].
    + destruct (addExpr_imm_total a vb k) as (r & k' & E & I).
      exists r, k'. split; [exact E | intros Ha _; now apply I].
    + now eexists _, _.
Qed.

Lemma addExpr_total a b k :
  exists r k', SimplifyingIrBuilder.addExpr a b k = Ok (r, k').
Proof.
  destruct (addExpr_Int_total a b k) as (r & k' & E & _). now exists r, k'.
Qed.

Lemma subExpr_total a b k :
  exists r k', SimplifyingIrBuilder.subExpr a b k = Ok (r, k').
Proof.
  unfold SimplifyingIrBuilder.subExpr, bind.
  assert (exists nb k1, SimplifyingIrBuilder.negExpr b k = Ok (nb, k1))
    as (nb & k1 & ->).
  { unfold SimplifyingIrBuilder.negExpr. destruct (value b); now eexists _, _. }
  apply addExpr_total.
Qed.

Lemma merge_pos_total info pos other k :
  (pos < 2)%nat ->
  exists info' k', AxisHalo.merge_pos info pos other k = Ok (info', k').
Proof.
  intros Hpos. destruct pos as [| [| pos]]; [| | lia].
  - destruct (merge_pos_0 info other k) as (w & k' & E & _).
    eexists _, _. exact E.
  - destruct (merge_pos_1 info other k) as (w & k' & E & _).
    eexists _, _. exact E.
Qed.

(** A round of the loop that can process its axis succeeds, and leaves the
    state as it was or writes the entry of the producer axis. *)
Lemma propagateRootAxis_total op c2p h ic k :
  propagates op c2p h ic ->
  exists h' k',
    Halo.propagateRootAxis op c2p h ic k = Ok (h', k')
    /\ (h' = h
        \/ exists p_id info,
            c2p !! id_addr (snd ic) = Some p_id
            /\ Halo.setRootAxisInfo h p_id info = Ok h').
Proof.
  destruct ic as [i c_id]. unfold propagates, Halo.propagateRootAxis.
  cbn [snd].
  destruct (c2p !! id_addr c_id) as [p_id|] eqn:Hmap;
    [| intros _; eexists _, _; split; [reflexivity | now left]].
  intros H. destruct (H p_id eq_refl) as (p_info & c_info & Hp & Hc & Hb & Hop).
  destruct (getRootAxisInfo_is_root _ _ _ Hp) as [Rp _].
  rewrite (bind_ok_eq _ _ _ _ _ (lift_ok_eq _ _ k Hp)).
  rewrite (bind_ok_eq _ _ _ _ _ (lift_ok_eq _ _ k Hc)).
  assert (Hwrite : forall (m : Lower AxisHaloInfo) info k0 k1,
             m k0 = Ok (info, k1) ->
             exists h' k',
               (let* p_info := m in
                lift (Halo.setRootAxisInfo h p_id p_info)) k0 = Ok (h', k')
               /\ (h' = h
                   \/ exists p info,
                       Some p_id = Some p
                       /\ Halo.setRootAxisInfo h p info = Ok h')).
  { intros m info k0 k1 E.
    destruct (get_set_RootAxisInfo h p_id info Rp) as (h' & S & _).
    exists h', k1. split.
    - rewrite (bind_ok_eq _ _ _ _ _ E). now apply lift_ok_eq.
    - right. now exists p_id, info. }
  destruct (id_isBroadcast c_id) eqn:Eb.
  - rewrite (Hb eq_refl). simpl assert_that.
    rewrite (bind_ok_eq _ _ k tt k eq_refl).
    destruct (merge_sides p_info c_info k) as (w0 & w1 & k1 & E & _).
    exact (Hwrite _ _ _ _ E).
  - specialize (Hop eq_refl).
    destruct op as [offsets pad | ws pw | tv_op].
    + destruct Hop as (o & Ho & Hmin).
      assert (Hoff : offset offsets i = Ok o) by (unfold offset; now rewrite Ho).
      rewrite (bind_ok_eq _ _ _ _ _ (lift_ok_eq _ _ k Hoff)).
      destruct (o =? 0).
      * destruct (merge_sides p_info c_info k) as (w0 & w1 & k1 & E & _).
        exact (Hwrite _ _ _ _ E).
      * set (pos := if 0 <? o then 0%nat else 1%nat).
        assert (Hpos : (pos < 2)%nat) by (unfold pos; destruct (0 <? o); lia).
        assert (exists cw, AxisHalo.width c_info pos = Ok cw) as [cw Hcw].
        { destruct pos as [| [| pos']]; [now eexists | now eexists | lia]. }
        destruct (addExpr_imm_total cw (Z.abs o) k) as (w & k1 & Ew & _).
        destruct (merge_pos_total p_info pos w k1 Hpos) as (info & k2 & Em).
        apply (Hwrite _ info k k2).
        rewrite (bind_ok_eq _ _ _ _ _ (lift_ok_eq _ _ k Hcw)).
        rewrite (bind_ok_eq _ _ _ _ _ (lift_ok_eq _ _ k (std_abs_ok o Hmin))).
        rewrite (bind_ok_eq _ _ _ _ _ Ew). exact Em.
    + destruct Hop as (w & Hw & Hwin).
      assert (Hat : at_index "windowShape" ws i = Ok w)
        by (unfold at_index; now rewrite Hw).
      rewrite (bind_ok_eq _ _ _ _ _ (lift_ok_eq _ _ k Hat)).
      destruct (isOneInt w) eqn:Eone.
      * destruct (merge_sides p_info c_info k) as (w0 & w1 & k1 & E & _).
        exists h, k1. split; [| now left].
        now rewrite (bind_ok_eq _ _ _ _ _ E).
      * destruct (Hwin eq_refl) as (pad_dim & pad_dim0 & Hpd & Hp0 & Ip).
        assert (Hat1 : at_index "padWidth" pw i = Ok pad_dim)
          by (unfold at_index; now rewrite Hpd).
        assert (Hat2 : at_index "pad_dim" pad_dim 0 = Ok pad_dim0)
          by (unfold at_index; now rewrite Hp0).
        rewrite (bind_ok_eq _ _ _ _ _ (lift_ok_eq _ _ k Hat1)).
        rewrite (bind_ok_eq _ _ _ _ _ (lift_ok_eq _ _ k Hat2)).
        rewrite Ip. simpl assert_that.
        rewrite (bind_ok_eq _ _ k tt k eq_refl).
        destruct (addExpr_Int_total (widths_0 c_info) pad_dim0 k)
          as (w0 & k1 & E0 & _).
        rewrite (bind_ok_eq _ _ _ _ _ E0).
        destruct (merge_pos_0 p_info w0 k1) as (m0 & k2 & E1 & _).
        rewrite (bind_ok_eq _ _ _ _ _ E1).
        destruct (addExpr_total (widths_1 c_info) w k2) as (reach & k3 & E2).
        rewrite (bind_ok_eq _ _ _ _ _ E2).
        destruct (addExpr_imm_total pad_dim0 1 k3) as (cov & k4 & E3 & _).
        rewrite (bind_ok_eq _ _ _ _ _ E3).
        destruct (subExpr_total reach cov k4) as (w1 & k5 & E4).
        rewrite (bind_ok_eq _ _ _ _ _ E4).
        destruct (merge_pos_1 (mkAxisHaloInfo m0 (widths_1 p_info)) w1 k5)
          as (m1 & k6 & E5 & _).
        exact (Hwrite _ _ _ _ E5).
    + destruct (merge_sides p_info c_info k) as (w0 & w1 & k1 & E & _).
      exact (Hwrite _ _ _ _ E).
Qed.

Lemma setRootAxisInfo_frame h p info h' id :
  Halo.setRootAxisInfo h p info = Ok h' ->
  id_addr p <> id_addr id ->
  Halo.getRootAxisInfo h' id = Halo.getRootAxisInfo h id.
Proof.
  unfold Halo.setRootAxisInfo, Halo.getRootAxisInfo.
  destruct (Halo.is_root p); [| discriminate].
  intros [= <-] Hne. simpl. now rewrite lookup_insert_ne.
Qed.

Lemma setRootAxisInfo_keeps h p info h' id x :
  Halo.setRootAxisInfo h p info = Ok h' ->
  Halo.getRootAxisInfo h id = Ok x ->
  exists y, Halo.getRootAxisInfo h' id = Ok y.
Proof.
  intros Hset Hget.
  destruct (decide (id_addr p = id_addr id)) as [Heq | Hne].
  - apply getRootAxisInfo_is_root in Hget as [Rid _].
    unfold Halo.setRootAxisInfo in Hset.
    destruct (Halo.is_root p); [| discriminate]. injection Hset as <-.
    exists info. unfold Halo.getRootAxisInfo. rewrite Rid. simpl.
    now rewrite Heq, lookup_insert_eq.
  - exists x. now rewrite (setRootAxisInfo_frame _ _ _ _ _ Hset Hne).
Qed.

Lemma propagates_preserved op c2p h h' p info ic :
  Halo.setRootAxisInfo h p info = Ok h' ->
  id_addr p <> id_addr (snd ic) ->
  propagates op c2p h ic -> propagates op c2p h' ic.
Proof.
  destruct ic as [j c]. simpl. intros Hset Hne H p_id Hmap.
  destruct (H p_id Hmap) as (p_info & c_info & Hp & Hc & Hrest).
  destruct (setRootAxisInfo_keeps _ _ _ _ _ _ Hset Hp) as [p_info' Hp'].
  exists p_info', c_info. split; [exact Hp' |].
  split; [| exact Hrest].
  now rewrite (setRootAxisInfo_frame _ _ _ _ _ Hset Hne).
Qed.

(** The loop over axes it can process succeeds; it leaves alone the entries
    of the axes that are no producer axis of a visited axis. *)
Lemma propagate_loop_total op c2p axes :
  forall h k,
    (forall ic, In ic axes -> propagates op c2p h ic) ->
    (forall ic ic' p,
        In ic axes -> In ic' axes -> c2p !! id_addr (snd ic') = Some p ->
        id_addr p <> id_addr (snd ic)) ->
    exists h' k',
      foldM (Halo.propagateRootAxis op c2p) axes h k = Ok (h', k')
      /\ (forall id,
            (forall ic p, In ic axes -> c2p !! id_addr (snd ic) = Some p ->
                          id_addr p <> id_addr id) ->
            Halo.getRootAxisInfo h' id = Halo.getRootAxisInfo h id)
      /\ (forall ic,
            (forall ic' p, In ic' axes -> c2p !! id_addr (snd ic') = Some p ->
                           id_addr p <> id_addr (snd ic)) ->
            propagates op c2p h ic -> propagates op c2p h' ic).
Proof.
  induction axes as [| ic0 axes IH]; intros h k Hall Hapart.
  - exists h, k. repeat split; auto.
  - destruct (propagateRootAxis_total op c2p h ic0 k (Hall ic0 (or_introl eq_refl)))
      as (h1 & k1 & Hstep & Hshape).
    assert (Hkeep : forall ic,
               (forall p, c2p !! id_addr (snd ic0) = Some p ->
                          id_addr p <> id_addr (snd ic)) ->
               propagates op c2p h ic -> propagates op c2p h1 ic).
    { intros ic Hne Hic. destruct Hshape as [-> | (p & info & Hmap & Hset)];
        [exact Hic |].
      exact (propagates_preserved _ _ _ _ _ _ _ Hset (Hne p Hmap) Hic). }
    assert (Hframe : forall id,
               (forall p, c2p !! id_addr (snd ic0) = Some p ->
                          id_addr p <> id_addr id) ->
               Halo.getRootAxisInfo h1 id = Halo.getRootAxisInfo h id).
    { intros id Hne. destruct Hshape as [-> | (p & info & Hmap & Hset)];
        [reflexivity |].
      exact (setRootAxisInfo_frame _ _ _ _ _ Hset (Hne p Hmap)). }
    destruct (IH h1 k1) as (h' & k' & Hloop & Hframe' & Hkeep').
    { intros ic Hin. apply Hkeep; [| apply Hall; now right].
      intros p Hmap. apply (Hapart ic ic0 p); [now right | now left | exact Hmap]. }
    { intros ic ic' p Hin Hin' Hmap.
      apply (Hapart ic ic' p); [now right | now right | exact Hmap]. }
    exists h', k'. split; [| split].
    + cbn [foldM]. now rewrite (bind_ok_eq _ _ _ _ _ Hstep).
    + intros id Hne. rewrite Hframe'.
      * apply Hframe. intros p Hmap. apply (Hne ic0 p); [now left | exact Hmap].
      * intros ic p Hin Hmap. apply (Hne ic p); [now right | exact Hmap].
    + intros ic Hne Hic. apply Hkeep'.
      * intros ic' p Hin Hmap. apply (Hne ic' p); [now right | exact Hmap].
      * apply Hkeep; [| exact Hic].
        intros p Hmap. apply (Hne ic0 p); [now left | exact Hmap].
Qed.

Lemma indexed_from_app {A} (pre : list A) x post n :
  combine (seq n (length (pre ++ x :: post))) (pre ++ x :: post)
  = combine (seq n (length pre)) pre
    ++ ((n + length pre)%nat, x)
       :: combine (seq (S (n + length pre)) (length post)) post.
Proof.
  revert n. induction pre as [| y pre IH]; intros n; simpl.
  - now rewrite Nat.add_0_r.
  - f_equal. rewrite IH. now rewrite <- Nat.add_succ_comm.
Qed.

(** The loop visits consumer axis [i] in a state [h1] in which that axis and
    its producer axis have their entries of the start, and no later round
    touches the entry of the producer axis. *)
Lemma propagate_loop_visit op c2p c_root i c_id p_id h k :
  c_root !! i = Some c_id ->
  c2p !! id_addr c_id = Some p_id ->
  (forall ic, In ic (indexed c_root) -> propagates op c2p h ic) ->
  consumers_apart c2p c_root ->
  only_consumer_of c2p c_root i p_id ->
  exists h1 k1 h2 k2 h' k',
    Halo.getRootAxisInfo h1 c_id = Halo.getRootAxisInfo h c_id
    /\ Halo.getRootAxisInfo h1 p_id = Halo.getRootAxisInfo h p_id
    /\ Halo.propagateRootAxis op c2p h1 (i, c_id) k1 = Ok (h2, k2)
    /\ foldM (Halo.propagateRootAxis op c2p) (indexed c_root) h k
       = Ok (h', k')
    /\ Halo.getRootAxisInfo h' p_id = Halo.getRootAxisInfo h2 p_id.
Proof.
  intros Hi Hmap Hall Hapart Honly.
  assert (Hsplit := take_drop_middle c_root i c_id Hi).
  assert (Hlen : length (take i c_root) = i).
  { apply length_take_le. apply lookup_lt_Some in Hi. lia. }
  set (pre := take i c_root) in *. set (post := drop (S i) c_root) in *.
  assert (Hidx : indexed c_root
                 = combine (seq 0 (length pre)) pre
                   ++ (i, c_id) :: combine (seq (S i) (length post)) post).
  { unfold indexed. rewrite <- Hsplit at 1 2.
    rewrite indexed_from_app. now rewrite Hlen. }
  assert (Hin_root : forall j c, In (j, c) (indexed c_root) -> c ∈ c_root).
  { intros j c Hin. apply In_indexed in Hin.
    apply list_elem_of_lookup. now exists j. }
  assert (Hapart' : forall ic ic' p,
             In ic (indexed c_root) -> In ic' (indexed c_root) ->
             c2p !! id_addr (snd ic') = Some p ->
             id_addr p <> id_addr (snd ic)).
  { intros [j c] [j' c'] p Hin Hin' Hp. simpl in *.
    exact (Hapart c c' p (Hin_root _ _ Hin) (Hin_root _ _ Hin') Hp). }
  assert (Hother : forall j c p,
             In (j, c) (indexed c_root) -> j <> i ->
             c2p !! id_addr c = Some p ->
             id_addr p <> id_addr p_id /\ id_addr p <> id_addr c_id).
  { intros j c p Hin Hne Hp. split.
    - apply In_indexed in Hin. exact (Honly j c p Hin Hne Hp).
    - apply (Hapart c_id c p); [| exact (Hin_root _ _ Hin) | exact Hp].
      apply list_elem_of_lookup. now exists i. }
  assert (Hpre_in : forall ic, In ic (combine (seq 0 (length pre)) pre) ->
                               In ic (indexed c_root) /\ fst ic <> i).
  { intros [j c] Hin. split.
    - rewrite Hidx. apply in_or_app. now left.
    - apply In_indexed_from in Hin as [_ Hl]. apply lookup_lt_Some in Hl.
      simpl. lia. }
  assert (Hpost_in : forall ic, In ic (combine (seq (S i) (length post)) post) ->
                                In ic (indexed c_root) /\ fst ic <> i).
  { intros [j c] Hin. split.
    - rewrite Hidx. apply in_or_app. right. now right.
    - apply In_indexed_from in Hin as [Hle _]. simpl. lia. }
  assert (Hi_in : In (i, c_id) (indexed c_root)).
  { rewrite Hidx. apply in_or_app. right. now left. }
  destruct (propagate_loop_total op c2p (combine (seq 0 (length pre)) pre) h k)
    as (h1 & k1 & Hloop1 & Hframe1 & Hkeep1).
  { intros ic Hin. apply Hall. now apply Hpre_in. }
  { intros ic ic' p Hin Hin'.
    apply Hapart'; [now apply Hpre_in | now apply Hpre_in]. }
  assert (Hnot_written1 : forall ic,
             In ic (indexed c_root) ->
             forall ic' p, In ic' (combine (seq 0 (length pre)) pre) ->
                           c2p !! id_addr (snd ic') = Some p ->
                           id_addr p <> id_addr (snd ic)).
  { intros ic Hin ic' p Hin'. apply Hapart'; [exact Hin | now apply Hpre_in]. }
  destruct (propagateRootAxis_total op c2p h1 (i, c_id) k1)
    as (h2 & k2 & Hstep & Hshape).
  { apply Hkeep1; [now apply Hnot_written1 | now apply Hall]. }
  destruct (propagate_loop_total op c2p
              (combine (seq (S i) (length post)) post) h2 k2)
    as (h' & k' & Hloop2 & Hframe2 & _).
  { intros ic Hin. destruct (Hpost_in ic Hin) as [Hin_root' _].
    assert (Hic1 : propagates op c2p h1 ic).
    { apply Hkeep1; [now apply Hnot_written1 | now apply Hall]. }
    destruct Hshape as [-> | (p & info & Hp & Hset)]; [exact Hic1 |].
    apply (propagates_preserved _ _ _ _ _ _ _ Hset); [| exact Hic1].
    exact (Hapart' ic (i, c_id) p Hin_root' Hi_in Hp). }
  { intros ic ic' p Hin Hin'.
    apply Hapart'; [now apply Hpost_in | now apply Hpost_in]. }
  exists h1, k1, h2, k2, h', k'. repeat split.
  - apply Hframe1. intros [j c] p Hin Hp.
    destruct (Hpre_in _ Hin) as [Hin' Hj]. exact (proj2 (Hother j c p Hin' Hj Hp)).
  - apply Hframe1. intros [j c] p Hin Hp.
    destruct (Hpre_in _ Hin) as [Hin' Hj]. exact (proj1 (Hother j c p Hin' Hj Hp)).
  - exact Hstep.
  - rewrite Hidx, foldM_app, Hloop1. cbn [foldM].
    now rewrite (bind_ok_eq _ _ _ _ _ Hstep).
  - apply Hframe2. intros [j c] p Hin Hp.
    destruct (Hpost_in _ Hin) as [Hin' Hj]. exact (proj1 (Hother j c p Hin' Hj Hp)).
Qed.

Lemma propagate_fusion_input g h producer consumer expr k :
  tv_isFusionInput producer = true ->
  Halo.propagateRootAxisInfo_pc g h producer consumer expr k = Ok (h, k).
Proof. intros H. unfold Halo.propagateRootAxisInfo_pc. now rewrite H. Qed.

(** C1 (amended). Let the producer be no fusion input, and let consumer root
    axis [i] be mapped to a producer axis that no other consumer axis is
    mapped to, be no broadcast, and be shifted by [o], an [int] other than
    [INT_MIN] (whose absolute value is not defined). When neither the
    consumer axis nor the producer axis carries halo yet,
    [propagateRootAxisInfo] records for the producer axis the low width
    [max(o,0)] and the high width [max(-o,0)]; and when [o = 0] it records
    the merge of the consumer's halo into the producer's. (The consumer's
    root axes are such that the loop can process them.) *)
Theorem shift_halo_propagation
    (g : GpuLower) (h : HaloInfo) (producer consumer : TensorView)
    (expr : Expr) (offsets : list Z) (pad : bool) (i : nat)
    (c_id p_id : IterDomain) (c_info p_info : AxisHaloInfo) (o : Z)
    (k : Kernel) :
  tv_isFusionInput producer = false ->
  expr_op expr = ShiftOp offsets pad ->
  td_root (tv_domain consumer) !! i = Some c_id ->
  mapConsumerToProducer g producer consumer !! id_addr c_id = Some p_id ->
  offsets !! i = Some o ->
  INT_MIN < o <= INT_MAX ->
  id_isBroadcast c_id = false ->
  Halo.getRootAxisInfo h c_id = Ok c_info ->
  Halo.getRootAxisInfo h p_id = Ok p_info ->
  (forall ic, In ic (indexed (td_root (tv_domain consumer))) ->
              propagates (expr_op expr)
                         (mapConsumerToProducer g producer consumer) h ic) ->
  consumers_apart (mapConsumerToProducer g producer consumer)
                  (td_root (tv_domain consumer)) ->
  only_consumer_of (mapConsumerToProducer g producer consumer)
                   (td_root (tv_domain consumer)) i p_id ->
  (zero_halo c_info -> zero_halo p_info ->
   exists h' k' info',
     Halo.propagateRootAxisInfo_pc g h producer consumer expr k = Ok (h', k')
     /\ Halo.getRootAxisInfo h' p_id = Ok info'
     /\ value (widths_0 info') = Some (Z.max o 0)
     /\ value (widths_1 info') = Some (Z.max (- o) 0))
  /\ (o = 0 ->
      exists k1 merged k2 h' k',
        AxisHalo.merge p_info c_info k1 = Ok (merged, k2)
        /\ Halo.propagateRootAxisInfo_pc g h producer consumer expr k
           = Ok (h', k')
        /\ Halo.getRootAxisInfo h' p_id = Ok merged).
Proof.
  intros Hinput Hop Hi Hmap Hoff Hint Hb Hc Hp Hall Hapart Honly.
  unfold Halo.propagateRootAxisInfo_pc. rewrite Hinput.
  destruct (propagate_loop_visit _ _ _ _ _ _ h k Hi Hmap Hall Hapart Honly)
    as (h1 & k1 & h2 & k2 & h' & k' & Hc1 & Hp1 & Hstep & Hloop & Hfinal).
  rewrite Hc in Hc1. rewrite Hp in Hp1. rewrite Hop in Hstep.
  destruct (shift_axis_halo offsets pad _ h1 i c_id p_id c_info p_info o k1
              Hmap Hoff Hb Hc1 Hp1 Hint) as [Hexact Hzero].
  split.
  - intros Zc Zp.
    destruct (Hexact Zc Zp) as (h2' & k2' & info' & Hstep' & Hget & Hw).
    rewrite Hstep in Hstep'. injection Hstep' as <- <-.
    exists h', k', info'. split; [exact Hloop |].
    split; [now rewrite Hfinal | exact Hw].
  - intros Ho.
    destruct (Hzero Ho) as (merged & h2' & k2' & Hmerge & Hstep' & Hget).
    rewrite Hstep in Hstep'. injection Hstep' as <- <-.
    exists k1, merged, k2, h', k'. split; [exact Hmerge |].
    split; [exact Hloop | now rewrite Hfinal].
Qed.

(** The consumer of a one-dimensional sample fusion can be processed. *)
Lemma sample_consumer_processed op consumer_axis producer_axis :
  id_addr producer_axis <> id_addr consumer_axis ->
  (exists p_info, Halo.getRootAxisInfo Sample.blank producer_axis = Ok p_info) ->
  (exists c_info,
      Halo.getRootAxisInfo Sample.blank consumer_axis = Ok c_info
      /\ AxisHalo.hasHalo c_info = false) ->
  id_isBroadcast consumer_axis = false ->
  match op with
  | ShiftOp offsets _ => exists o, offsets !! 0%nat = Some o /\ o <> INT_MIN
  | GatherOp ws pw =>
      exists w pad0 pads, ws !! 0%nat = Some w
                          /\ pw !! 0%nat = Some (pad0 :: pads)
                          /\ isInt pad0 = true
  | OtherOp _ => True
  end ->
  (forall ic, In ic (indexed [consumer_axis]) ->
              propagates op {[ id_addr consumer_axis := producer_axis ]}
                         Sample.blank ic)
  /\ consumers_apart {[ id_addr consumer_axis := producer_axis ]}
                     [consumer_axis]
  /\ only_consumer_of {[ id_addr consumer_axis := producer_axis ]}
                      [consumer_axis] 0 producer_axis.
Proof.
  intros Hne [p_info Hp] (c_info & Hc & Hh) Hb Hop.
  split; [| split].
  - intros ic [<- | []] p_id Hmap.
    simpl in Hmap. rewrite lookup_singleton_eq in Hmap. injection Hmap as <-.
    exists p_info, c_info. split; [exact Hp |]. split; [exact Hc |].
    split; [intros _; exact Hh |]. intros _.
    destruct op as [offsets pad | ws pw | tv_op]; [exact Hop | | exact I].
    destruct Hop as (w & pad0 & pads & Hw & Hpw & Ip).
    exists w. split; [exact Hw |]. intros _.
    now exists (pad0 :: pads), pad0.
  - intros c c' p Hc0 Hc0' Hmap.
    apply list_elem_of_singleton in Hc0, Hc0'. subst c c'.
    rewrite lookup_singleton_eq in Hmap. injection Hmap as <-. exact Hne.
  - intros j c p Hj Hne0 Hmap. destruct j as [| j]; [congruence |].
    discriminate.
Qed.

Lemma shift_halo_propagation_witness :
  exists h' k' info',
    Halo.propagateRootAxisInfo_pc Sample.lower Sample.blank Sample.T1
      Sample.T2 (Sample.unary (ShiftOp [-3] true) Sample.T1 Sample.T2)
      50%positive = Ok (h', k')
    /\ Halo.getRootAxisInfo h' (Sample.axis 2 false) = Ok info'
    /\ value (widths_0 info') = Some (Z.max (-3) 0)
    /\ value (widths_1 info') = Some (Z.max (- -3) 0).
Proof.
  assert (Hc : Halo.getRootAxisInfo Sample.blank (Sample.axis 3 false)
               = Ok (mkAxisHaloInfo (IntConst 14 0) (IntConst 15 0)))
    by (vm_compute; reflexivity).
  assert (Hp : Halo.getRootAxisInfo Sample.blank (Sample.axis 2 false)
               = Ok (mkAxisHaloInfo (IntConst 12 0) (IntConst 13 0)))
    by (vm_compute; reflexivity).
  destruct (sample_consumer_processed (ShiftOp [-3] true)
              (Sample.axis 3 false) (Sample.axis 2 false))
    as (Hall & Hapart & Honly).
  { vm_compute. discriminate. }
  { eexists. exact Hp. }
  { eexists. split; [exact Hc | reflexivity]. }
  { reflexivity. }
  { exists (-3). split; [reflexivity | discriminate]. }
  assert (Hint : INT_MIN < -3 <= INT_MAX) by (vm_compute; split; congruence).
  apply (proj1 (shift_halo_propagation Sample.lower Sample.blank Sample.T1
                  Sample.T2
                  (Sample.unary (ShiftOp [-3] true) Sample.T1 Sample.T2)
                  [-3] true 0 (Sample.axis 3 false) (Sample.axis 2 false)
                  _ _ (-3) 50%positive eq_refl eq_refl eq_refl
                  (lookup_singleton_eq _ _) eq_refl Hint eq_refl Hc Hp
                  Hall Hapart Honly)).
  - split; reflexivity.
  - split; reflexivity.
Defined.

(** C1 as stated fails. In [T2 = shift(T1, {2}); T3 = shift(T1, {5})] the
    consumer [T2] of the shift by 2 carries no halo and [T1] is no fusion
    input, yet the low width of [T1] is 5, the maximum over its consumers.
    And a shift by 2 of a broadcast axis leaves the producer without halo. *)
Lemma shift_halo_counterexample :
  (exists h, Sample.analysed Sample.two_shifts = Ok h
     /\ tv_isFusionInput Sample.T1 = false
     /\ Sample.root_halo h Sample.T2 = Some (0, 0)
     /\ Sample.root_halo h Sample.T1 = Some (5, 0)
     /\ Sample.root_halo h Sample.T1 <> Some (Z.max 2 0, Z.max (- 2) 0))
  /\ (exists h, Sample.analysed Sample.shift_broadcast = Ok h
       /\ tv_isFusionInput Sample.T1 = false
       /\ Sample.root_halo h Sample.T2b = Some (0, 0)
       /\ Sample.root_halo h Sample.T1 = Some (0, 0)
       /\ Sample.root_halo h Sample.T1 <> Some (Z.max 2 0, Z.max (- 2) 0)).
Proof.
  split.
  - eexists. split; [vm_compute; reflexivity |].
    repeat split; try (vm_compute; reflexivity). vm_compute. discriminate.
  - eexists. split; [vm_compute; reflexivity |].
    repeat split; try (vm_compute; reflexivity). vm_compute. discriminate.
Qed.

(** ** Backward propagation: gather *)

(** The loop body at a mapped, non-broadcast axis of a gather. *)
Lemma propagateRootAxis_gather ws pw c2p h i c_id p_id c_info p_info
      window_dim k :
  c2p !! id_addr c_id = Some p_id ->
  ws !! i = Some window_dim ->
  id_isBroadcast c_id = false ->
  Halo.getRootAxisInfo h c_id = Ok c_info ->
  Halo.getRootAxisInfo h p_id = Ok p_info ->
  Halo.propagateRootAxis (GatherOp ws pw) c2p h (i, c_id) k
  = (if isOneInt window_dim then
       let* _ := AxisHalo.merge p_info c_info in ret h
     else
       let* pad_dim := lift (at_index "padWidth" pw i) in
       let* pad_dim0 := lift (at_index "pad_dim" pad_dim 0) in
       assert_that (isInt pad_dim0) "pad_dim[0] is a kir::Int";;
       let* w0 :=
         SimplifyingIrBuilder.addExpr_Int (widths_0 c_info) pad_dim0 in
       let* p_info := AxisHalo.merge_pos p_info 0 w0 in
       let* reach :=
         SimplifyingIrBuilder.addExpr (widths_1 c_info) window_dim in
       let* covered := SimplifyingIrBuilder.addExpr_imm pad_dim0 1 in
       let* w1 := SimplifyingIrBuilder.subExpr reach covered in
       let* p_info := AxisHalo.merge_pos p_info 1 w1 in
       lift (Halo.setRootAxisInfo h p_id p_info)) k.
Proof.
  intros Hmap Hw Hb Hc Hp.
  unfold Halo.propagateRootAxis. rewrite Hmap.
  unfold bind at 1. unfold lift at 1. rewrite Hp.
  unfold bind at 1. unfold lift at 1. rewrite Hc. rewrite Hb.
  unfold bind at 1. unfold lift at 1. unfold at_index at 1. rewrite Hw.
  reflexivity.
Qed.

Lemma value_inv w v : value w = Some v -> exists a, w = IntConst a v.
Proof. destruct w; simpl; try discriminate. intros [= ->]. now eexists. Qed.

(** At a consumer root axis that is mapped to a producer axis, is not a
    broadcast and is gathered, one round of the loop records the padding and
    the rest of the window when neither axis carries halo yet, and leaves the
    state as it is when the window is a known one. *)
Lemma gather_axis_halo
    (windowShape : list Val) (padWidth : list (list Val))
    (c2p : gmap addr IterDomain) (h : HaloInfo) (i : nat)
    (c_id p_id : IterDomain) (c_info p_info : AxisHaloInfo)
    (window_dim : Val) (k : Kernel) :
  c2p !! id_addr c_id = Some p_id ->
  windowShape !! i = Some window_dim ->
  id_isBroadcast c_id = false ->
  Halo.getRootAxisInfo h c_id = Ok c_info ->
  Halo.getRootAxisInfo h p_id = Ok p_info ->
  zero_halo c_info ->
  (forall pad_dim pad_dim0 w p,
      padWidth !! i = Some pad_dim -> pad_dim !! 0%nat = Some pad_dim0 ->
      value window_dim = Some w -> value pad_dim0 = Some p ->
      1 < w -> 0 <= p < w -> zero_halo p_info ->
      exists h' k' info',
        Halo.propagateRootAxis (GatherOp windowShape padWidth) c2p h
                               (i, c_id) k = Ok (h', k')
        /\ Halo.getRootAxisInfo h' p_id = Ok info'
        /\ value (widths_0 info') = Some p
        /\ value (widths_1 info') = Some (w - p - 1))
  /\ (isOneInt window_dim = true ->
      exists k',
        Halo.propagateRootAxis (GatherOp windowShape padWidth) c2p h
                               (i, c_id) k = Ok (h, k')
        /\ Halo.getRootAxisInfo h p_id = Ok p_info).
Proof.
  intros Hmap Hw Hb Hc Hp Zc.
  destruct (getRootAxisInfo_is_root _ _ _ Hp) as [Rp _].
  rewrite (propagateRootAxis_gather _ padWidth _ _ _ _ _ _ _ _ k
             Hmap Hw Hb Hc Hp).
  split.
  - intros pad_dim pad_dim0 w p Hpd Hp0 Vw Vp Hw1 Hpw Zp.
    apply zero_halo_inv in Zc as (c0 & c1 & ->).
    apply zero_halo_inv in Zp as (p0 & p1 & ->).
    apply value_inv in Vw as [aw ->]. apply value_inv in Vp as [ap ->].
    assert (isOneInt (IntConst aw w) = false) as ->
        by (simpl; apply Z.eqb_neq; lia).
    unfold bind, lift, ret, at_index, Halo.setRootAxisInfo.
    rewrite Hpd, Hp0, Rp. cbn. rewrite addExpr_imm_const by lia. cbn.
    eexists _, _, _. split; [reflexivity |].
    unfold Halo.getRootAxisInfo. rewrite Rp. cbn. rewrite lookup_insert_eq.
    split; [reflexivity |]. cbn. split; f_equal; lia.
  - intros One. rewrite One.
    destruct (merge_sides p_info c_info k) as (w0 & w1 & k1 & E & _).
    exists k1. split; [| exact Hp].
    unfold bind, ret. now rewrite E.
Qed.

(** C2 (amended). Let the producer be no fusion input, and let consumer root
    axis [i] be mapped to a producer axis that no other consumer axis is
    mapped to, be no broadcast, and be gathered with a constant window
    [w > 1] and a constant left padding [p], [0 <= p < w]. When neither the
    consumer axis nor the producer axis carries halo yet,
    [propagateRootAxisInfo] records for the producer axis the low width [p]
    and the high width [w - p - 1]. When the window is a known one and the
    consumer axis carries no halo, the producer's entry stays as it is. (The
    consumer's root axes are such that the loop can process them.) *)
Theorem gather_halo_propagation
    (g : GpuLower) (h : HaloInfo) (producer consumer : TensorView)
    (expr : Expr) (windowShape : list Val) (padWidth : list (list Val))
    (i : nat) (c_id p_id : IterDomain) (c_info p_info : AxisHaloInfo)
    (window_dim : Val) (k : Kernel) :
  tv_isFusionInput producer = false ->
  expr_op expr = GatherOp windowShape padWidth ->
  td_root (tv_domain consumer) !! i = Some c_id ->
  mapConsumerToProducer g producer consumer !! id_addr c_id = Some p_id ->
  windowShape !! i = Some window_dim ->
  id_isBroadcast c_id = false ->
  Halo.getRootAxisInfo h c_id = Ok c_info ->
  Halo.getRootAxisInfo h p_id = Ok p_info ->
  zero_halo c_info ->
  (forall ic, In ic (indexed (td_root (tv_domain consumer))) ->
              propagates (expr_op expr)
                         (mapConsumerToProducer g producer consumer) h ic) ->
  consumers_apart (mapConsumerToProducer g producer consumer)
                  (td_root (tv_domain consumer)) ->
  only_consumer_of (mapConsumerToProducer g producer consumer)
                   (td_root (tv_domain consumer)) i p_id ->
  (forall pad_dim pad_dim0 w p,
      padWidth !! i = Some pad_dim -> pad_dim !! 0%nat = Some pad_dim0 ->
      value window_dim = Some w -> value pad_dim0 = Some p ->
      1 < w -> 0 <= p < w -> zero_halo p_info ->
      exists h' k' info',
        Halo.propagateRootAxisInfo_pc g h producer consumer expr k
        = Ok (h', k')
        /\ Halo.getRootAxisInfo h' p_id = Ok info'
        /\ value (widths_0 info') = Some p
        /\ value (widths_1 info') = Some (w - p - 1))
  /\ (isOneInt window_dim = true ->
      exists h' k',
        Halo.propagateRootAxisInfo_pc g h producer consumer expr k
        = Ok (h', k')
        /\ Halo.getRootAxisInfo h' p_id = Ok p_info).
Proof.
  intros Hinput Hop Hi Hmap Hw Hb Hc Hp Zc Hall Hapart Honly.
  unfold Halo.propagateRootAxisInfo_pc. rewrite Hinput.
  destruct (propagate_loop_visit _ _ _ _ _ _ h k Hi Hmap Hall Hapart Honly)
    as (h1 & k1 & h2 & k2 & h' & k' & Hc1 & Hp1 & Hstep & Hloop & Hfinal).
  rewrite Hc in Hc1. rewrite Hp in Hp1. rewrite Hop in Hstep.
  destruct (gather_axis_halo windowShape padWidth _ h1 i c_id p_id c_info
              p_info window_dim k1 Hmap Hw Hb Hc1 Hp1 Zc) as [Hexact Hone].
  split.
  - intros pad_dim pad_dim0 w p Hpd Hp0 Vw Vp Hw1 Hpw Zp.
    destruct (Hexact pad_dim pad_dim0 w p Hpd Hp0 Vw Vp Hw1 Hpw Zp)
      as (h2' & k2' & info' & Hstep' & Hget & Hval).
    rewrite Hstep in Hstep'. injection Hstep' as <- <-.
    exists h', k', info'. split; [exact Hloop |].
    split; [now rewrite Hfinal | exact Hval].
  - intros One.
    destruct (Hone One) as (k2' & Hstep' & Hget).
    rewrite Hstep in Hstep'. injection Hstep' as <- <-.
    exists h', k'. split; [exact Hloop | now rewrite Hfinal].
Qed.

Lemma gather_halo_propagation_witness :
  exists h' k' info',
    Halo.propagateRootAxisInfo_pc Sample.lower Sample.blank Sample.T1
      Sample.T2 (Sample.unary Sample.gather3 Sample.T1 Sample.T2)
      50%positive = Ok (h', k')
    /\ Halo.getRootAxisInfo h' (Sample.axis 2 false) = Ok info'
    /\ value (widths_0 info') = Some 1
    /\ value (widths_1 info') = Some (3 - 1 - 1).
Proof.
  assert (Hc : Halo.getRootAxisInfo Sample.blank (Sample.axis 3 false)
               = Ok (mkAxisHaloInfo (IntConst 14 0) (IntConst 15 0)))
    by (vm_compute; reflexivity).
  assert (Hp : Halo.getRootAxisInfo Sample.blank (Sample.axis 2 false)
               = Ok (mkAxisHaloInfo (IntConst 12 0) (IntConst 13 0)))
    by (vm_compute; reflexivity).
  assert (Zc : zero_halo (mkAxisHaloInfo (IntConst 14 0) (IntConst 15 0)))
    by (split; reflexivity).
  destruct (sample_consumer_processed Sample.gather3
              (Sample.axis 3 false) (Sample.axis 2 false))
    as (Hall & Hapart & Honly).
  { vm_compute. discriminate. }
  { eexists. exact Hp. }
  { eexists. split; [exact Hc | reflexivity]. }
  { reflexivity. }
  { eexists _, _, _. repeat split; reflexivity. }
  apply (proj1 (gather_halo_propagation Sample.lower Sample.blank Sample.T1
                  Sample.T2 (Sample.unary Sample.gather3 Sample.T1 Sample.T2)
                  [IntConst 103 3] [[IntConst 104 1; IntConst 105 1]]
                  0 (Sample.axis 3 false) (Sample.axis 2 false) _ _
                  (IntConst 103 3) 50%positive eq_refl eq_refl eq_refl
                  (lookup_singleton_eq _ _) eq_refl eq_refl Hc Hp Zc
                  Hall Hapart Honly)
               [IntConst 104 1; IntConst 105 1] (IntConst 104 1) 3 1
               eq_refl eq_refl eq_refl eq_refl).
  - lia.
  - lia.
  - split; reflexivity.
Defined.

(** C2 as stated fails. In [T2 = gather(T1, {3}, {{1, 1}}); T3 = shift(T1,
    {5})] the gather output carries no halo and [T1] is no fusion input, yet
    the low width of [T1] is 5 and not the padding 1. *)
Lemma gather_halo_counterexample :
  exists h, Sample.analysed Sample.gather_and_shift = Ok h
    /\ tv_isFusionInput Sample.T1 = false
    /\ Sample.root_halo h Sample.T2g = Some (0, 0)
    /\ Sample.root_halo h Sample.T1 = Some (5, 1)
    /\ Sample.root_halo h Sample.T1 <> Some (1, 3 - 1 - 1).
Proof.
  eexists. split; [vm_compute; reflexivity |].
  repeat split; try (vm_compute; reflexivity). vm_compute. discriminate.
Qed.

(** A gather axis with a window of one leaves the loop body by [continue],
    before the merged copy of the producer's entry is written back: halo of
    the gather output does not reach the producer, where the same halo on the
    output of a pointwise operation does. *)
Remark unit_window_gather_drops_the_merge :
  (exists h, Sample.analysed Sample.unit_gather_then_shift = Ok h
     /\ Sample.root_halo h Sample.T2u = Some (2, 0)
     /\ Sample.root_halo h Sample.T1 = Some (0, 0))
  /\ (exists h, Sample.analysed Sample.pointwise_then_shift = Ok h
       /\ Sample.root_halo h Sample.T2 = Some (2, 0)
       /\ Sample.root_halo h Sample.T1 = Some (2, 0)).
Proof.
  split; eexists; (split; [vm_compute; reflexivity |]);
    split; vm_compute; reflexivity.
Qed.

(** ** Forward propagation through a split *)

Lemma insert_new_lookup_eq {V} k (v : V) m :
  m !! k = None -> insert_new k v m !! k = Some v.
Proof. intros H. unfold insert_new. rewrite H. apply lookup_insert_eq. Qed.

Lemma insert_new_lookup_ne {V} k k' (v : V) m :
  k <> k' -> insert_new k v m !! k' = m !! k'.
Proof.
  intros H. unfold insert_new. destruct (m !! k); [reflexivity |].
  now apply lookup_insert_ne.
Qed.



Lemma eval_addExpr a b k env :
  exists e, IrBuilder.addExpr a b k = Ok (e, Pos.succ k)
    /\ definition e = BinaryOp Add a b
    /\ eval env e = match eval env a, eval env b with
                    | Some x, Some y => Some (x + y)
                    | _, _ => None
                    end.
Proof. eexists. split; [reflexivity |]. split; reflexivity. Qed.











(** ** The extent comparator *)

Lemma hasHaloWidth_true h id w :
  halo_width_map_ h !! id_addr id = Some w -> Halo.hasHaloWidth h id = true.
Proof.
  intros H. unfold Halo.hasHaloWidth. apply bool_decide_eq_true_2.
  rewrite H. now eexists.
Qed.

Lemma hasHaloWidth_false h id :
  halo_width_map_ h !! id_addr id = None -> Halo.hasHaloWidth h id = false.
Proof.
  intros H. unfold Halo.hasHaloWidth. apply bool_decide_eq_false_2.
  rewrite H. intros [? ?]. discriminate.
Qed.

(** Two axes with recorded halo widths are compared by their widths. *)
Lemma extentCompare_widths g h cmp id1 id2 w1 w2 :
  areMapped g id1 id2 = true ->
  halo_width_map_ h !! id_addr id1 = Some w1 ->
  halo_width_map_ h !! id_addr id2 = Some w2 ->
  Halo.extentCompare g h cmp id1 id2 = cmp w1 w2.
Proof.
  intros Hm H1 H2. destruct id1; simpl in *.
  rewrite Hm. simpl.
  rewrite (hasHaloWidth_true h _ w1) by exact H1.
  rewrite (hasHaloWidth_true h _ w2) by exact H2. simpl.
  unfold Halo.getHaloWidth. simpl. now rewrite H1, H2.
Qed.

(** Unless the axes are loop-mapped, the comparison fails. *)
Lemma extentCompare_unmapped g h cmp id1 id2 :
  areMapped g id1 id2 = false ->
  exists e, Halo.extentCompare g h cmp id1 id2 = Fail e.
Proof. intros Hm. destruct id1; simpl. rewrite Hm. simpl. now eexists. Qed.

Lemma cmp_equal_same x y :
  same_ptr x y = true -> Halo.cmp_equal x y = Ok true.
Proof. intros H. destruct x; simpl; now rewrite H. Qed.

Lemma cmp_equal_const x y v :
  value x = Some v -> value y = Some v -> Halo.cmp_equal x y = Ok true.
Proof.
  intros Hx Hy. destruct x; try discriminate. simpl in *.
  injection Hx as ->. rewrite Hy, Z.eqb_refl.
  now destruct (same_ptr _ _).
Qed.

Lemma cmp_equal_differ x y v1 v2 :
  value x = Some v1 -> value y = Some v2 -> v1 <> v2 ->
  (val_addr x = val_addr y -> x = y) ->
  Halo.cmp_equal x y = Ok false.
Proof.
  intros Hx Hy Hne Hheap. destruct x; try discriminate. simpl in *.
  injection Hx as ->. rewrite Hy.
  apply Z.eqb_neq in Hne as Hne'. rewrite Hne'.
  unfold same_ptr. rewrite bool_decide_eq_false_2; [reflexivity |].
  intros Ha. specialize (Hheap Ha). subst y. simpl in Hy. congruence.
Qed.

Lemma cmp_lessEqual_unresolved x y :
  val_addr x <> val_addr y -> value x = None \/ value y = None ->
  Halo.cmp_lessEqual x y = Ok false.
Proof.
  intros Ha Hv. unfold Halo.cmp_lessEqual, same_ptr.
  rewrite bool_decide_eq_false_2 by exact Ha.
  destruct Hv as [-> | Hy]; [reflexivity |].
  rewrite Hy. now destruct (value x).
Qed.

(** Two merged axes without recorded halo widths are compared operand by
    operand, the inner operands first. *)
Lemma extentCompare_merge g h cmp id1 id2 outer1 inner1 outer2 inner2 :
  areMapped g id1 id2 = true ->
  halo_width_map_ h !! id_addr id1 = None ->
  halo_width_map_ h !! id_addr id2 = None ->
  id_definition id1 = MergeOf outer1 inner1 ->
  id_definition id2 = MergeOf outer2 inner2 ->
  Halo.extentCompare g h cmp id1 id2
  = (let? inner_le := Halo.extentCompare g h cmp inner1 inner2 in
     let? outer_le := Halo.extentCompare g h cmp outer1 outer2 in
     Ok (inner_le && outer_le)).
Proof.
  intros Hm H1 H2 D1 D2.
  destruct id1 as [a1 s1 e1 t1 b1 r1 f1 p1 d1]. simpl in D1. subst d1.
  simpl. rewrite Hm. simpl.
  rewrite hasHaloWidth_false by exact H1.
  rewrite hasHaloWidth_false by exact H2.
  now rewrite D2.
Qed.

(** The comparison of two merged axes is proven exactly when the
    comparisons of both pairs of operands are. *)
Lemma extentCompare_merge_true g h cmp id1 id2 outer1 inner1 outer2 inner2 :
  areMapped g id1 id2 = true ->
  halo_width_map_ h !! id_addr id1 = None ->
  halo_width_map_ h !! id_addr id2 = None ->
  id_definition id1 = MergeOf outer1 inner1 ->
  id_definition id2 = MergeOf outer2 inner2 ->
  Halo.extentCompare g h cmp id1 id2 = Ok true
  <-> Halo.extentCompare g h cmp outer1 outer2 = Ok true
      /\ Halo.extentCompare g h cmp inner1 inner2 = Ok true.
Proof.
  intros Hm H1 H2 D1 D2.
  rewrite (extentCompare_merge _ _ _ _ _ _ _ _ _ Hm H1 H2 D1 D2).
  unfold rbind.
  destruct (Halo.extentCompare g h cmp inner1 inner2) as [[|] | ei];
    destruct (Halo.extentCompare g h cmp outer1 outer2) as [[|] | eo];
    simpl; split; try tauto; try discriminate;
    intros [Ho Hi]; discriminate.
Qed.

(** Recorded widths that are different constants are never proven equal. *)
Lemma extentEqual_differ g h id1 id2 w1 w2 v1 v2 :
  halo_width_map_ h !! id_addr id1 = Some w1 ->
  halo_width_map_ h !! id_addr id2 = Some w2 ->
  value w1 = Some v1 -> value w2 = Some v2 -> v1 <> v2 ->
  (val_addr w1 = val_addr w2 -> w1 = w2) ->
  Halo.extentEqual g h id1 id2 <> Ok true
  /\ (areMapped g id1 id2 = true -> Halo.extentEqual g h id1 id2 = Ok false).
Proof.
  unfold Halo.extentEqual. intros H1 H2 V1 V2 Hne Hheap.
  destruct (areMapped g id1 id2) eqn:Hm.
  - rewrite (extentCompare_widths _ _ _ _ _ _ _ Hm H1 H2).
    rewrite (cmp_equal_differ _ _ _ _ V1 V2 Hne Hheap).
    split; [discriminate | reflexivity].
  - destruct (extentCompare_unmapped g h Halo.cmp_equal _ _ Hm) as [e ->].
    split; [discriminate | discriminate].
Qed.

(** Recorded widths that are different nodes, not both constants, are never
    proven to be in order. *)
Lemma extentLessEqual_unresolved g h id1 id2 w1 w2 :
  halo_width_map_ h !! id_addr id1 = Some w1 ->
  halo_width_map_ h !! id_addr id2 = Some w2 ->
  val_addr w1 <> val_addr w2 ->
  value w1 = None \/ value w2 = None ->
  Halo.extentLessEqual g h id1 id2 <> Ok true
  /\ (areMapped g id1 id2 = true ->
      Halo.extentLessEqual g h id1 id2 = Ok false).
Proof.
  unfold Halo.extentLessEqual. intros H1 H2 Ha Hv.
  destruct (areMapped g id1 id2) eqn:Hm.
  - rewrite (extentCompare_widths _ _ _ _ _ _ _ Hm H1 H2).
    rewrite (cmp_lessEqual_unresolved _ _ Ha Hv).
    split; [discriminate | reflexivity].
  - destruct (extentCompare_unmapped g h Halo.cmp_lessEqual _ _ Hm)
      as [e ->].
    split; [discriminate | discriminate].
Qed.

(** C4. For loop-mapped axes [id1] and [id2]: [extentEqual] is true when
    both have recorded halo widths that are the same node or the same
    constant. When neither has one and both are outputs of merges,
    [extentEqual] and [extentLessEqual] are true exactly when the comparison
    of the outer operands and that of the inner operands are both true.
    Whatever the mapping, [extentEqual] is not true for recorded widths that
    are different constants, nor for merged axes with a pair of operands of
    such widths; and [extentLessEqual] is not true for recorded widths that
    are different nodes, not both constant, nor for merged axes with a pair
    of operands of such widths. *)
Theorem extent_comparator_sound
    (g : GpuLower) (h : HaloInfo) (id1 id2 : IterDomain) :
  (areMapped g id1 id2 = true ->
   forall w1 w2,
     halo_width_map_ h !! id_addr id1 = Some w1 ->
     halo_width_map_ h !! id_addr id2 = Some w2 ->
     same_ptr w1 w2 = true
     \/ (exists v, value w1 = Some v /\ value w2 = Some v) ->
     Halo.extentEqual g h id1 id2 = Ok true)
  /\ (areMapped g id1 id2 = true ->
      forall outer1 inner1 outer2 inner2,
        halo_width_map_ h !! id_addr id1 = None ->
        halo_width_map_ h !! id_addr id2 = None ->
        id_definition id1 = MergeOf outer1 inner1 ->
        id_definition id2 = MergeOf outer2 inner2 ->
        (Halo.extentEqual g h id1 id2 = Ok true
         <-> Halo.extentEqual g h outer1 outer2 = Ok true
             /\ Halo.extentEqual g h inner1 inner2 = Ok true)
        /\ (Halo.extentLessEqual g h id1 id2 = Ok true
            <-> Halo.extentLessEqual g h outer1 outer2 = Ok true
                /\ Halo.extentLessEqual g h inner1 inner2 = Ok true))
  /\ (forall w1 w2 v1 v2,
        halo_width_map_ h !! id_addr id1 = Some w1 ->
        halo_width_map_ h !! id_addr id2 = Some w2 ->
        value w1 = Some v1 -> value w2 = Some v2 -> v1 <> v2 ->
        (val_addr w1 = val_addr w2 -> w1 = w2) ->
        Halo.extentEqual g h id1 id2 <> Ok true
        /\ (areMapped g id1 id2 = true ->
            Halo.extentEqual g h id1 id2 = Ok false))
  /\ (forall w1 w2,
        halo_width_map_ h !! id_addr id1 = Some w1 ->
        halo_width_map_ h !! id_addr id2 = Some w2 ->
        val_addr w1 <> val_addr w2 ->
        value w1 = None \/ value w2 = None ->
        Halo.extentLessEqual g h id1 id2 <> Ok true
        /\ (areMapped g id1 id2 = true ->
            Halo.extentLessEqual g h id1 id2 = Ok false))
  /\ (forall outer1 inner1 outer2 inner2 x1 x2 w1 w2,
        halo_width_map_ h !! id_addr id1 = None ->
        halo_width_map_ h !! id_addr id2 = None ->
        id_definition id1 = MergeOf outer1 inner1 ->
        id_definition id2 = MergeOf outer2 inner2 ->
        (x1, x2) = (outer1, outer2) \/ (x1, x2) = (inner1, inner2) ->
        halo_width_map_ h !! id_addr x1 = Some w1 ->
        halo_width_map_ h !! id_addr x2 = Some w2 ->
        ((exists v1 v2, value w1 = Some v1 /\ value w2 = Some v2
                        /\ v1 <> v2
                        /\ (val_addr w1 = val_addr w2 -> w1 = w2)) ->
         Halo.extentEqual g h id1 id2 <> Ok true)
        /\ (val_addr w1 <> val_addr w2 ->
            value w1 = None \/ value w2 = None ->
            Halo.extentLessEqual g h id1 id2 <> Ok true)).
Proof.
  split; [| split; [| split; [| split]]].
  - unfold Halo.extentEqual. intros Hm w1 w2 H1 H2 Hw.
    rewrite (extentCompare_widths _ _ _ _ _ _ _ Hm H1 H2).
    destruct Hw as [Hs | (v & Hv1 & Hv2)].
    + now apply cmp_equal_same.
    + now apply (cmp_equal_const _ _ v).
  - intros Hm outer1 inner1 outer2 inner2 H1 H2 D1 D2.
    unfold Halo.extentEqual, Halo.extentLessEqual.
    split; exact (extentCompare_merge_true _ _ _ _ _ _ _ _ _ Hm H1 H2 D1 D2).
  - intros w1 w2 v1 v2. apply extentEqual_differ.
  - intros w1 w2. apply extentLessEqual_unresolved.
  - intros outer1 inner1 outer2 inner2 x1 x2 w1 w2 H1 H2 D1 D2 Hx Hw1 Hw2.
    assert (Hwhich :
              forall cmp,
                Halo.extentCompare g h cmp id1 id2 = Ok true ->
                Halo.extentCompare g h cmp x1 x2 = Ok true).
    { intros cmp Htrue.
      destruct (areMapped g id1 id2) eqn:Hm.
      - apply (extentCompare_merge_true _ _ _ _ _ _ _ _ _ Hm H1 H2 D1 D2)
          in Htrue as [Ho Hi].
        destruct Hx as [[= -> ->] | [= -> ->]]; assumption.
      - destruct (extentCompare_unmapped g h cmp _ _ Hm) as [e He].
        rewrite He in Htrue. discriminate. }
    split.
    + intros (v1 & v2 & V1 & V2 & Hne & Hheap) Htrue.
      apply Hwhich in Htrue.
      exact (proj1 (extentEqual_differ g h x1 x2 w1 w2 v1 v2 Hw1 Hw2 V1 V2
                      Hne Hheap) Htrue).
    + intros Ha Hv Htrue. apply Hwhich in Htrue.
      exact (proj1 (extentLessEqual_unresolved g h x1 x2 w1 w2 Hw1 Hw2
                      Ha Hv) Htrue).
Qed.

Lemma extent_comparator_sound_witness :
  Halo.extentEqual Sample.mapped_all Sample.after_merge
                   Sample.merged1 Sample.merged2 = Ok true
  /\ Halo.extentEqual Sample.mapped_all Sample.after_uneven_merge
                      Sample.merged1 Sample.merged2 <> Ok true.
Proof.
  split.
  - destruct (extent_comparator_sound Sample.mapped_all Sample.after_merge
                Sample.merged1 Sample.merged2) as (_ & H & _).
    apply (H eq_refl (Sample.derived 6 OtherDef) (Sample.derived 7 OtherDef)
             (Sample.derived 8 OtherDef) (Sample.derived 9 OtherDef));
      try (vm_compute; reflexivity).
    split; vm_compute; reflexivity.
  - destruct (extent_comparator_sound Sample.mapped_all
                Sample.after_uneven_merge Sample.merged1 Sample.merged2)
      as (_ & _ & _ & _ & H).
    apply (H (Sample.derived 6 OtherDef) (Sample.derived 7 OtherDef)
             (Sample.derived 8 OtherDef) (Sample.derived 9 OtherDef)
             (Sample.derived 7 OtherDef) (Sample.derived 9 OtherDef)
             (IntConst 20 3) (IntConst 32 5));
      try (vm_compute; reflexivity).
    + now right.
    + exists 3, 5. split; [reflexivity |]. split; [reflexivity |].
      split; [lia | discriminate].
Defined.

(** ** Validation *)

Lemma validate_fold_fail g h uses mem axes e :
  fold_left (fun r axis => let? _ := r in
                           Halo.validate_axis g h uses mem axis)
            axes (Fail e) = Fail e.
Proof. induction axes as [| a axes IH]; simpl; [reflexivity | exact IH]. Qed.

Lemma validate_fold_in g h uses mem axes axis r :
  axis ∈ axes ->
  is_ok (Halo.validate_axis g h uses mem axis) = false ->
  is_ok (fold_left (fun r axis => let? _ := r in
                                  Halo.validate_axis g h uses mem axis)
                   axes r) = false.
Proof.
  intros Hin Hf. revert r.
  induction axes as [| a axes IH]; intros r; [inversion Hin |].
  simpl. destruct r as [[] | e].
  - simpl. apply elem_of_cons in Hin as [<- | Hin].
    + destruct (Halo.validate_axis g h uses mem axis) as [[] | e];
        [discriminate |].
      now rewrite validate_fold_fail.
    + now apply IH.
  - simpl. now rewrite validate_fold_fail.
Qed.

Lemma block_is_not_thread_dim p :
  isParallelTypeBlockDim p = true ->
  isParallelTypeThreadDim p = false /\ isParallelTypeThread p = true
  /\ p <> Serial.
Proof. destruct p; simpl; try discriminate; intros _; now repeat split. Qed.

(** When the loop over the uses raises nothing, it sets [shared_mem_needed]
    exactly when some use makes shared visibility necessary. *)
Lemma shared_mem_needed_spec g h uses axis b :
  Halo.shared_mem_needed g h uses axis = Ok b ->
  b = true <-> needs_shared_visibility g h uses axis.
Proof.
  unfold needs_shared_visibility. revert b.
  induction uses as [| use rest IH]; intros b; simpl.
  - intros [= <-]. split; [discriminate |].
    intros (use & Hin & _). now apply elem_of_nil in Hin.
  - assert (Hskip : ~ use_needs_shared g h axis use ->
              (exists u, u ∈ use :: rest /\ use_needs_shared g h axis u)
              <-> exists u, u ∈ rest /\ use_needs_shared g h axis u).
    { intros Hno. split.
      - intros (u & Hin & Hu). apply elem_of_cons in Hin as [-> | Hin];
          [contradiction | now exists u].
      - intros (u & Hin & Hu). exists u. split; [now right | exact Hu]. }
    assert (Hhere : use_needs_shared g h axis use ->
              exists u, u ∈ use :: rest /\ use_needs_shared g h axis u).
    { intros Hu. exists use. split; [apply list_elem_of_here | exact Hu]. }
    destruct (isTVOp use) eqn:Etv; simpl.
    2:{ intros H. rewrite (IH _ H). symmetry. apply Hskip.
        intros [Hs | [Hg | [Ht _]]]; try congruence;
          unfold isTVOp in Etv; destruct (expr_op use); discriminate. }
    destruct (isShift (expr_op use) || isGather (expr_op use)) eqn:Esg.
    { intros [= <-]. split; [intros _ | reflexivity]. apply Hhere.
      apply orb_true_iff in Esg as [Hs | Hg]; [now left | right; now left]. }
    apply orb_false_iff in Esg as [Hs Hg].
    destruct (expr_outputs use) as [| [consumer | v] outs] eqn:Eout;
      try discriminate.
    destruct (find (fun consumer_axis => areMapped g axis consumer_axis)
                   (td_domain (tv_domain consumer))) as [it|] eqn:Efind.
    2:{ intros H. rewrite (IH _ H). symmetry. apply Hskip.
        intros [Hs' | [Hg' | (_ & c' & r' & it' & Ho & Hf & _)]];
          try congruence;
          rewrite Eout in Ho; injection Ho as <- <-; congruence. }
    destruct (Halo.extentEqual g h axis it) as [[|] | e] eqn:Eeq; simpl;
      try discriminate.
    + intros H. rewrite (IH _ H). symmetry. apply Hskip.
      intros [Hs' | [Hg' | (_ & c' & r' & it' & Ho & Hf & Hne)]];
        try congruence;
        rewrite Eout in Ho; injection Ho as <- <-;
        rewrite Efind in Hf; injection Hf as <-; contradiction.
    + intros [= <-]. split; [intros _ | reflexivity]. apply Hhere.
      right. right. split; [exact Etv |].
      exists consumer, outs, it. split; [exact Eout |].
      split; [exact Efind |]. rewrite Eeq. discriminate.
Qed.

(** With a use that makes shared visibility necessary, the loop over the
    uses does not end with [shared_mem_needed] unset. *)
Lemma shared_mem_needed_not_false g h uses axis :
  needs_shared_visibility g h uses axis ->
  Halo.shared_mem_needed g h uses axis <> Ok false.
Proof.
  intros Hneeds H.
  apply (shared_mem_needed_spec _ _ _ _ _ H) in Hneeds. discriminate.
Qed.

(** C5 (amended). A tensor with an axis that has an extended extent and is
    bound to a block dimension fails validation, whatever its memory type,
    when the axis needs shared visibility: a use of the tensor is a shift or a
    gather, or a loop-mapped axis of a consumer is not proven to have an
    equal extent. When the comparisons themselves raise nothing, the failure
    at that axis is the check that block-based parallelization is not
    supported. (And when the loop over the uses raises nothing, it finds
    shared visibility necessary in exactly these cases.) *)
Theorem validate_rejects_block_parallel_halo
    (g : GpuLower) (h : HaloInfo) (uses : list Expr) (tv : TensorView)
    (axis : IterDomain) :
  axis ∈ td_domain (tv_domain tv) ->
  is_Some (Halo.getExtent h axis) ->
  isParallelTypeBlockDim (id_parallelType (getConcreteMappedID g axis)) = true ->
  needs_shared_visibility g h uses axis ->
  is_ok (Halo.validate g h uses tv) = false
  /\ (Halo.extentEqual g h axis (getConcreteMappedID g axis) = Ok true ->
      is_ok (Halo.shared_mem_needed g h uses axis) = true ->
      forall mem,
        Halo.validate_axis g h uses mem axis
        = Fail (CheckFailed
            "Block-based parallelization of a halo-extended axis is not supported"))
  /\ (forall uses' axis' b,
        Halo.shared_mem_needed g h uses' axis' = Ok b ->
        b = true <-> needs_shared_visibility g h uses' axis').
Proof.
  intros Hin [e He] Hblock Hneeds.
  pose proof (shared_mem_needed_not_false _ _ _ _ Hneeds) as Hneeded.
  destruct (block_is_not_thread_dim _ Hblock) as (Hnt & Ht & Hns).
  assert (Haxis : forall mem,
             is_ok (Halo.validate_axis g h uses mem axis) = false
             /\ (Halo.extentEqual g h axis (getConcreteMappedID g axis)
                 = Ok true ->
                 is_ok (Halo.shared_mem_needed g h uses axis) = true ->
                 Halo.validate_axis g h uses mem axis
                 = Fail (CheckFailed
                     "Block-based parallelization of a halo-extended axis is not supported"))).
  { intros mem. unfold Halo.validate_axis.
    destruct (Halo.extentEqual g h axis (getConcreteMappedID g axis))
      as [[|] | e1]; simpl; [| split; [reflexivity | discriminate]
                             | split; [reflexivity | discriminate]].
    rewrite He, Ht, Hnt, Hblock.
    rewrite bool_decide_eq_false_2 by exact Hns. simpl.
    destruct (Halo.shared_mem_needed g h uses axis) as [[|] | e2]; simpl.
    - split; [reflexivity | intros _ _; reflexivity].
    - congruence.
    - split; [reflexivity | discriminate]. }
  split; [| split].
  - unfold Halo.validate. apply (validate_fold_in _ _ _ _ _ axis); [exact Hin |].
    apply Haxis.
  - intros Heq Hn mem. now apply Haxis.
  - intros uses' axis' b. apply shared_mem_needed_spec.
Qed.

Lemma validate_rejects_block_parallel_halo_witness :
  exists h k,
    Halo.build_td Sample.after_block_shift (tv_domain Sample.B1) 1000%positive
    = Ok (h, k)
    /\ is_ok (Halo.validate Sample.lower_blocks h
                (Halo.fusion_uses Sample.block_shift Sample.B1) Sample.B1)
       = false.
Proof.
  eexists _, _. split; [vm_compute; reflexivity |].
  apply (validate_rejects_block_parallel_halo _ _ _ _
           (Sample.parallel_axis 2 BIDx)).
  - vm_compute. apply list_elem_of_here.
  - vm_compute. eexists. reflexivity.
  - reflexivity.
  - exists (Sample.unary (ShiftOp [2] false) Sample.B1 Sample.T3).
    split; [vm_compute; apply list_elem_of_here | now left].
Defined.

(** C5 as stated fails. In [B1 = T0 + 1; B2 = B1 + 1; T3 = B2 + 1;
    T4 = shift(T3, {2})] the axes of [B1] and [B2] are halo-extended and bound
    to [blockIdx.x], and the whole analysis, validation included, succeeds:
    no use of [B1] or [B2] is a shift, and the only loop-mapped consumer axis
    has an equal extent. *)
Lemma validate_block_parallel_counterexample :
  exists h k,
    Halo.build Sample.lower_blocks Halo.empty Sample.block_chain 1000%positive
    = Ok (h, k)
    /\ is_Some (Halo.getExtent h (Sample.parallel_axis 2 BIDx))
    /\ Sample.parallel_axis 2 BIDx ∈ td_domain (tv_domain Sample.B1)
    /\ isParallelTypeBlockDim
         (id_parallelType
            (getConcreteMappedID Sample.lower_blocks
                                 (Sample.parallel_axis 2 BIDx))) = true
    /\ Halo.validate Sample.lower_blocks h
         (Halo.fusion_uses Sample.block_chain Sample.B1) Sample.B1 = Ok tt.
Proof.
  eexists _, _. split; [vm_compute; reflexivity |].
  split; [vm_compute; eexists; reflexivity |].
  split; [vm_compute; apply list_elem_of_here |].
  split; vm_compute; reflexivity.
Qed.

(** ** When a shift predicate is needed *)

Lemma needsShiftPredicate_axis_evaluable h op ic :
  axis_evaluable h op ic ->
  Halo.needsShiftPredicate_axis h op ic = Ok (axis_needs_predicate h op ic).
Proof.
  destruct ic as [i id]. intros (info & Hinfo & Hop).
  unfold Halo.needsShiftPredicate_axis, axis_needs_predicate.
  rewrite Hinfo. simpl.
  apply getRootAxisInfo_is_root in Hinfo as [_ ->].
  destruct (AxisHalo.hasHalo info); [reflexivity |].
  specialize (Hop eq_refl). simpl.
  destruct op as [offsets pad | ws pw | tv_op].
  - destruct Hop as [o Ho]. unfold offset. rewrite Ho. simpl.
    now destruct (o =? 0), (id_isBroadcast id).
  - destruct Hop as [w Hw]. unfold at_index. rewrite Hw. simpl.
    now destruct (isOneInt w), (id_isBroadcast id).
  - simpl. now destruct (id_isBroadcast id).
Qed.

Lemma needsShiftPredicate_loop_spec h op axes :
  reached_axes_evaluable h op axes ->
  Halo.needsShiftPredicate_loop h op axes
  = Ok (existsb (axis_needs_predicate h op) axes).
Proof.
  induction axes as [| ic axes IH]; intros Hreach; [reflexivity |].
  simpl.
  rewrite needsShiftPredicate_axis_evaluable
    by (apply (Hreach [] ic axes); reflexivity).
  simpl. destruct (axis_needs_predicate h op ic) eqn:E; [reflexivity |].
  simpl. apply IH.
  intros pre ic' post -> Hpre.
  apply (Hreach (ic :: pre) ic' post); [reflexivity |].
  simpl. now rewrite E.
Qed.

Lemma axis_needs_predicate_true h op i id :
  axis_needs_predicate h op (i, id) = true
  <-> (exists info, root_axis_map_ h !! id_addr id = Some info
                    /\ AxisHalo.hasHalo info = true)
      \/ (id_isBroadcast id = false
          /\ ((exists offsets pad o,
                  op = ShiftOp offsets pad /\ offsets !! i = Some o /\ o <> 0)
              \/ (exists windowShape padWidth w,
                     op = GatherOp windowShape padWidth
                     /\ windowShape !! i = Some w /\ isOneInt w = false))).
Proof.
  unfold axis_needs_predicate.
  rewrite orb_true_iff, andb_true_iff, negb_true_iff. split.
  - intros [H | [Hb H]].
    + left. destruct (root_axis_map_ h !! id_addr id) as [info|];
        [| discriminate]. now exists info.
    + right. split; [exact Hb |].
      destruct op as [offsets pad | ws pw | tv_op]; [| | discriminate].
      * left. destruct (offsets !! i) as [o|] eqn:Eo; [| discriminate].
        exists offsets, pad, o. repeat split; [exact Eo |].
        apply negb_true_iff, Z.eqb_neq in H. exact H.
      * right. destruct (ws !! i) as [w|] eqn:Ew; [| discriminate].
        exists ws, pw, w. repeat split; [exact Ew |].
        now apply negb_true_iff.
  - intros [(info & -> & H) | [Hb [(offsets & pad & o & -> & -> & Ho)
                                 | (ws & pw & w & -> & -> & Hw)]]].
    + now left.
    + right. split; [exact Hb |]. apply negb_true_iff. now apply Z.eqb_neq.
    + right. split; [exact Hb |]. now apply negb_true_iff.
Qed.

(** Where the loop of [needsShiftPredicate] can evaluate its condition at
    every root axis it reaches, it returns true if and only if some root axis
    of the output has a recorded halo width that is not a known zero, or is
    not a broadcast and is shifted by a non-zero offset or gathered with a
    window other than one. For an expression that is neither a shift nor a
    gather, over root axes whose recorded widths are known zeros, it returns
    false. *)
Lemma needsShiftPredicate_iff
    (h : HaloInfo) (expr : Expr) (out_tv : TensorView) :
  getTVOutput expr = Some out_tv ->
  (reached_axes_evaluable h (expr_op expr)
                          (indexed (td_root (tv_domain out_tv))) ->
   (exists b, Halo.needsShiftPredicate h expr = Ok b)
   /\ (Halo.needsShiftPredicate h expr = Ok true
       <-> exists i id,
             td_root (tv_domain out_tv) !! i = Some id
             /\ ((exists info, root_axis_map_ h !! id_addr id = Some info
                               /\ (isZeroInt (widths_0 info) = false
                                   \/ isZeroInt (widths_1 info) = false))
                 \/ (id_isBroadcast id = false
                     /\ ((exists offsets pad o,
                             expr_op expr = ShiftOp offsets pad
                             /\ offsets !! i = Some o /\ o <> 0)
                         \/ (exists windowShape padWidth w,
                                expr_op expr = GatherOp windowShape padWidth
                                /\ windowShape !! i = Some w
                                /\ isOneInt w = false))))))
  /\ (isShift (expr_op expr) = false -> isGather (expr_op expr) = false ->
      (forall id, id ∈ td_root (tv_domain out_tv) ->
                  exists info, Halo.getRootAxisInfo h id = Ok info
                               /\ zero_halo info) ->
      Halo.needsShiftPredicate h expr = Ok false).
Proof.
  intros Hout. unfold Halo.needsShiftPredicate. rewrite Hout.
  assert (Hex : forall axes,
             existsb (axis_needs_predicate h (expr_op expr))
                     (indexed axes) = true
             <-> exists i id,
                 axes !! i = Some id
                 /\ axis_needs_predicate h (expr_op expr) (i, id) = true).
  { intros axes. rewrite existsb_exists. split.
    - intros ([i id] & Hin & Hneeds). exists i, id.
      split; [now apply In_indexed | exact Hneeds].
    - intros (i & id & Hl & Hneeds). exists (i, id).
      split; [now apply In_indexed | exact Hneeds]. }
  assert (Hhalo : forall id,
             (exists info, root_axis_map_ h !! id_addr id = Some info
                           /\ AxisHalo.hasHalo info = true)
             <-> exists info, root_axis_map_ h !! id_addr id = Some info
                              /\ (isZeroInt (widths_0 info) = false
                                  \/ isZeroInt (widths_1 info) = false)).
  { intros id. split; intros (info & Hi & Hh); exists info;
      (split; [exact Hi | now apply hasHalo_true]). }
  split.
  - intros Hreach. rewrite (needsShiftPredicate_loop_spec _ _ _ Hreach).
    split; [now eexists |]. split.
    + intros [= Hb]. apply Hex in Hb as (i & id & Hl & Hneeds).
      exists i, id. split; [exact Hl |].
      rewrite <- Hhalo. now apply axis_needs_predicate_true.
    + intros (i & id & Hl & Hneeds). f_equal. apply Hex.
      exists i, id. split; [exact Hl |].
      rewrite <- Hhalo in Hneeds. now apply axis_needs_predicate_true.
  - intros Hs Hg Hall.
    rewrite needsShiftPredicate_loop_spec.
    + f_equal. apply not_true_is_false. intros Hb.
      apply Hex in Hb as (i & id & Hl & Hneeds).
      apply axis_needs_predicate_true in Hneeds.
      destruct (Hall id) as (info & Hi & Hh);
        [apply list_elem_of_lookup; now exists i |].
      apply hasHalo_false in Hh.
      apply getRootAxisInfo_is_root in Hi as [_ Hi].
      destruct Hneeds as [(info' & Hi' & Hh')
                         | [_ [(? & ? & ? & Hop & _) | (? & ? & ? & Hop & _)]]].
      * congruence.
      * rewrite Hop in Hs. discriminate.
      * rewrite Hop in Hg. discriminate.
    + intros pre [i id] post Heq _.
      destruct (Hall id) as (info & Hi & Hh).
      { apply list_elem_of_lookup. exists i. apply In_indexed.
        rewrite Heq. apply in_or_app. right. now left. }
      exists info. split; [exact Hi |]. intros _.
      destruct (expr_op expr); [discriminate | discriminate | exact I].
Qed.

Example needsShiftPredicate_in_range :
  exists b,
    Halo.needsShiftPredicate Sample.blank
      (Sample.unary Sample.gather3 Sample.T1 Sample.T2g) = Ok b.
Proof.
  refine (proj1 (proj1 (needsShiftPredicate_iff Sample.blank
                          (Sample.unary Sample.gather3 Sample.T1 Sample.T2g)
                          Sample.T2g eq_refl) _)).
  intros pre ic post Heq Hpre.
  destruct pre as [| p1 [| p2 pre]].
  - injection Heq as <- _. eexists. split; [vm_compute; reflexivity |].
    intros _. eexists. reflexivity.
  - injection Heq as <- _. vm_compute in Hpre. discriminate.
  - injection Heq as _ _ Heq. destruct pre; discriminate.
Qed.

(** The loop of [needsShiftPredicate] over the root axes from position [n]
    on, for a gather: when no axis has halo and every window is one or on a
    broadcast axis, the loop goes on to the first position that
    [windowShape] does not have, and reads there. *)
Lemma needsShiftPredicate_loop_out_of_range h ws pw axes :
  forall n,
    axes <> [] ->
    (length ws < n + length axes)%nat ->
    (forall id, id ∈ axes ->
                exists info, Halo.getRootAxisInfo h id = Ok info
                             /\ zero_halo info) ->
    (forall i w id,
        ws !! i = Some w -> (n <= i)%nat -> axes !! (i - n)%nat = Some id ->
        isOneInt w = true \/ id_isBroadcast id = true) ->
    Halo.needsShiftPredicate_loop h (GatherOp ws pw)
      (combine (seq n (length axes)) axes)
    = Fail (Undefined "windowShape").
Proof.
  induction axes as [| id axes IH]; intros n Hne Hlen Hzero Hunit;
    [contradiction |].
  cbn [length seq combine Halo.needsShiftPredicate_loop].
  unfold Halo.needsShiftPredicate_axis.
  destruct (Hzero id) as (info & Hinfo & Hz); [apply list_elem_of_here |].
  rewrite Hinfo. simpl. apply hasHalo_false in Hz. rewrite Hz. simpl.
  unfold at_index.
  destruct (ws !! n) as [w|] eqn:Hw; [| reflexivity].
  simpl.
  assert (Hfalse : negb (isOneInt w) && negb (id_isBroadcast id) = false).
  { assert (Hl : (id :: axes) !! (n - n)%nat = Some id)
      by now rewrite Nat.sub_diag.
    destruct (Hunit n w id Hw (Nat.le_refl n) Hl) as [-> | ->];
      [reflexivity | apply andb_false_r]. }
  rewrite Hfalse.
  apply lookup_lt_Some in Hw. simpl in Hlen.
  apply IH.
  - destruct axes; [simpl in Hlen; lia | discriminate].
  - lia.
  - intros id' Hin. apply Hzero. now right.
  - intros i w' id' Hw' Hle Hl. apply (Hunit i w' id' Hw'); [lia |].
    replace (i - n)%nat with (S (i - S n)) by lia. exact Hl.
Qed.

(** C6 (a defect of the code). For a gather whose output has more root axes
    than [windowShape] has entries (the window axes), with no halo on any
    root axis and every window one or on a broadcast axis, no root axis
    meets the condition of the claim, so the claim has [needsShiftPredicate]
    return false. The loop of the source instead goes on past the tensor
    axes and reads [windowShape()[i]] out of range. The sibling
    [getGatherProducerIndex] guards the same read and returns the consumer
    index there. *)
Theorem needsShiftPredicate_window_out_of_range
    (h : HaloInfo) (expr : Expr) (out_tv : TensorView)
    (windowShape : list Val) (padWidth : list (list Val)) :
  getTVOutput expr = Some out_tv ->
  expr_op expr = GatherOp windowShape padWidth ->
  (length windowShape < length (td_root (tv_domain out_tv)))%nat ->
  (forall id, id ∈ td_root (tv_domain out_tv) ->
              exists info, Halo.getRootAxisInfo h id = Ok info
                           /\ zero_halo info) ->
  (forall i w id,
      windowShape !! i = Some w ->
      td_root (tv_domain out_tv) !! i = Some id ->
      isOneInt w = true \/ id_isBroadcast id = true) ->
  ~ (exists i id,
        td_root (tv_domain out_tv) !! i = Some id
        /\ ((exists info, root_axis_map_ h !! id_addr id = Some info
                          /\ (isZeroInt (widths_0 info) = false
                              \/ isZeroInt (widths_1 info) = false))
            \/ (id_isBroadcast id = false
                /\ exists w, windowShape !! i = Some w
                             /\ isOneInt w = false)))
  /\ Halo.needsShiftPredicate h expr = Fail (Undefined "windowShape")
  /\ Halo.needsShiftPredicate h expr <> Ok false
  /\ forall c indices k,
      ShiftPredicateInserter.getGatherProducerIndex (length windowShape) c
        (Some (windowShape, padWidth)) indices k = Ok (c, k).
Proof.
  intros Hout Hop Hlen Hzero Hunit.
  assert (Hfail : Halo.needsShiftPredicate h expr
                  = Fail (Undefined "windowShape")).
  { unfold Halo.needsShiftPredicate. rewrite Hout, Hop. unfold indexed.
    apply needsShiftPredicate_loop_out_of_range.
    - destruct (td_root (tv_domain out_tv)); [simpl in Hlen; lia |].
      discriminate.
    - simpl. exact Hlen.
    - exact Hzero.
    - intros i w id Hw _ Hl. rewrite Nat.sub_0_r in Hl.
      exact (Hunit i w id Hw Hl). }
  split; [| split; [exact Hfail | split]].
  - intros (i & id & Hl & [(info & Hi & Hw) | (Hb & w & Hw & Hone)]).
    + destruct (Hzero id) as (info' & Hi' & [Z0 Z1]);
        [apply list_elem_of_lookup; now exists i |].
      apply getRootAxisInfo_is_root in Hi' as [_ Hi'].
      assert (info' = info) as -> by congruence.
      destruct Hw; congruence.
    + destruct (Hunit i w id Hw Hl); congruence.
  - rewrite Hfail. discriminate.
  - intros c indices k.
    unfold ShiftPredicateInserter.getGatherProducerIndex.
    now rewrite Nat.leb_refl.
Qed.

Lemma needsShiftPredicate_window_out_of_range_witness :
  exists h,
    Sample.analysed
      (Sample.fusion [Sample.T0; Sample.T1; Sample.T2u]
         [Sample.unary (OtherOp true) Sample.T0 Sample.T1;
          Sample.unary Sample.gather1 Sample.T1 Sample.T2u]) = Ok h
    /\ Halo.needsShiftPredicate h
         (Sample.unary Sample.gather1 Sample.T1 Sample.T2u)
       = Fail (Undefined "windowShape")
    /\ Halo.needsShiftPredicate h
         (Sample.unary Sample.gather1 Sample.T1 Sample.T2u) <> Ok false.
Proof.
  eexists. split; [vm_compute; reflexivity |].
  refine (let H := needsShiftPredicate_window_out_of_range _
                     (Sample.unary Sample.gather1 Sample.T1 Sample.T2u)
                     Sample.T2u [IntConst 103 1]
                     [[IntConst 104 0; IntConst 105 0]]
                     eq_refl eq_refl _ _ _ in
          conj (proj1 (proj2 H)) (proj1 (proj2 (proj2 H)))).
  - vm_compute. lia.
  - intros id Hin. vm_compute in Hin.
    apply elem_of_cons in Hin as [-> | Hin];
      [| apply elem_of_cons in Hin as [-> | Hin];
         [| now apply elem_of_nil in Hin]].
    + eexists. split; [vm_compute; reflexivity | split; reflexivity].
    + eexists. split; [vm_compute; reflexivity | split; reflexivity].
  - intros i w id Hw Hl. destruct i as [| i]; [| discriminate].
    injection Hw as <-. now left.
Defined.

(** ** The predicate of a reduction-buffer initialisation *)

Lemma getPredicate_start g h definition pred_indices out_tv thread_pred
      isShiftPredicate k :
  Halo.needsShiftPredicate h definition = Ok true ->
  ShiftPredicateInserter.getPredicate g h definition pred_indices out_tv
    thread_pred isShiftPredicate k
  = (if negb isShiftPredicate
        && negb (padded_shift_or_gather (expr_op definition))
     then Ok (Some (BoolConst k false), Pos.succ k)
     else
       if bool_decide (tv_memoryType out_tv = Local) && snd pred_indices
       then Ok (Some (BoolConst k true), Pos.succ k)
       else
         (assert_that
            (length (fst pred_indices)
             =? length (td_root (tv_domain out_tv)))%nat
            "indices.size() == root_domain.size()";;
          let* predicate :=
            foldM (ShiftPredicateInserter.predicate_axis g h
                     (ShiftPredicateInserter.as_ShiftOp (expr_op definition))
                     (ShiftPredicateInserter.as_GatherOp (expr_op definition))
                     (fst pred_indices) (snd pred_indices) isShiftPredicate)
                  (indexed (td_root (tv_domain out_tv))) None in
          ShiftPredicateInserter.merge_thread_pred predicate thread_pred) k).
Proof.
  intros Hneeds. unfold ShiftPredicateInserter.getPredicate.
  unfold bind at 1. unfold lift at 1. rewrite Hneeds.
  unfold bind at 1. simpl assert_that. unfold ret at 1.
  destruct pred_indices as [indices buffer_init]. simpl fst. simpl snd.
  destruct isShiftPredicate, (expr_op definition) as [offsets [] | ws pw | ?];
    simpl; try reflexivity;
    destruct (bool_decide (tv_memoryType out_tv = Local) && buffer_init);
    reflexivity.
Qed.

(** C9 (amended). For an output in local memory and an access that
    initialises a reduction buffer, the shift predicate [getPredicate]
    returns is the constant true, with no bound check on any axis, and it is
    returned as it is: the thread predicate is not merged into it. *)
Theorem buffer_init_shift_predicate_true
    (g : GpuLower) (h : HaloInfo) (definition : Expr) (indices : list Val)
    (out_tv : TensorView) (thread_pred : Val) (k : Kernel) :
  Halo.needsShiftPredicate h definition = Ok true ->
  tv_memoryType out_tv = Local ->
  exists t k',
    ShiftPredicateInserter.getPredicate g h definition (indices, true) out_tv
      thread_pred true k = Ok (Some t, k')
    /\ bvalue t = Some true
    /\ (forall env, eval env t = Some 1)
    /\ forall other_thread_pred,
        ShiftPredicateInserter.getPredicate g h definition (indices, true)
          out_tv other_thread_pred true k = Ok (Some t, k').
Proof.
  intros Hneeds Hlocal.
  exists (BoolConst k true), (Pos.succ k).
  assert (Hget : forall tp,
             ShiftPredicateInserter.getPredicate g h definition
               (indices, true) out_tv tp true k
             = Ok (Some (BoolConst k true), Pos.succ k)).
  { intros tp. rewrite getPredicate_start by exact Hneeds. simpl.
    now rewrite bool_decide_eq_true_2 by exact Hlocal. }
  split; [apply Hget |]. split; [reflexivity |].
  split; [reflexivity | apply Hget].
Qed.

Lemma buffer_init_shift_predicate_true_witness :
  exists t k',
    ShiftPredicateInserter.getPredicate Sample.lower Sample.blank
      Sample.padded_shift ([IntSym 200 NoDef], true) Sample.L2
      (BoolSym 60 NoDef) true 300%positive = Ok (Some t, k')
    /\ bvalue t = Some true
    /\ (forall env, eval env t = Some 1)
    /\ forall other_thread_pred,
        ShiftPredicateInserter.getPredicate Sample.lower Sample.blank
          Sample.padded_shift ([IntSym 200 NoDef], true) Sample.L2
          other_thread_pred true 300%positive = Ok (Some t, k').
Proof.
  apply buffer_init_shift_predicate_true.
  - vm_compute. reflexivity.
  - reflexivity.
Defined.

(** C9 as stated fails on its last clause. With a thread predicate that is
    the constant false, merging it makes the predicate false; [getPredicate]
    returns the constant true for the buffer initialisation instead. *)
Lemma buffer_init_shift_predicate_counterexample :
  exists t k' merged k'',
    ShiftPredicateInserter.getPredicate Sample.lower Sample.blank
      Sample.padded_shift ([IntSym 200 NoDef], true) Sample.L2
      (BoolConst 60 false) true 300%positive = Ok (Some t, k')
    /\ ShiftPredicateInserter.merge_thread_pred (Some t) (BoolConst 60 false)
         k' = Ok (Some merged, k'')
    /\ eval (fun _ => None) t = Some 1
    /\ eval (fun _ => None) merged = Some 0.
Proof. eexists _, _, _, _. repeat split; vm_compute; reflexivity. Qed.

(** C10. Where [getPredicate] leaves for a reduction-buffer initialisation
    in local memory, it returns the constant true itself, the same for every
    thread predicate; this holds for the shift flavour and, when the
    definition is a padded shift or a gather, for the padding flavour. For
    any other definition the padding flavour is the constant false, buffer
    initialisation or not: that test comes first. *)
Theorem buffer_init_exit_ignores_thread_predicate
    (g : GpuLower) (h : HaloInfo) (definition : Expr) (indices : list Val)
    (out_tv : TensorView) (thread_pred : Val) (k : Kernel) :
  Halo.needsShiftPredicate h definition = Ok true ->
  (tv_memoryType out_tv = Local ->
   forall isShiftPredicate,
     isShiftPredicate = true
     \/ padded_shift_or_gather (expr_op definition) = true ->
     ShiftPredicateInserter.getPredicate g h definition (indices, true)
       out_tv thread_pred isShiftPredicate k
     = Ok (Some (BoolConst k true), Pos.succ k))
  /\ (tv_memoryType out_tv = Local ->
      padded_shift_or_gather (expr_op definition) = true ->
      ShiftPredicateInserter.getPredicate g h definition (indices, true)
        out_tv thread_pred false k
      = Ok (Some (BoolConst k true), Pos.succ k))
  /\ (forall buffer_init,
        padded_shift_or_gather (expr_op definition) = false ->
        ShiftPredicateInserter.getPredicate g h definition
          (indices, buffer_init) out_tv thread_pred false k
        = Ok (Some (BoolConst k false), Pos.succ k)).
Proof.
  intros Hneeds.
  assert (Hexit : tv_memoryType out_tv = Local ->
                  forall isShiftPredicate,
                    isShiftPredicate = true
                    \/ padded_shift_or_gather (expr_op definition) = true ->
                    ShiftPredicateInserter.getPredicate g h definition
                      (indices, true) out_tv thread_pred isShiftPredicate k
                    = Ok (Some (BoolConst k true), Pos.succ k)).
  { intros Hlocal isShiftPredicate Hflavour.
    rewrite getPredicate_start by exact Hneeds. simpl.
    rewrite bool_decide_eq_true_2 by exact Hlocal.
    destruct Hflavour as [-> | ->]; [reflexivity |].
    now rewrite andb_false_r. }
  split; [exact Hexit |]. split.
  - intros Hlocal Hpad. apply Hexit; [exact Hlocal | now right].
  - intros buffer_init Hpad.
    rewrite getPredicate_start by exact Hneeds. now rewrite Hpad.
Qed.

Lemma buffer_init_exit_ignores_thread_predicate_witness :
  ShiftPredicateInserter.getPredicate Sample.lower Sample.blank
    Sample.padded_shift ([IntSym 200 NoDef], true) Sample.L2
    (BoolConst 60 false) false 300%positive
  = Ok (Some (BoolConst 300 true), 301%positive).
Proof.
  refine (proj1 (proj2 (buffer_init_exit_ignores_thread_predicate
                          Sample.lower Sample.blank Sample.padded_shift
                          [IntSym 200 NoDef] Sample.L2 (BoolConst 60 false)
                          300%positive _)) eq_refl eq_refl).
  vm_compute. reflexivity.
Defined.

(** ** The shift predicate: upper bounds *)

(** *** The arena only grows *)

Lemma mono_ret {A} (a : A) : mono (ret a).
Proof. intros k a' k' [= _ <-]. lia. Qed.

Lemma mono_fail {A} e : mono (@fail A e).
Proof. intros k a k' H. discriminate. Qed.

Lemma mono_lift {A} (r : Result A) : mono (lift r).
Proof. intros k a k' H. unfold lift in H. destruct r; [| discriminate].
       injection H as _ <-. lia. Qed.

Lemma mono_bind {A B} (m : Lower A) (f : A -> Lower B) :
  mono m -> (forall a, mono (f a)) -> mono (bind m f).
Proof.
  intros Hm Hf k b k' H. unfold bind in H.
  destruct (m k) as [[a k1] |] eqn:E; [| discriminate].
  apply Hm in E. apply Hf in H. lia.
Qed.

Lemma mono_assert b msg : mono (assert_that b msg).
Proof. destruct b; [apply mono_ret | apply mono_fail]. Qed.

Lemma mono_alloc {A} (f : Kernel -> A) :
  mono (fun k => Ok (f k, Pos.succ k)).
Proof. intros k a k' [= _ <-]. lia. Qed.

Lemma mono_foldM {A S} (body : S -> A -> Lower S) xs s :
  (forall s x, mono (body s x)) -> mono (foldM body xs s).
Proof.
  intros Hb. revert s. induction xs as [| x xs IH]; intros s; simpl.
  - apply mono_ret.
  - apply mono_bind; [apply Hb | intros s'; apply IH].
Qed.

Create HintDb mono.

Ltac mono_step :=
  first
    [ solve [auto with mono nocore]
    | apply mono_ret | apply mono_fail | apply mono_lift | apply mono_assert
    | apply mono_alloc
    | apply mono_bind; [| intros ?]
    | apply mono_foldM; intros ? ?
    | match goal with
      | |- mono (if ?b then _ else _) => destruct b
      | |- mono (match ?x with _ => _ end) => destruct x
      | |- mono (let '(_, _) := ?x in _) => destruct x
      end ].

Ltac mono_tac := repeat mono_step.

Lemma mono_addExpr_imm a b : mono (SimplifyingIrBuilder.addExpr_imm a b).
Proof.
  unfold SimplifyingIrBuilder.addExpr_imm, SimplifyingIrBuilder.create_Int,
    IrBuilder.addExpr, IrBuilder.subExpr.
  mono_tac.
Qed.
#[local] Hint Resolve mono_addExpr_imm : mono.

Lemma mono_addExpr_Int a b : mono (SimplifyingIrBuilder.addExpr_Int a b).
Proof.
  unfold SimplifyingIrBuilder.addExpr_Int, IrBuilder.addExpr. mono_tac.
Qed.
#[local] Hint Resolve mono_addExpr_Int : mono.

Lemma mono_addExpr a b : mono (SimplifyingIrBuilder.addExpr a b).
Proof. unfold SimplifyingIrBuilder.addExpr. mono_tac. Qed.
#[local] Hint Resolve mono_addExpr : mono.

Lemma mono_cmpExpr op test a b : mono (SimplifyingIrBuilder.cmpExpr op test a b).
Proof.
  unfold SimplifyingIrBuilder.cmpExpr, SimplifyingIrBuilder.create_Bool.
  mono_tac.
Qed.
#[local] Hint Resolve mono_cmpExpr : mono.

Lemma mono_andExpr a b : mono (SimplifyingIrBuilder.andExpr a b).
Proof.
  unfold SimplifyingIrBuilder.andExpr, SimplifyingIrBuilder.trueVal,
    SimplifyingIrBuilder.falseVal, IrBuilder.trueVal, IrBuilder.falseVal,
    IrBuilder.andExpr.
  mono_tac.
Qed.
#[local] Hint Resolve mono_andExpr : mono.

Lemma mono_and_ge p i l : mono (ShiftPredicateInserter.and_ge p i l).
Proof.
  unfold ShiftPredicateInserter.and_ge, SimplifyingIrBuilder.geExpr. mono_tac.
Qed.
#[local] Hint Resolve mono_and_ge : mono.

Lemma mono_and_lt p i l : mono (ShiftPredicateInserter.and_lt p i l).
Proof.
  unfold ShiftPredicateInserter.and_lt, SimplifyingIrBuilder.ltExpr. mono_tac.
Qed.
#[local] Hint Resolve mono_and_lt : mono.

Lemma mono_shift_offset_is test s i :
  mono (ShiftPredicateInserter.shift_offset_is test s i).
Proof. unfold ShiftPredicateInserter.shift_offset_is. mono_tac. Qed.
#[local] Hint Resolve mono_shift_offset_is : mono.

Lemma mono_lower_limit s g i c p l pr :
  mono (ShiftPredicateInserter.lower_limit_predicate s g i c p l pr).
Proof. unfold ShiftPredicateInserter.lower_limit_predicate. mono_tac. Qed.
#[local] Hint Resolve mono_lower_limit : mono.

Lemma mono_upper_limit s g i c p l pr :
  mono (ShiftPredicateInserter.upper_limit_predicate s g i c p l pr).
Proof. unfold ShiftPredicateInserter.upper_limit_predicate. mono_tac. Qed.
#[local] Hint Resolve mono_upper_limit : mono.

Lemma mono_getShiftProducerIndex i c s :
  mono (ShiftPredicateInserter.getShiftProducerIndex i c s).
Proof. unfold ShiftPredicateInserter.getShiftProducerIndex. mono_tac. Qed.
#[local] Hint Resolve mono_getShiftProducerIndex : mono.

Lemma mono_getGatherProducerIndex i c g ix :
  mono (ShiftPredicateInserter.getGatherProducerIndex i c g ix).
Proof.
  unfold ShiftPredicateInserter.getGatherProducerIndex,
    ShiftPredicateInserter.copy_Int, IrBuilder.addExpr, IrBuilder.subExpr,
    IrBuilder.create_Int.
  mono_tac.
Qed.
#[local] Hint Resolve mono_getGatherProducerIndex : mono.

Lemma mono_total_width info : mono (AxisHalo.total_width info).
Proof. unfold AxisHalo.total_width. mono_tac. Qed.
#[local] Hint Resolve mono_total_width : mono.

Lemma mono_predicate_axis g h s ga ix bi sp pr ir :
  mono (ShiftPredicateInserter.predicate_axis g h s ga ix bi sp pr ir).
Proof. unfold ShiftPredicateInserter.predicate_axis. mono_tac. Qed.
#[local] Hint Resolve mono_predicate_axis : mono.

(** *** What the built nodes evaluate to *)

Lemma eval_addExpr_imm env a b k r k' :
  SimplifyingIrBuilder.addExpr_imm a b k = Ok (r, k') ->
  eval env r = match eval env a with Some x => Some (x + b) | None => None end.
Proof.
  unfold SimplifyingIrBuilder.addExpr_imm.
  destruct (b =? 0) eqn:E0.
  - apply Z.eqb_eq in E0. subst b. intros [= <- <-].
    destruct (eval env a); [f_equal; lia | reflexivity].
  - destruct (value a) as [va|] eqn:Va.
    + apply value_inv in Va as [aa ->]. intros [= <- <-]. reflexivity.
    + destruct (0 <? b) eqn:Epos; unfold bind; simpl; intros [= <- <-]; simpl.
      * reflexivity.
      * apply Z.ltb_ge in Epos. apply Z.eqb_neq in E0.
        destruct (eval env a); [f_equal; lia | reflexivity].
Qed.

Lemma eval_addExpr_Int env a b k r k' :
  SimplifyingIrBuilder.addExpr_Int a b k = Ok (r, k') ->
  eval env r = match eval env a, eval env b with
               | Some x, Some y => Some (x + y)
               | _, _ => None
               end.
Proof.
  unfold SimplifyingIrBuilder.addExpr_Int.
  destruct (value a) as [va|] eqn:Va; [| destruct (value b) as [vb|] eqn:Vb].
  - apply value_inv in Va as [aa ->]. intros H.
    rewrite (eval_addExpr_imm env _ _ _ _ _ H). simpl.
    destruct (eval env b); [f_equal; lia | reflexivity].
  - apply value_inv in Vb as [ab ->]. intros H.
    rewrite (eval_addExpr_imm env _ _ _ _ _ H). simpl.
    now destruct (eval env a).
  - intros [= <- <-]. reflexivity.
Qed.

Lemma eval_SaddExpr env a b k r k' :
  SimplifyingIrBuilder.addExpr a b k = Ok (r, k') ->
  eval env r = match eval env a, eval env b with
               | Some x, Some y => Some (x + y)
               | _, _ => None
               end.
Proof.
  apply eval_addExpr_Int.
Qed.

Lemma truthy_ltExpr env a b k r k' :
  SimplifyingIrBuilder.ltExpr a b k = Ok (r, k') -> truthy env r ->
  exists x y, eval env a = Some x /\ eval env b = Some y /\ x < y.
Proof.
  unfold SimplifyingIrBuilder.ltExpr, SimplifyingIrBuilder.cmpExpr.
  intros H (z & Hz & Hnz).
  destruct (value a) as [va|] eqn:Va; [destruct (value b) as [vb|] eqn:Vb |].
  - apply value_inv in Va as [aa ->]. apply value_inv in Vb as [ab ->].
    injection H as <- <-. simpl in Hz. exists va, vb.
    destruct (va <? vb) eqn:E; [| simpl in Hz; congruence].
    apply Z.ltb_lt in E. auto.
  - injection H as <- <-. simpl in Hz.
    destruct (eval env a) as [x|], (eval env b) as [y|]; try discriminate.
    simpl in Hz. exists x, y. destruct (x <? y) eqn:E;
      [apply Z.ltb_lt in E; auto | simpl in Hz; congruence].
  - injection H as <- <-. simpl in Hz.
    destruct (eval env a) as [x|], (eval env b) as [y|]; try discriminate.
    simpl in Hz. exists x, y. destruct (x <? y) eqn:E;
      [apply Z.ltb_lt in E; auto | simpl in Hz; congruence].
Qed.

Lemma bvalue_inv x b : bvalue x = Some b -> exists a, x = BoolConst a b.
Proof. destruct x; simpl; try discriminate. intros [= ->]. now eexists. Qed.

Lemma truthy_true env a : truthy env (BoolConst a true).
Proof. exists 1. split; [reflexivity | lia]. Qed.

Lemma truthy_false env a : ~ truthy env (BoolConst a false).
Proof. intros (z & Hz & Hnz). simpl in Hz. congruence. Qed.

Lemma truthy_And env a x y :
  truthy env (BoolSym a (BinaryOp And x y)) -> truthy env x /\ truthy env y.
Proof.
  intros (z & Hz & Hnz). simpl in Hz.
  destruct (eval env x) as [vx|] eqn:Ex; [| discriminate].
  destruct (eval env y) as [vy|] eqn:Ey; [| discriminate].
  simpl in Hz. injection Hz as <-.
  destruct (vx =? 0) eqn:E1; [simpl in Hnz; congruence |].
  destruct (vy =? 0) eqn:E2; [simpl in Hnz; congruence |].
  apply Z.eqb_neq in E1, E2.
  split; [exists vx | exists vy]; auto.
Qed.

Lemma ptruthy_andExpr env a b k r k' :
  SimplifyingIrBuilder.andExpr a b k = Ok (r, k') -> ptruthy env r ->
  ptruthy env a /\ ptruthy env b.
Proof.
  unfold SimplifyingIrBuilder.andExpr.
  destruct a as [x|]; [destruct b as [y|] |].
  - destruct (bvalue x) as [[|]|] eqn:Bx; destruct (bvalue y) as [[|]|] eqn:By;
      try (apply bvalue_inv in Bx as [ax ->]);
      try (apply bvalue_inv in By as [ay ->]);
      simpl; intros [= <- <-]; simpl; intros H;
      try (now apply truthy_false in H);
      try (split; [apply truthy_true || exact H
                  | apply truthy_true || exact H]).
    now apply truthy_And in H.
  - intros [= <- <-]. simpl. intros H. split; [exact H | exact I].
  - intros [= <- <-]. intros H. split; [exact I | exact H].
Qed.

Lemma ptruthy_and_lt env predicate index limit k r k' :
  ShiftPredicateInserter.and_lt predicate index limit k = Ok (r, k') ->
  ptruthy env r ->
  ptruthy env predicate /\ index_below env index limit.
Proof.
  unfold ShiftPredicateInserter.and_lt, bind, index_below.
  destruct (SimplifyingIrBuilder.ltExpr index limit k) as [[c k1] |] eqn:E;
    [| discriminate].
  intros Hand Hr.
  destruct (ptruthy_andExpr env _ _ _ _ _ Hand Hr) as [Hp Hc].
  split; [exact Hp |]. exact (truthy_ltExpr env _ _ _ _ _ E Hc).
Qed.

Lemma shift_offset_is_Ok test shift_expr i k b k' :
  ShiftPredicateInserter.shift_offset_is test shift_expr i k = Ok (b, k') ->
  k' = k
  /\ match shift_expr with
     | Some (offsets, _) => exists o, offsets !! i = Some o /\ b = test o
     | None => b = false
     end.
Proof.
  unfold ShiftPredicateInserter.shift_offset_is.
  destruct shift_expr as [[offsets pad] |].
  - intros H. apply bind_Ok in H as (o & k1 & Ho & H).
    apply lift_Ok in Ho as [Ho ->]. injection H as <- <-.
    unfold offset in Ho. destruct (offsets !! i) as [o'|]; [| discriminate].
    injection Ho as ->. split; [reflexivity | now exists o].
  - now intros [= <- <-].
Qed.

(** What the upper-limit part adds to the predicate. *)
Lemma upper_limit_truthy env op i c p right_limit predicate k r k' :
  ShiftPredicateInserter.upper_limit_predicate
    (ShiftPredicateInserter.as_ShiftOp op)
    (ShiftPredicateInserter.as_GatherOp op) i c p right_limit predicate k
  = Ok (r, k') ->
  ptruthy env r ->
  ptruthy env predicate
  /\ match op with
     | ShiftOp offsets pad =>
         exists o, offsets !! i = Some o
                   /\ index_below env (if pad && (o <? 0) then p else c)
                                  right_limit
     | GatherOp _ _ =>
         index_below env c right_limit
         /\ (same_ptr c p = false -> index_below env p right_limit)
     | OtherOp _ => index_below env c right_limit
     end.
Proof.
  unfold ShiftPredicateInserter.upper_limit_predicate, index_below.
  intros H Hr. apply bind_Ok in H as (b & k1 & Hb & H).
  apply shift_offset_is_Ok in Hb as [-> Hb].
  destruct op as [offsets pad | ws pw | tv_op]; simpl in *.
  - destruct Hb as (o & Ho & ->).
    destruct (o <? 0) eqn:Eo; simpl in H.
    + destruct (ptruthy_and_lt env _ _ _ _ _ _ H Hr) as [Hp Hbound].
      split; [exact Hp |]. exists o. split; [exact Ho |].
      rewrite Eo, andb_true_r. exact Hbound.
    + destruct (ptruthy_and_lt env _ _ _ _ _ _ H Hr) as [Hp Hbound].
      split; [exact Hp |]. exists o. split; [exact Ho |].
      rewrite Eo, andb_false_r. exact Hbound.
  - subst b. apply bind_Ok in H as (p1 & k2 & H1 & H).
    destruct (same_ptr c p) eqn:Esame; simpl in H.
    + injection H as <- _.
      destruct (ptruthy_and_lt env _ _ _ _ _ _ H1 Hr) as [Hp Hbound].
      split; [exact Hp |]. split; [exact Hbound | discriminate].
    + destruct (ptruthy_and_lt env _ _ _ _ _ _ H Hr) as [Hp1 Hbp].
      destruct (ptruthy_and_lt env _ _ _ _ _ _ H1 Hp1) as [Hp Hbc].
      split; [exact Hp |]. split; [exact Hbc | intros _; exact Hbp].
  - subst b. exact (ptruthy_and_lt env _ _ _ _ _ _ H Hr).
Qed.

Lemma truthy_ltExpr_conv env a b k r k' x y :
  SimplifyingIrBuilder.ltExpr a b k = Ok (r, k') ->
  eval env a = Some x -> eval env b = Some y -> x < y -> truthy env r.
Proof.
  unfold SimplifyingIrBuilder.ltExpr, SimplifyingIrBuilder.cmpExpr.
  intros H Hx Hy Hlt. apply Z.ltb_lt in Hlt as Hb.
  destruct (value a) as [va|] eqn:Va; [destruct (value b) as [vb|] eqn:Vb |].
  - apply value_inv in Va as [aa ->]. apply value_inv in Vb as [ab ->].
    injection H as <- <-. simpl in Hx, Hy.
    injection Hx as ->. injection Hy as ->. rewrite Hb. apply truthy_true.
  - injection H as <- <-. exists 1. simpl. rewrite Hx, Hy. simpl.
    rewrite Hb. split; [reflexivity | lia].
  - injection H as <- <-. exists 1. simpl. rewrite Hx, Hy. simpl.
    rewrite Hb. split; [reflexivity | lia].
Qed.

Lemma truthy_And_conv env a x y :
  truthy env x -> truthy env y -> truthy env (BoolSym a (BinaryOp And x y)).
Proof.
  intros (zx & Hx & Hnx) (zy & Hy & Hny). exists 1. simpl.
  rewrite Hx, Hy. simpl.
  apply Z.eqb_neq in Hnx, Hny. rewrite Hnx, Hny.
  split; [reflexivity | lia].
Qed.

Lemma ptruthy_andExpr_conv env a b k r k' :
  SimplifyingIrBuilder.andExpr a b k = Ok (r, k') ->
  ptruthy env a -> ptruthy env b -> ptruthy env r.
Proof.
  unfold SimplifyingIrBuilder.andExpr.
  destruct a as [x|]; [destruct b as [y|] |].
  - destruct (bvalue x) as [[|]|] eqn:Bx; destruct (bvalue y) as [[|]|] eqn:By;
      try (apply bvalue_inv in Bx as [ax ->]);
      try (apply bvalue_inv in By as [ay ->]);
      simpl; intros [= <- <-]; simpl; intros Hx Hy;
      try (now apply truthy_false in Hx);
      try (now apply truthy_false in Hy);
      try apply truthy_true; try assumption.
    now apply truthy_And_conv.
  - now intros [= <- <-].
  - now intros [= <- <-].
Qed.

Lemma ptruthy_and_lt_iff env predicate index limit k r k' :
  ShiftPredicateInserter.and_lt predicate index limit k = Ok (r, k') ->
  ptruthy env r <-> ptruthy env predicate /\ index_below env index limit.
Proof.
  intros H. split; [apply (ptruthy_and_lt env _ _ _ _ _ _ H) |].
  revert H. unfold ShiftPredicateInserter.and_lt, bind.
  destruct (SimplifyingIrBuilder.ltExpr index limit k) as [[c k1] |] eqn:E;
    [| discriminate].
  intros Hand [Hp (x & y & Hx & Hy & Hlt)].
  apply (ptruthy_andExpr_conv env _ _ _ _ _ Hand Hp).
  exact (truthy_ltExpr_conv env _ _ _ _ _ _ _ E Hx Hy Hlt).
Qed.

(** The upper-limit part adds to the predicate exactly the comparisons of
    the indices with the right limit. *)
Lemma upper_limit_exact env op i c p right_limit predicate k r k' :
  ShiftPredicateInserter.upper_limit_predicate
    (ShiftPredicateInserter.as_ShiftOp op)
    (ShiftPredicateInserter.as_GatherOp op) i c p right_limit predicate k
  = Ok (r, k') ->
  ptruthy env r
  <-> ptruthy env predicate
      /\ match op with
         | ShiftOp offsets pad =>
             exists o, offsets !! i = Some o
                       /\ index_below env (if pad && (o <? 0) then p else c)
                                      right_limit
         | GatherOp _ _ =>
             index_below env c right_limit
             /\ (same_ptr c p = false -> index_below env p right_limit)
         | OtherOp _ => index_below env c right_limit
         end.
Proof.
  intros H. split; [apply (upper_limit_truthy env _ _ _ _ _ _ _ _ _ H) |].
  revert H. unfold ShiftPredicateInserter.upper_limit_predicate.
  intros H. apply bind_Ok in H as (b & k1 & Hb & H).
  apply shift_offset_is_Ok in Hb as [-> Hb].
  destruct op as [offsets pad | ws pw | tv_op]; simpl in *.
  - destruct Hb as (o & Ho & ->). intros [Hp (o' & Ho' & Hbound)].
    assert (o' = o) as -> by congruence.
    destruct (o <? 0) eqn:Eo; simpl in H.
    + rewrite andb_true_r in Hbound.
      apply (ptruthy_and_lt_iff env _ _ _ _ _ _ H). now split.
    + rewrite andb_false_r in Hbound.
      apply (ptruthy_and_lt_iff env _ _ _ _ _ _ H). now split.
  - subst b. apply bind_Ok in H as (p1 & k2 & H1 & H).
    intros [Hp [Hbc Hbp]].
    assert (Hp1 : ptruthy env p1)
      by (apply (ptruthy_and_lt_iff env _ _ _ _ _ _ H1); now split).
    destruct (same_ptr c p) eqn:Esame; simpl in H.
    + now injection H as <- _.
    + apply (ptruthy_and_lt_iff env _ _ _ _ _ _ H). split; [exact Hp1 |].
      now apply Hbp.
  - subst b. intros [Hp Hbound].
    apply (ptruthy_and_lt_iff env _ _ _ _ _ _ H). now split.
Qed.

(** The producer index of a shift is the consumer index less the offset;
    it is the consumer index itself when the offset is zero. *)
Lemma eval_getShiftProducerIndex env i c offsets pad k p k' :
  ShiftPredicateInserter.getShiftProducerIndex i c (Some (offsets, pad)) k
  = Ok (p, k') ->
  exists o, offsets !! i = Some o
            /\ eval env p = match eval env c with
                            | Some x => Some (x - o)
                            | None => None
                            end.
Proof.
  unfold ShiftPredicateInserter.getShiftProducerIndex.
  intros H. apply bind_Ok in H as (o & k1 & Ho & H).
  apply lift_Ok in Ho as [Ho ->]. unfold offset in Ho.
  destruct (offsets !! i) as [o'|]; [| discriminate]. injection Ho as ->.
  exists o. split; [reflexivity |].
  destruct (o =? 0) eqn:E0.
  - apply Z.eqb_eq in E0. subst o. injection H as <- _.
    destruct (eval env c); [f_equal; lia | reflexivity].
  - apply bind_Ok in H as (u & k2 & Hu & H).
    unfold assert_that in Hu. destruct (isInt c); [| discriminate].
    injection Hu as _ <-.
    apply bind_Ok in H as (back & k2 & Hback & H).
    apply lift_Ok in Hback as [Hback ->]. unfold negate in Hback.
    destruct (o =? INT_MIN); [discriminate |]. injection Hback as <-.
    rewrite (eval_addExpr_imm env _ _ _ _ _ H).
    destruct (eval env c); [f_equal; lia | reflexivity].
Qed.

(** The producer index of a gather axis with a window other than one is a
    new node, for the consumer index plus the window index less the
    padding. *)
Lemma eval_getGatherProducerIndex env i c ws pw indices k p k'
      wdim pad_dim pad_size pv :
  ShiftPredicateInserter.getGatherProducerIndex i c (Some (ws, pw)) indices k
  = Ok (p, k') ->
  ws !! i = Some wdim -> isOneInt wdim = false ->
  pw !! i = Some pad_dim -> pad_dim !! 0%nat = Some pad_size ->
  value pad_size = Some pv ->
  exists widx,
    indices !! ShiftPredicateInserter.gatherAxis ws i = Some widx
    /\ (k <= val_addr p)%positive
    /\ eval env p = match eval env c, eval env widx with
                    | Some x, Some y => Some (x + y - pv)
                    | _, _ => None
                    end.
Proof.
  unfold ShiftPredicateInserter.getGatherProducerIndex.
  intros H Hw Hone Hpd Hps Hpv.
  assert (Hlen : (length ws <=? i)%nat = false).
  { apply Nat.leb_gt. apply lookup_lt_Some in Hw. exact Hw. }
  rewrite Hlen in H. unfold at_index in H. rewrite Hw, Hpd in H.
  apply bind_Ok in H as (w' & k1 & E1 & H). apply lift_Ok in E1 as [[= <-] ->].
  rewrite Hone in H.
  apply bind_Ok in H as (u & k1 & E1 & H).
  unfold assert_that in E1.
  destruct (_ <? length indices)%nat; [| discriminate].
  injection E1 as _ <-.
  apply bind_Ok in H as (widx & k1 & E1 & H).
  apply lift_Ok in E1 as [E1 ->].
  destruct (indices !! ShiftPredicateInserter.gatherAxis ws i) as [widx'|];
    [| discriminate].
  injection E1 as ->.
  apply bind_Ok in H as (pd & k1 & E1 & H). apply lift_Ok in E1 as [[= <-] ->].
  rewrite Hps in H.
  apply bind_Ok in H as (ps & k1 & E1 & H). apply lift_Ok in E1 as [[= <-] ->].
  apply bind_Ok in H as (sum & k1 & E1 & H). injection E1 as <- <-.
  apply bind_Ok in H as (pad & k2 & E2 & H).
  unfold ShiftPredicateInserter.copy_Int in E2. rewrite Hpv in E2.
  injection E2 as <- <-. injection H as <- _.
  exists widx. split; [reflexivity |]. split; [simpl; lia |].
  simpl. now destruct (eval env c), (eval env widx).
Qed.

Lemma index_below_limit env index a b limit k k' :
  SimplifyingIrBuilder.addExpr a b k = Ok (limit, k') ->
  index_below env index limit ->
  exists x s w, eval env index = Some x /\ eval env a = Some s
                /\ eval env b = Some w /\ x < s + w.
Proof.
  intros Hl (x & y & Hx & Hy & Hlt).
  rewrite (eval_SaddExpr env _ _ _ _ _ Hl) in Hy.
  destruct (eval env a) as [s|]; [| discriminate].
  destruct (eval env b) as [w|]; [| discriminate].
  injection Hy as <-. now exists x, s, w.
Qed.

(** The right limit of [getPredicate] is the stop position plus the
    low-side halo width. *)
Lemma right_limit_is_stop_plus_low env index root_id info k right_limit k' :
  SimplifyingIrBuilder.addExpr (id_stop root_id) (widths_0 info) k
  = Ok (right_limit, k') ->
  index_below env index right_limit
  <-> below_stop_plus_low env index root_id info.
Proof.
  intros Hl. split; [apply (index_below_limit env _ _ _ _ _ _ Hl) |].
  intros (x & s & w & Hx & Hs & Hw & Hlt). exists x, (s + w).
  split; [exact Hx |]. split; [| exact Hlt].
  rewrite (eval_SaddExpr env _ _ _ _ _ Hl). now rewrite Hs, Hw.
Qed.

(** *** The shift predicate, exactly *)

Lemma value_eval env v z : value v = Some z -> eval env v = Some z.
Proof. intros H. apply value_inv in H as [a ->]. reflexivity. Qed.

Lemma truthy_geExpr_iff env a b k r k' :
  SimplifyingIrBuilder.geExpr a b k = Ok (r, k') ->
  truthy env r <-> index_at_least env a b.
Proof.
  unfold SimplifyingIrBuilder.geExpr, SimplifyingIrBuilder.cmpExpr,
    truthy, index_at_least.
  intros H.
  assert (Hsym : forall n,
             (exists z, eval env (BoolSym n (BinaryOp GE a b)) = Some z
                        /\ z <> 0)
             <-> exists x y, eval env a = Some x /\ eval env b = Some y
                             /\ y <= x).
  { intros n. simpl.
    destruct (eval env a) as [x|], (eval env b) as [y|]; simpl;
      try (split; [intros (z & Hz & _); discriminate
                  | intros (x' & y' & Hx & Hy & _); discriminate]).
    split.
    - intros (z & [= <-] & Hnz). exists x, y.
      destruct (x >=? y) eqn:E; [| simpl in Hnz; congruence].
      apply Z.geb_le in E. auto.
    - intros (x' & y' & [= <-] & [= <-] & Hle).
      apply Z.geb_le in Hle. rewrite Hle.
      exists 1. split; [reflexivity | lia]. }
  destruct (value a) as [va|] eqn:Va; [destruct (value b) as [vb|] eqn:Vb |].
  - apply value_inv in Va as [aa ->]. apply value_inv in Vb as [ab ->].
    injection H as <- <-. simpl. split.
    + intros (z & [= <-] & Hnz). exists va, vb.
      destruct (va >=? vb) eqn:E; [| simpl in Hnz; congruence].
      apply Z.geb_le in E. auto.
    + intros (x & y & [= <-] & [= <-] & Hle).
      apply Z.geb_le in Hle. rewrite Hle.
      exists 1. split; [reflexivity | lia].
  - injection H as <- <-. apply Hsym.
  - injection H as <- <-. apply Hsym.
Qed.

Lemma ptruthy_and_ge_iff env predicate index limit k r k' :
  ShiftPredicateInserter.and_ge predicate index limit k = Ok (r, k') ->
  ptruthy env r <-> ptruthy env predicate /\ index_at_least env index limit.
Proof.
  unfold ShiftPredicateInserter.and_ge. intros H.
  apply bind_Ok in H as (c & k1 & E & Hand).
  split.
  - intros Hr. destruct (ptruthy_andExpr env _ _ _ _ _ Hand Hr) as [Hp Hc].
    split; [exact Hp |]. exact (proj1 (truthy_geExpr_iff env _ _ _ _ _ E) Hc).
  - intros [Hp Hb]. apply (ptruthy_andExpr_conv env _ _ _ _ _ Hand Hp).
    exact (proj2 (truthy_geExpr_iff env _ _ _ _ _ E) Hb).
Qed.

Lemma and_ge_unless_zero env predicate c left_limit k r k' :
  (if negb (isZeroInt left_limit)
   then ShiftPredicateInserter.and_ge predicate c left_limit
   else ret predicate) k = Ok (r, k') ->
  ptruthy env r
  <-> ptruthy env predicate
      /\ (isZeroInt left_limit = true \/ index_at_least env c left_limit).
Proof.
  destruct (isZeroInt left_limit); simpl.
  - intros [= <- _]. split; [intros H; split; [exact H | now left] | tauto].
  - intros H. rewrite (ptruthy_and_ge_iff env _ _ _ _ _ _ H).
    split; [intros [Hp Hb]; split; [exact Hp | now right] |].
    intros [Hp [Hz | Hb]]; [discriminate | now split].
Qed.

(** The lower-limit part adds to the predicate exactly the comparisons of
    the indices with the left limit. *)
Lemma lower_limit_exact env op i c p left_limit predicate k r k' :
  ShiftPredicateInserter.lower_limit_predicate
    (ShiftPredicateInserter.as_ShiftOp op)
    (ShiftPredicateInserter.as_GatherOp op) i c p left_limit predicate k
  = Ok (r, k') ->
  ptruthy env r
  <-> ptruthy env predicate /\ lower_checks env op i c p left_limit.
Proof.
  unfold ShiftPredicateInserter.lower_limit_predicate, lower_checks.
  intros H. apply bind_Ok in H as (b & k1 & Hb & H).
  apply shift_offset_is_Ok in Hb as [-> Hb].
  destruct op as [offsets pad | ws pw | tv_op]; simpl in *.
  - destruct Hb as (o & Ho & ->).
    destruct (0 <? o) eqn:Eo.
    + rewrite (ptruthy_and_ge_iff env _ _ _ _ _ _ H). split.
      * intros [Hp Hbound]. split; [exact Hp |]. exists o.
        split; [exact Ho |]. now rewrite Eo.
      * intros [Hp (o' & Ho' & Hbound)]. split; [exact Hp |].
        assert (o' = o) as -> by congruence. now rewrite Eo in Hbound.
    + rewrite (and_ge_unless_zero env _ _ _ _ _ _ H). split.
      * intros [Hp Hbound]. split; [exact Hp |]. exists o.
        split; [exact Ho |]. now rewrite Eo.
      * intros [Hp (o' & Ho' & Hbound)]. split; [exact Hp |].
        assert (o' = o) as -> by congruence. now rewrite Eo in Hbound.
  - subst b. apply bind_Ok in H as (p1 & k2 & H1 & H).
    destruct (same_ptr c p) eqn:Esame; simpl in H.
    + injection H as <- _. rewrite (ptruthy_and_ge_iff env _ _ _ _ _ _ H1).
      split; [intros [Hp Hb]; split; [exact Hp | split; [exact Hb |]] | tauto].
      discriminate.
    + rewrite (ptruthy_and_ge_iff env _ _ _ _ _ _ H).
      rewrite (ptruthy_and_ge_iff env _ _ _ _ _ _ H1). tauto.
  - subst b. exact (and_ge_unless_zero env _ _ _ _ _ _ H).
Qed.

(** The left limit of [getPredicate] folds to a known zero exactly when the
    low-side width and the start of the axis are constants that cancel. *)
Lemma left_limit_zero info root_id k left_limit k' :
  SimplifyingIrBuilder.addExpr (widths_0 info) (id_start root_id) k
  = Ok (left_limit, k') ->
  isZeroInt left_limit = true <-> known_zero_limit info root_id.
Proof.
  unfold SimplifyingIrBuilder.addExpr, SimplifyingIrBuilder.addExpr_Int,
    SimplifyingIrBuilder.addExpr_imm, known_zero_limit.
  set (w := widths_0 info). set (s := id_start root_id).
  destruct (value w) as [va|] eqn:Va.
  - destruct (va =? 0) eqn:E0.
    + apply Z.eqb_eq in E0. subst va. intros [= <- _].
      rewrite isZeroInt_value. split.
      * intros Hs. exists 0, 0. auto.
      * intros (a & b & [= <-] & Hb & Hsum). rewrite Hb. f_equal. lia.
    + apply Z.eqb_neq in E0.
      destruct (value s) as [vb|] eqn:Vb.
      * intros [= <- _]. simpl. rewrite Z.eqb_eq. split.
        -- intros Hsum. exists va, vb. split; [reflexivity |].
           split; [reflexivity | lia].
        -- intros (a & b & [= <-] & [= <-] & Hsum). lia.
      * intros H. split.
        -- intros Hz. exfalso. revert H Hz.
           destruct (0 <? va); unfold bind, IrBuilder.create_Int,
             IrBuilder.addExpr, IrBuilder.subExpr,
             IrBuilder.newArithmeticExpr;
             intros [= <- _]; discriminate.
        -- intros (a & b & _ & Hb & _). discriminate.
  - destruct (value s) as [vb|] eqn:Vb.
    + intros H. split.
      * intros Hz. exfalso. revert H Hz.
        destruct (vb =? 0).
        -- intros [= <- _]. rewrite isZeroInt_value. congruence.
        -- destruct (0 <? vb); unfold bind, IrBuilder.create_Int,
             IrBuilder.addExpr, IrBuilder.subExpr,
             IrBuilder.newArithmeticExpr;
             intros [= <- _]; discriminate.
      * intros (a & b & Ha & _). discriminate.
    + intros H. split.
      * intros Hz. exfalso. revert H Hz.
        unfold IrBuilder.addExpr, IrBuilder.newArithmeticExpr.
        intros [= <- _]. discriminate.
      * intros (a & b & Ha & _). discriminate.
Qed.

Lemma index_at_least_limit env index a b limit k k' :
  SimplifyingIrBuilder.addExpr a b k = Ok (limit, k') ->
  index_at_least env index limit
  <-> exists x w s, eval env index = Some x /\ eval env a = Some w
                    /\ eval env b = Some s /\ w + s <= x.
Proof.
  intros Hl. unfold index_at_least.
  rewrite (eval_SaddExpr env _ _ _ _ _ Hl). split.
  - intros (x & y & Hx & Hy & Hle).
    destruct (eval env a) as [w|]; [| discriminate].
    destruct (eval env b) as [s|]; [| discriminate].
    injection Hy as <-. now exists x, w, s.
  - intros (x & w & s & Hx & -> & -> & Hle). now exists x, (w + s).
Qed.

Lemma index_below_limit_iff env index a b limit k k' :
  SimplifyingIrBuilder.addExpr a b k = Ok (limit, k') ->
  index_below env index limit
  <-> exists x s w, eval env index = Some x /\ eval env a = Some s
                    /\ eval env b = Some w /\ x < s + w.
Proof.
  intros Hl. split; [apply (index_below_limit env _ _ _ _ _ _ Hl) |].
  intros (x & s & w & Hx & Hs & Hw & Hlt). exists x, (s + w).
  split; [exact Hx |]. split; [| exact Hlt].
  rewrite (eval_SaddExpr env _ _ _ _ _ Hl). now rewrite Hs, Hw.
Qed.

(** What [getGatherProducerIndex] returns: the consumer index itself, or a
    new node for an axis with a window other than one. *)
Lemma getGatherProducerIndex_cases i c ws pw indices k p k' :
  ShiftPredicateInserter.getGatherProducerIndex i c (Some (ws, pw)) indices k
  = Ok (p, k') ->
  p = c
  \/ exists wdim pad_dim pad_size,
      ws !! i = Some wdim /\ isOneInt wdim = false
      /\ pw !! i = Some pad_dim /\ pad_dim !! 0%nat = Some pad_size.
Proof.
  unfold ShiftPredicateInserter.getGatherProducerIndex.
  destruct (length ws <=? i)%nat; [intros [= <- _]; now left |].
  intros H. apply bind_Ok in H as (w & k1 & E1 & H).
  apply lift_Ok in E1 as [E1 ->]. unfold at_index in E1.
  destruct (ws !! i) as [w'|] eqn:Hw; [| discriminate]. injection E1 as ->.
  destruct (isOneInt w) eqn:Hone; [injection H as <- _; now left |].
  right.
  apply bind_Ok in H as (u & k1 & _ & H).
  apply bind_Ok in H as (widx & k2 & _ & H).
  apply bind_Ok in H as (pd & k3 & E3 & H).
  apply lift_Ok in E3 as [E3 ->]. unfold at_index in E3.
  destruct (pw !! i) as [pd'|] eqn:Hpd; [| discriminate]. injection E3 as ->.
  apply bind_Ok in H as (ps & k4 & E4 & H).
  apply lift_Ok in E4 as [E4 ->]. unfold at_index in E4.
  destruct (pd !! 0%nat) as [ps'|] eqn:Hps; [| discriminate].
  injection E4 as ->.
  now exists w, pd, ps.
Qed.

Lemma same_ptr_refl c : same_ptr c c = true.
Proof. unfold same_ptr. now apply bool_decide_eq_true_2. Qed.

(** Over the nodes the loop body of [getPredicate] builds at root axis [i],
    the comparisons it adds say exactly that the two bounds of the axis
    hold. *)
Lemma axis_checks_bounds env op indices i root_id info c left_limit
      right_limit p k1 k2 k3 k4 :
  indices !! i = Some c ->
  (val_addr c < k3)%positive ->
  constant_padding op ->
  SimplifyingIrBuilder.addExpr (widths_0 info) (id_start root_id) k1
  = Ok (left_limit, k2) ->
  SimplifyingIrBuilder.addExpr (id_stop root_id) (widths_0 info) k2
  = Ok (right_limit, k3) ->
  (if ShiftPredicateInserter.non_null (ShiftPredicateInserter.as_ShiftOp op)
   then ShiftPredicateInserter.getShiftProducerIndex i c
          (ShiftPredicateInserter.as_ShiftOp op)
   else if ShiftPredicateInserter.non_null
             (ShiftPredicateInserter.as_GatherOp op)
   then ShiftPredicateInserter.getGatherProducerIndex i c
          (ShiftPredicateInserter.as_GatherOp op) indices
   else lift (at_index "indices" indices i)) k3 = Ok (p, k4) ->
  lower_checks env op i c p left_limit /\ upper_checks env op i c p right_limit
  <-> lower_bound_holds env op indices i root_id info
      /\ upper_bound_holds env op indices i root_id info.
Proof.
  intros Hci Hfresh Hpad Hleft Hright Hprod.
  pose proof (fun index => index_at_least_limit env index _ _ _ _ _ Hleft)
    as LA.
  pose proof (fun index => index_below_limit_iff env index _ _ _ _ _ Hright)
    as RB.
  pose proof (left_limit_zero _ _ _ _ _ Hleft) as LZ.
  assert (Hzero : known_zero_limit info root_id ->
                  exists w s, eval env (widths_0 info) = Some w
                              /\ eval env (id_start root_id) = Some s).
  { intros (a & b & Ha & Hb & _). exists a, b.
    split; now apply value_eval. }
  unfold lower_checks, upper_checks, lower_bound_holds, upper_bound_holds.
  destruct op as [offsets pad | ws pw | tv_op];
    cbn [ShiftPredicateInserter.as_ShiftOp ShiftPredicateInserter.as_GatherOp
         ShiftPredicateInserter.non_null] in Hprod.
  - (* shift *)
    destruct (eval_getShiftProducerIndex env _ _ _ _ _ _ _ Hprod)
      as (o & Ho & Hp).
    split.
    + intros [(o1 & Ho1 & HL) (o2 & Ho2 & HU)].
      assert (o1 = o) as -> by congruence.
      assert (o2 = o) as -> by congruence.
      apply RB in HU as (x & s' & w & Hx & Hs' & Hw & Hlt).
      assert (exists cv, eval env c = Some cv
                         /\ if pad && (o <? 0) then x = cv - o else x = cv)
        as (cv & Hcv & Hxcv).
      { destruct (pad && (o <? 0)).
        - rewrite Hp in Hx. destruct (eval env c) as [cv|]; [| discriminate].
          injection Hx as <-. now exists cv.
        - now exists x. }
      split.
      * destruct (0 <? o) eqn:Eo.
        -- apply LA in HL as (x' & w' & s & Hx' & Hw' & Hs & Hle).
           exists cv, s, w'.
           split; [now exists c |]. split; [exact Hs |]. split; [exact Hw' |].
           exists o. split; [exact Ho |]. rewrite Eo.
           destruct pad.
           ++ rewrite Hp, Hcv in Hx'. injection Hx' as <-. exact Hle.
           ++ rewrite Hcv in Hx'. injection Hx' as <-. exact Hle.
        -- destruct HL as [Hz | HL].
           ++ apply LZ in Hz. destruct (Hzero Hz) as (w' & s & Hw' & Hs).
              exists cv, s, w'.
              split; [now exists c |]. split; [exact Hs |].
              split; [exact Hw' |].
              exists o. split; [exact Ho |]. rewrite Eo. now left.
           ++ apply LA in HL as (x' & w' & s & Hx' & Hw' & Hs & Hle).
              exists cv, s, w'.
              split; [now exists c |]. split; [exact Hs |].
              split; [exact Hw' |].
              exists o. split; [exact Ho |]. rewrite Eo. right.
              rewrite Hcv in Hx'. injection Hx' as <-. exact Hle.
      * exists cv, s', w.
        split; [now exists c |]. split; [exact Hs' |]. split; [exact Hw |].
        exists o. split; [exact Ho |].
        destruct (pad && (o <? 0)); subst x; exact Hlt.
    + intros [(cv & s & w & (idx & Hidx & Hcv) & Hs & Hw & o1 & Ho1 & HL)
              (cv' & s' & w' & (idx' & Hidx' & Hcv') & Hs' & Hw' & o2 & Ho2
               & HU)].
      assert (idx = c) as -> by congruence.
      assert (idx' = c) as -> by congruence.
      assert (o1 = o) as -> by congruence.
      assert (o2 = o) as -> by congruence.
      assert (cv' = cv) as -> by congruence.
      rewrite Hcv in Hp.
      split.
      * exists o. split; [exact Ho |].
        destruct (0 <? o).
        -- apply LA. destruct pad.
           ++ now exists (cv - o), w, s.
           ++ now exists cv, w, s.
        -- destruct HL as [Hz | Hle]; [left; now apply LZ |].
           right. apply LA. now exists cv, w, s.
      * exists o. split; [exact Ho |]. apply RB.
        destruct (pad && (o <? 0)).
        -- now exists (cv - o), s', w'.
        -- now exists cv, s', w'.
  - (* gather *)
    split.
    + intros [[HLc HLp] [HUc HUp]].
      apply LA in HLc as (x & w & s & Hx & Hw & Hs & Hle).
      apply RB in HUc as (x' & s' & w' & Hx' & Hs' & Hw' & Hlt).
      assert (x' = x) as -> by congruence.
      assert (w' = w) as -> by congruence.
      split.
      * exists x, s, w.
        split; [now exists c |]. split; [exact Hs |]. split; [exact Hw |].
        split; [exact Hle |].
        intros wdim pad_dim pad_size pv Hwd Hone Hpd Hps Hpv.
        destruct (eval_getGatherProducerIndex env _ _ _ _ _ _ _ _ _ _ _ _
                    Hprod Hwd Hone Hpd Hps Hpv) as (widx & Hwi & Haddr & Hp).
        assert (Hsame : same_ptr c p = false).
        { unfold same_ptr. apply bool_decide_eq_false_2. lia. }
        apply HLp in Hsame.
        apply LA in Hsame as (y & w2 & s2 & Hy & Hw2 & Hs2 & Hle2).
        rewrite Hp, Hx in Hy.
        destruct (eval env widx) as [z|] eqn:Ez; [| discriminate].
        injection Hy as <-. exists widx, z.
        split; [exact Hwi |]. split; [exact Ez |].
        assert (w2 = w) as -> by congruence.
        assert (s2 = s) as -> by congruence. exact Hle2.
      * exists x, s', w.
        split; [now exists c |]. split; [exact Hs' |]. split; [exact Hw |].
        split; [exact Hlt |].
        intros wdim pad_dim pad_size pv Hwd Hone Hpd Hps Hpv.
        destruct (eval_getGatherProducerIndex env _ _ _ _ _ _ _ _ _ _ _ _
                    Hprod Hwd Hone Hpd Hps Hpv) as (widx & Hwi & Haddr & Hp).
        assert (Hsame : same_ptr c p = false).
        { unfold same_ptr. apply bool_decide_eq_false_2. lia. }
        apply HUp in Hsame.
        apply RB in Hsame as (y & s2 & w2 & Hy & Hs2 & Hw2 & Hlt2).
        rewrite Hp, Hx in Hy.
        destruct (eval env widx) as [z|] eqn:Ez; [| discriminate].
        injection Hy as <-. exists widx, z.
        split; [exact Hwi |]. split; [exact Ez |].
        assert (w2 = w) as -> by congruence.
        assert (s2 = s') as -> by congruence. exact Hlt2.
    + intros [(cv & s & w & (idx & Hidx & Hcv) & Hs & Hw & HLc & HLp)
              (cv' & s' & w' & (idx' & Hidx' & Hcv') & Hs' & Hw' & HUc
               & HUp)].
      assert (idx = c) as -> by congruence.
      assert (idx' = c) as -> by congruence.
      assert (cv' = cv) as -> by congruence.
      assert (w' = w) as -> by congruence.
      assert (Hpv : same_ptr c p = false ->
                exists wdim pad_dim pad_size pv widx,
                  ws !! i = Some wdim /\ isOneInt wdim = false
                  /\ pw !! i = Some pad_dim
                  /\ pad_dim !! 0%nat = Some pad_size
                  /\ value pad_size = Some pv
                  /\ indices !! ShiftPredicateInserter.gatherAxis ws i
                     = Some widx
                  /\ eval env p = match eval env widx with
                                  | Some y => Some (cv + y - pv)
                                  | None => None
                                  end).
      { intros Hsame.
        destruct (getGatherProducerIndex_cases _ _ _ _ _ _ _ _ Hprod)
          as [-> | (wdim & pad_dim & pad_size & Hwd & Hone & Hpd & Hps)].
        { rewrite same_ptr_refl in Hsame. discriminate. }
        assert (Hin : pad_dim ∈ pw)
          by (apply list_elem_of_lookup; now exists i).
        destruct (Hpad pad_dim pad_size Hin Hps) as [pv Hpv].
        destruct (eval_getGatherProducerIndex env _ _ _ _ _ _ _ _ _ _ _ _
                    Hprod Hwd Hone Hpd Hps Hpv) as (widx & Hwi & _ & Hp).
        rewrite Hcv in Hp.
        now exists wdim, pad_dim, pad_size, pv, widx. }
      split.
      * split; [apply LA; now exists cv, w, s |].
        intros Hsame.
        destruct (Hpv Hsame)
          as (wdim & pad_dim & pad_size & pv & widx & Hwd & Hone & Hpd & Hps
              & Hval & Hwi & Hp).
        destruct (HLp _ _ _ _ Hwd Hone Hpd Hps Hval)
          as (widx' & y & Hwi' & Hy & Hle).
        assert (widx' = widx) as -> by congruence.
        rewrite Hy in Hp. apply LA. now exists (cv + y - pv), w, s.
      * split; [apply RB; now exists cv, s', w |].
        intros Hsame.
        destruct (Hpv Hsame)
          as (wdim & pad_dim & pad_size & pv & widx & Hwd & Hone & Hpd & Hps
              & Hval & Hwi & Hp).
        destruct (HUp _ _ _ _ Hwd Hone Hpd Hps Hval)
          as (widx' & y & Hwi' & Hy & Hlt).
        assert (widx' = widx) as -> by congruence.
        rewrite Hy in Hp. apply RB. now exists (cv + y - pv), s', w.
  - (* any other expression *)
    apply lift_Ok in Hprod as [Hprod _]. unfold at_index in Hprod.
    rewrite Hci in Hprod. injection Hprod as <-.
    split.
    + intros [HL HU].
      apply RB in HU as (x & s' & w & Hx & Hs' & Hw & Hlt).
      split.
      * destruct HL as [Hz | HL].
        -- apply LZ in Hz. destruct (Hzero Hz) as (w' & s & Hw' & Hs).
           exists x, s, w'.
           split; [now exists c |]. split; [exact Hs |].
           split; [exact Hw' | now left].
        -- apply LA in HL as (x' & w' & s & Hx' & Hw' & Hs & Hle).
           exists x, s, w'.
           split; [now exists c |]. split; [exact Hs |].
           split; [exact Hw' |]. right.
           assert (x' = x) as -> by congruence. exact Hle.
      * exists x, s', w.
        split; [now exists c |]. split; [exact Hs' |].
        split; [exact Hw | exact Hlt].
    + intros [(cv & s & w & (idx & Hidx & Hcv) & Hs & Hw & HL)
              (cv' & s' & w' & (idx' & Hidx' & Hcv') & Hs' & Hw' & HU)].
      assert (idx = c) as -> by congruence.
      assert (idx' = c) as -> by congruence.
      split.
      * destruct HL as [Hz | Hle]; [left; now apply LZ |].
        right. apply LA. now exists cv, w, s.
      * apply RB. now exists cv', s', w'.
Qed.

Lemma Forall_fresh_mono (indices : list Val) k k1 :
  (k <= k1)%positive ->
  Forall (fun v => (val_addr v < k)%positive) indices ->
  Forall (fun v => (val_addr v < k1)%positive) indices.
Proof.
  intros Hle HF. eapply Forall_impl; [exact HF |].
  intros v Hv. simpl in *. lia.
Qed.

(** One round of the loop of [getPredicate], shift flavour: a skipped axis
    leaves the predicate as it is; any other axis adds exactly its two
    bounds. *)
Lemma predicate_axis_exact env g h op indices buffer_init predicate i id
      k r k' :
  ShiftPredicateInserter.predicate_axis g h
    (ShiftPredicateInserter.as_ShiftOp op)
    (ShiftPredicateInserter.as_GatherOp op) indices buffer_init true
    predicate (i, id) k = Ok (r, k') ->
  Forall (fun v => (val_addr v < k)%positive) indices ->
  constant_padding op ->
  if ShiftPredicateInserter.skipped g buffer_init id then r = predicate
  else exists info,
      Halo.getRootAxisInfo h id = Ok info
      /\ (ptruthy env r
          <-> ptruthy env predicate
              /\ lower_bound_holds env op indices i id info
              /\ upper_bound_holds env op indices i id info).
Proof.
  unfold ShiftPredicateInserter.predicate_axis.
  destruct (ShiftPredicateInserter.skipped g buffer_init id).
  { now intros [= <- _] _ _. }
  intros H Hfresh Hpad.
  apply bind_Ok in H as (info & k0 & E & H). apply lift_Ok in E as [Hinfo ->].
  apply bind_Ok in H as (c & k0 & E & H). apply lift_Ok in E as [Hc ->].
  unfold at_index in Hc.
  destruct (indices !! i) as [c'|] eqn:Hci; [| discriminate].
  injection Hc as ->.
  apply bind_Ok in H as (left_limit & k1 & Hleft & H).
  apply bind_Ok in H as (right_limit & k2 & Hright & H).
  apply bind_Ok in H as (p & k3 & Hprod & H).
  apply bind_Ok in H as (p1 & k4 & Hlower & Hupper).
  exists info. split; [exact Hinfo |].
  assert (Hcaddr : (val_addr c < k2)%positive).
  { assert ((val_addr c < k)%positive).
    { rewrite Forall_forall in Hfresh. apply Hfresh.
      apply list_elem_of_lookup. now exists i. }
    pose proof (mono_addExpr _ _ _ _ _ Hleft).
    pose proof (mono_addExpr _ _ _ _ _ Hright). lia. }
  assert (HU : ptruthy env r
               <-> ptruthy env p1 /\ upper_checks env op i c p right_limit)
    by exact (upper_limit_exact env _ _ _ _ _ _ _ _ _ Hupper).
  pose proof (lower_limit_exact env _ _ _ _ _ _ _ _ _ Hlower) as HL.
  pose proof (axis_checks_bounds env op indices i id info c left_limit
                right_limit p k k1 k2 k3 Hci Hcaddr Hpad Hleft Hright Hprod)
    as HB.
  rewrite HU, HL. tauto.
Qed.

(** The loop of [getPredicate], shift flavour. *)
Lemma predicate_loop_exact env g h op indices buffer_init axes :
  forall predicate k r k',
    foldM (ShiftPredicateInserter.predicate_axis g h
             (ShiftPredicateInserter.as_ShiftOp op)
             (ShiftPredicateInserter.as_GatherOp op) indices buffer_init true)
          axes predicate k = Ok (r, k') ->
    Forall (fun v => (val_addr v < k)%positive) indices ->
    constant_padding op ->
    ptruthy env r
    <-> ptruthy env predicate
        /\ forall i id,
            In (i, id) axes ->
            ShiftPredicateInserter.skipped g buffer_init id = false ->
            exists info,
              Halo.getRootAxisInfo h id = Ok info
              /\ lower_bound_holds env op indices i id info
              /\ upper_bound_holds env op indices i id info.
Proof.
  induction axes as [| [j jd] axes IH];
    intros predicate k r k' H Hfresh Hpad.
  - injection H as <- _. split; [intros Hr; split; [exact Hr |] | tauto].
    intros i id [].
  - cbn [foldM] in H. apply bind_Ok in H as (p1 & k1 & Haxis & Hrest).
    assert (Hk1 : (k <= k1)%positive)
      by exact (mono_predicate_axis _ _ _ _ _ _ _ _ _ _ _ _ Haxis).
    rewrite (IH _ _ _ _ Hrest (Forall_fresh_mono _ _ _ Hk1 Hfresh) Hpad).
    pose proof (predicate_axis_exact env _ _ _ _ _ _ _ _ _ _ _
                  Haxis Hfresh Hpad) as Hhere.
    destruct (ShiftPredicateInserter.skipped g buffer_init jd) eqn:Eskip.
    + subst p1. split.
      * intros [Hp Hall]. split; [exact Hp |].
        intros i id [[= <- <-] | Hin] Hs; [congruence | now apply Hall].
      * intros [Hp Hall]. split; [exact Hp |].
        intros i id Hin. apply Hall. now right.
    + destruct Hhere as (info & Hinfo & Hiff). rewrite Hiff. split.
      * intros [[Hp [HL HU]] Hall]. split; [exact Hp |].
        intros i id [[= <- <-] | Hin] Hs; [now exists info | now apply Hall].
      * intros [Hp Hall]. split.
        -- split; [exact Hp |].
           destruct (Hall j jd (or_introl eq_refl) Eskip)
             as (info' & Hinfo' & HLU).
           assert (info' = info) as -> by congruence. exact HLU.
        -- intros i id Hin. apply Hall. now right.
Qed.

(** The end of [getPredicate]: the thread predicate is one more conjunct. *)
Lemma merge_thread_pred_exact env predicate thread_pred k r k' :
  ShiftPredicateInserter.merge_thread_pred predicate thread_pred k
  = Ok (r, k') ->
  ptruthy env r <-> ptruthy env predicate /\ truthy env thread_pred.
Proof.
  unfold ShiftPredicateInserter.merge_thread_pred.
  destruct (bvalue thread_pred) as [[|]|] eqn:B.
  - apply bvalue_inv in B as [a ->]. intros [= <- _].
    split; [intros H; split; [exact H | apply truthy_true] | tauto].
  - apply bvalue_inv in B as [a ->]. intros [= <- _]. simpl. split.
    + intros H. now apply truthy_false in H.
    + intros [_ H]. now apply truthy_false in H.
  - intros H. split.
    + exact (ptruthy_andExpr env _ _ _ _ _ H).
    + intros [Hp Ht]. exact (ptruthy_andExpr_conv env _ _ _ _ _ H Hp Ht).
Qed.

(** The loop of [getPredicate] skips broadcast axes, reduction axes of a
    buffer initialisation, and axes derived from trivial reductions. *)
Lemma skipped_false g buffer_init id :
  ShiftPredicateInserter.skipped g buffer_init id = false
  <-> id_isBroadcast id = false
      /\ buffer_init && id_isReduction id = false
      /\ isDerived g id = false.
Proof.
  unfold ShiftPredicateInserter.skipped.
  destruct (id_isBroadcast id), (buffer_init && id_isReduction id),
    (isDerived g id); simpl; intuition discriminate.
Qed.

(** C7 (amended). The shift predicate that [getPredicate] builds (other
    than for a reduction-buffer initialisation in local memory) holds in a
    kernel state exactly when the thread predicate holds and every root axis
    that is not skipped (a broadcast, a reduction axis of a buffer
    initialisation, or an axis derived from a trivial reduction) is within
    its two bounds. The upper bound of an axis
    compares the index (the producer index for a padded shift by a negative
    offset, else the consumer index, and for a gather the producer index
    too) strictly below [stop + width(0)], the stop position of the axis
    plus its low-side halo width. (The paddings of a gather are
    constants.) *)
Theorem shift_predicate_upper_bound
    (g : GpuLower) (h : HaloInfo) (definition : Expr) (indices : list Val)
    (buffer_init : bool) (out_tv : TensorView) (thread_pred : Val)
    (k k' : Kernel) (r : Val) (env : addr -> option Z) :
  ShiftPredicateInserter.getPredicate g h definition (indices, buffer_init)
    out_tv thread_pred true k = Ok (Some r, k') ->
  bool_decide (tv_memoryType out_tv = Local) && buffer_init = false ->
  Forall (fun v => (val_addr v < k)%positive) indices ->
  constant_padding (expr_op definition) ->
  truthy env r
  <-> truthy env thread_pred
      /\ forall i id,
          td_root (tv_domain out_tv) !! i = Some id ->
          id_isBroadcast id = false ->
          buffer_init && id_isReduction id = false ->
          isDerived g id = false ->
          exists info,
            Halo.getRootAxisInfo h id = Ok info
            /\ lower_bound_holds env (expr_op definition) indices i id info
            /\ upper_bound_holds env (expr_op definition) indices i id info.
Proof.
  intros Hget Hno_exit Hfresh Hpad.
  assert (Hneeds : Halo.needsShiftPredicate h definition = Ok true).
  { unfold ShiftPredicateInserter.getPredicate in Hget.
    apply bind_Ok in Hget as (b & k0 & Hb & Hget).
    apply lift_Ok in Hb as [Hb ->].
    apply bind_Ok in Hget as (u & k0 & Ha & _).
    destruct b; [exact Hb | discriminate]. }
  rewrite getPredicate_start in Hget by exact Hneeds.
  simpl in Hget. rewrite Hno_exit in Hget.
  apply bind_Ok in Hget as (u & k0 & Ha & Hget).
  assert (k0 = k) as ->.
  { unfold assert_that in Ha. destruct (_ =? _)%nat; [| discriminate].
    now injection Ha as _ <-. }
  apply bind_Ok in Hget as (predicate & k1 & Hloop & Hmerge).
  change (truthy env r) with (ptruthy env (Some r)).
  rewrite (merge_thread_pred_exact env _ _ _ _ _ Hmerge).
  rewrite (predicate_loop_exact env _ _ _ _ _ _ _ _ _ _ Hloop Hfresh Hpad).
  simpl. split.
  - intros [[_ Hall] Ht]. split; [exact Ht |].
    intros i id Hroot Hb Hr Hd. apply Hall; [now apply In_indexed |].
    now apply skipped_false.
  - intros [Ht Hall]. split; [| exact Ht]. split; [exact I |].
    intros i id Hin Hs. apply skipped_false in Hs as (Hb & Hr & Hd).
    apply Hall; [now apply In_indexed | assumption ..].
Qed.

Lemma shift_predicate_upper_bound_witness :
  exists r k',
    ShiftPredicateInserter.getPredicate Sample.lower Sample.blank
      (Sample.unary (ShiftOp [-2] true) Sample.T1 Sample.T2)
      ([IntSym 200 NoDef], false) Sample.T2 (BoolConst 60 true) true
      1000%positive = Ok (Some r, k')
    /\ (truthy (Sample.state 5) r
        <-> truthy (Sample.state 5) (BoolConst 60 true)
            /\ forall i id,
                td_root (tv_domain Sample.T2) !! i = Some id ->
                id_isBroadcast id = false ->
                false && id_isReduction id = false ->
                isDerived Sample.lower id = false ->
                exists info,
                  Halo.getRootAxisInfo Sample.blank id = Ok info
                  /\ lower_bound_holds (Sample.state 5) (ShiftOp [-2] true)
                       [IntSym 200 NoDef] i id info
                  /\ upper_bound_holds (Sample.state 5) (ShiftOp [-2] true)
                       [IntSym 200 NoDef] i id info).
Proof.
  eexists _, _. split; [vm_compute; reflexivity |].
  eapply (shift_predicate_upper_bound Sample.lower Sample.blank
           (Sample.unary (ShiftOp [-2] true) Sample.T1 Sample.T2)
           [IntSym 200 NoDef] false Sample.T2 (BoolConst 60 true)
           1000%positive _ _ (Sample.state 5)).
  - vm_compute. reflexivity.
  - reflexivity.
  - repeat constructor.
  - exact I.
Defined.

(** C7 as stated fails. In [T1 = T0 + 1; T2 = shift(T1, {-2})] the axis of
    [T1] has the halo widths (0, 2) and extent 10. Its shift predicate is
    [c < N]: it is false at [c = 11], which is below the stop position plus
    the high-side width, 10 + 2. *)
Lemma shift_predicate_upper_bound_counterexample :
  exists h r k',
    Sample.analysed Sample.negative_shift = Ok h
    /\ Sample.root_halo h Sample.T1 = Some (0, 2)
    /\ ShiftPredicateInserter.getPredicate Sample.lower h
         (Sample.unary (OtherOp true) Sample.T0 Sample.T1)
         ([IntSym 200 NoDef], false) Sample.T1 (BoolConst 60 true) true
         2000%positive = Ok (Some r, k')
    /\ definition r
       = BinaryOp LT (IntSym 200 NoDef) (id_stop (Sample.axis 2 false))
    /\ eval (Sample.state 11) r = Some 0
    /\ eval (Sample.state 11) (IntSym 200 NoDef) = Some 11
    /\ eval (Sample.state 11) (id_stop (Sample.axis 2 false)) = Some 10
    /\ 11 < 10 + 2.
Proof.
  eexists _, _, _. repeat split; vm_compute; reflexivity.
Qed.

(** ** Further properties of the analysis *)

(** *** The table of root-axis halo *)

(** X1. What [setRootAxisInfo] stores for a root axis (an axis without
    definition, or an rfactor product) is what both [getRootAxisInfo] return
    for it afterwards; the entries of all other axes, the extent map and the
    halo-width map stay as they were. For an axis that is not a root axis the
    three functions fail on their first assertion. *)
Theorem root_axis_info_round_trip
    (h : HaloInfo) (id : IterDomain) (info : AxisHaloInfo) :
  (id_definition id = RootAxis \/ id_isRFactorProduct id = true ->
   exists h',
     Halo.setRootAxisInfo h id info = Ok h'
     /\ Halo.getRootAxisInfo h' id = Ok info
     /\ Halo.getRootAxisInfo_kir h' id = Ok info
     /\ (forall id', id_addr id' <> id_addr id ->
           Halo.getRootAxisInfo h' id' = Halo.getRootAxisInfo h id'
           /\ Halo.getRootAxisInfo_kir h' id' = Halo.getRootAxisInfo_kir h id')
     /\ kir_extent_map_ h' = kir_extent_map_ h
     /\ halo_width_map_ h' = halo_width_map_ h)
  /\ (id_definition id <> RootAxis -> id_isRFactorProduct id = false ->
      Halo.setRootAxisInfo h id info
      = Fail (InternalAssert "Invalid IterDomain")
      /\ Halo.getRootAxisInfo h id = Fail (InternalAssert "Invalid IterDomain")
      /\ Halo.getRootAxisInfo_kir h id
         = Fail (InternalAssert "Invalid IterDomain")).
Proof.
  split.
  - intros Hroot.
    assert (Hr : Halo.is_root id = true).
    { unfold Halo.is_root. destruct Hroot as [-> | ->]; [reflexivity |].
      now destruct (id_definition id). }
    unfold Halo.setRootAxisInfo. rewrite Hr. eexists. split; [reflexivity |].
    unfold Halo.getRootAxisInfo, Halo.getRootAxisInfo_kir. simpl.
    rewrite Hr, !lookup_insert_eq.
    repeat split; try reflexivity;
      destruct (Halo.is_root id'); try reflexivity;
      now rewrite lookup_insert_ne by congruence.
  - intros Hdef Hrf.
    assert (Hr : Halo.is_root id = false).
    { unfold Halo.is_root. rewrite Hrf. now destruct (id_definition id). }
    unfold Halo.setRootAxisInfo, Halo.getRootAxisInfo, Halo.getRootAxisInfo_kir.
    now rewrite Hr.
Qed.

Lemma root_axis_info_round_trip_witness :
  exists h',
    Halo.setRootAxisInfo Sample.blank (Sample.axis 2 false)
      (mkAxisHaloInfo (IntConst 12 3) (IntConst 13 0)) = Ok h'
    /\ Halo.getRootAxisInfo h' (Sample.axis 2 false)
       = Ok (mkAxisHaloInfo (IntConst 12 3) (IntConst 13 0))
    /\ Halo.getRootAxisInfo_kir h' (Sample.axis 2 false)
       = Ok (mkAxisHaloInfo (IntConst 12 3) (IntConst 13 0))
    /\ Halo.setRootAxisInfo Sample.blank Sample.inner
         (mkAxisHaloInfo (IntConst 12 3) (IntConst 13 0))
       = Fail (InternalAssert "Invalid IterDomain").
Proof.
  destruct (proj1 (root_axis_info_round_trip Sample.blank (Sample.axis 2 false)
                     (mkAxisHaloInfo (IntConst 12 3) (IntConst 13 0)))
                  (or_introl eq_refl))
    as (h' & Hset & Hget & Hkir & _).
  exists h'. split; [exact Hset |]. split; [exact Hget |].
  split; [exact Hkir |].
  apply (proj2 (root_axis_info_round_trip Sample.blank Sample.inner
                  (mkAxisHaloInfo (IntConst 12 3) (IntConst 13 0)))).
  - discriminate.
  - reflexivity.
Defined.

(** *** [AxisHaloInfo::merge] as a maximum *)

Lemma merged_width_max env cur other w x y :
  merged_width cur other w ->
  eval env cur = Some x -> eval env other = Some y -> 0 <= x -> 0 <= y ->
  eval env w = Some (Z.max x y).
Proof.
  unfold merged_width. intros Hm Hx Hy Px Py.
  destruct (value cur) as [vc|] eqn:Hc;
    [destruct (value other) as [vo|] eqn:Ho |].
  - rewrite (value_eval env _ _ Hc) in Hx. rewrite (value_eval env _ _ Ho) in Hy.
    injection Hx as <-. injection Hy as <-. now apply value_eval.
  - destruct (isZeroInt cur) eqn:Hz.
    { apply isZeroInt_value in Hz. rewrite (value_eval env _ _ Hz) in Hx.
      injection Hx as <-. subst w. rewrite Hy. f_equal. lia. }
    destruct (isZeroInt other) eqn:Hzo.
    { apply isZeroInt_value in Hzo. congruence. }
    destruct Hm as [Hd Hi]. destruct w; try discriminate. simpl in Hd.
    subst def. simpl. now rewrite Hx, Hy.
  - destruct (isZeroInt cur) eqn:Hz.
    { apply isZeroInt_value in Hz. congruence. }
    destruct (isZeroInt other) eqn:Hzo.
    { apply isZeroInt_value in Hzo. rewrite (value_eval env _ _ Hzo) in Hy.
      injection Hy as <-. subst w. rewrite Hx. f_equal. lia. }
    destruct Hm as [Hd Hi]. destruct w; try discriminate. simpl in Hd.
    subst def. simpl. now rewrite Hx, Hy.
Qed.

(** X2. [merge(other)] always succeeds, and in every kernel state in which
    the widths of both operands have values that are not negative, each
    merged width has the larger of the two values: also when a width is
    symbolic, where the source passes on the other operand of a known zero
    or builds a [max] node. *)
Theorem merge_is_maximum (a b : AxisHaloInfo) (k : Kernel) :
  exists r k',
    AxisHalo.merge a b k = Ok (r, k')
    /\ forall env,
         (forall x y, eval env (widths_0 a) = Some x ->
                      eval env (widths_0 b) = Some y -> 0 <= x -> 0 <= y ->
                      eval env (widths_0 r) = Some (Z.max x y))
         /\ (forall x y, eval env (widths_1 a) = Some x ->
                         eval env (widths_1 b) = Some y -> 0 <= x -> 0 <= y ->
                         eval env (widths_1 r) = Some (Z.max x y)).
Proof.
  destruct (merge_sides a b k) as (w0 & w1 & k1 & E & M0 & M1 & _).
  exists (mkAxisHaloInfo w0 w1), k1. split; [exact E |].
  intros env. simpl. split; intros x y Hx Hy Px Py.
  - exact (merged_width_max env _ _ _ x y M0 Hx Hy Px Py).
  - exact (merged_width_max env _ _ _ x y M1 Hx Hy Px Py).
Qed.

Lemma merged_width_is_zero cur other w :
  nonneg_width cur -> nonneg_width other -> merged_width cur other w ->
  isZeroInt w = isZeroInt cur && isZeroInt other.
Proof.
  unfold merged_width. intros Nc No Hm.
  destruct (value cur) as [vc|] eqn:Hc;
    [destruct (value other) as [vo|] eqn:Ho |].
  - specialize (Nc vc Hc). specialize (No vo Ho).
    destruct w; try discriminate. simpl in Hm. injection Hm as ->.
    destruct cur; try discriminate. destruct other; try discriminate.
    simpl in *. injection Hc as ->. injection Ho as ->.
    destruct (Z.eqb_spec (Z.max vc vo) 0), (Z.eqb_spec vc 0),
      (Z.eqb_spec vo 0); simpl; try reflexivity; lia.
  - destruct (isZeroInt cur) eqn:Hz; [now subst w |].
    destruct (isZeroInt other) eqn:Hzo; [now subst w |].
    destruct Hm as [Hd Hi]. destruct w; try discriminate. reflexivity.
  - destruct (isZeroInt cur) eqn:Hz;
      [apply isZeroInt_value in Hz; congruence |].
    destruct (isZeroInt other) eqn:Hzo; [now subst w |].
    destruct Hm as [Hd Hi]. destruct w; try discriminate. reflexivity.
Qed.

(** X3. Merging never loses halo and never invents it: for operands whose
    constant widths are not negative, the merged entry has halo ([hasHalo])
    exactly when one of the operands has. *)
Theorem merge_keeps_halo (a b r : AxisHaloInfo) (k k' : Kernel) :
  nonneg_halo a -> nonneg_halo b ->
  AxisHalo.merge a b k = Ok (r, k') ->
  AxisHalo.hasHalo r = AxisHalo.hasHalo a || AxisHalo.hasHalo b.
Proof.
  intros [Na0 Na1] [Nb0 Nb1] E.
  destruct (merge_sides a b k) as (w0 & w1 & k1 & E' & M0 & M1 & _).
  rewrite E' in E. injection E as <- <-.
  unfold AxisHalo.hasHalo. simpl.
  rewrite (merged_width_is_zero _ _ _ Na0 Nb0 M0).
  rewrite (merged_width_is_zero _ _ _ Na1 Nb1 M1).
  destruct (isZeroInt (widths_0 a)), (isZeroInt (widths_1 a)),
    (isZeroInt (widths_0 b)), (isZeroInt (widths_1 b)); reflexivity.
Qed.

Lemma merge_keeps_halo_witness :
  AxisHalo.hasHalo (mkAxisHaloInfo (IntConst 7 0) (IntSym 2 NoDef))
  = AxisHalo.hasHalo (mkAxisHaloInfo (IntConst 1 0) (IntConst 4 0))
    || AxisHalo.hasHalo (mkAxisHaloInfo (IntConst 3 0) (IntSym 2 NoDef)).
Proof.
  apply (merge_keeps_halo
           (mkAxisHaloInfo (IntConst 1 0) (IntConst 4 0))
           (mkAxisHaloInfo (IntConst 3 0) (IntSym 2 NoDef))
           (mkAxisHaloInfo (IntConst 7 0) (IntSym 2 NoDef)) 7 8).
  - split; intros v; simpl; intros [= <-]; lia.
  - split; intros v; simpl; [intros [= <-]; lia | discriminate].
  - reflexivity.
Defined.

(** *** Forward propagation: root axes and merges *)

(** X4. The loop body of [build(TensorDomain* td)] at a root axis. An axis that
    already has a halo width stops the analysis. Otherwise the axis gets a
    halo width whose value is [width(0) + width(1)] of its root entry, and no
    other halo width changes; without halo the width is a known zero and the
    extent map stays as it is; with halo the axis gets the extended extent
    [extent + width(0) + width(1)]. *)
Theorem root_axis_extent
    (h : HaloInfo) (root_axis : IterDomain) (info : AxisHaloInfo)
    (k : Kernel) :
  Halo.getRootAxisInfo h root_axis = Ok info ->
  (is_Some (halo_width_map_ h !! id_addr root_axis) ->
   Halo.build_root_axis h root_axis k = Fail (InternalAssert "Invalid domain"))
  /\ (halo_width_map_ h !! id_addr root_axis = None ->
      exists h' k' w,
        Halo.build_root_axis h root_axis k = Ok (h', k')
        /\ halo_width_map_ h' !! id_addr root_axis = Some w
        /\ (forall x, x <> id_addr root_axis ->
                      halo_width_map_ h' !! x = halo_width_map_ h !! x)
        /\ (forall env a b,
              eval env (widths_0 info) = Some a ->
              eval env (widths_1 info) = Some b ->
              eval env w = Some (a + b))
        /\ (zero_halo info ->
            isZeroInt w = true /\ kir_extent_map_ h' = kir_extent_map_ h)
        /\ (isZeroInt (widths_0 info) = false
            \/ isZeroInt (widths_1 info) = false ->
            kir_extent_map_ h !! id_addr root_axis = None ->
            exists e,
              Halo.getExtent h' root_axis = Some e
              /\ forall env x a b,
                   eval env (id_extent root_axis) = Some x ->
                   eval env (widths_0 info) = Some a ->
                   eval env (widths_1 info) = Some b ->
                   eval env e = Some (x + (a + b)))).
Proof.
  intros Hinfo.
  destruct (addExpr_Int_total (widths_0 info) (widths_1 info) k)
    as (w & k1 & Ew & _).
  assert (Hstart : Halo.build_root_axis h root_axis k
            = (assert_that (negb (Halo.hasHaloWidth h root_axis))
                 "Invalid domain";;
               if negb (AxisHalo.hasHalo info) then
                 let* z := IrBuilder.zeroVal in
                 ret (Halo.set_halo_width h
                        (insert_new (id_addr root_axis) z (halo_width_map_ h)))
               else
                 let* expanded_extent :=
                   IrBuilder.addExpr (id_extent root_axis) w in
                 let h := Halo.set_kir_extent h
                            (insert_new (id_addr root_axis) expanded_extent
                                        (kir_extent_map_ h)) in
                 ret (Halo.set_halo_width h
                        (insert_new (id_addr root_axis) w
                                    (halo_width_map_ h)))) k1).
  { unfold Halo.build_root_axis. unfold bind at 1. unfold lift at 1.
    rewrite Hinfo. unfold bind at 1. unfold AxisHalo.total_width.
    now rewrite Ew. }
  rewrite Hstart. clear Hstart. split.
  - intros Hsome. unfold bind, assert_that, Halo.hasHaloWidth.
    now rewrite bool_decide_eq_true_2 by exact Hsome.
  - intros Hnone. unfold bind at 1. unfold assert_that, Halo.hasHaloWidth.
    rewrite bool_decide_eq_false_2 by (rewrite Hnone; now intros [? ?]).
    simpl.
    destruct (AxisHalo.hasHalo info) eqn:Hh; simpl.
    + apply hasHalo_true in Hh as Hsides.
      eexists _, _, w. split; [reflexivity |]. simpl.
      split; [now apply insert_new_lookup_eq |].
      split; [intros x Hx; now apply insert_new_lookup_ne |].
      split.
      { intros env a b Ha Hb.
        rewrite (eval_addExpr_Int env _ _ _ _ _ Ew). now rewrite Ha, Hb. }
      split.
      { intros Hz. apply hasHalo_false in Hz. congruence. }
      intros _ Hext. eexists. unfold Halo.getExtent. simpl.
      split; [now apply insert_new_lookup_eq |].
      intros env x a b Hx Ha Hb. simpl.
      rewrite Hx, (eval_addExpr_Int env _ _ _ _ _ Ew). now rewrite Ha, Hb.
    + apply hasHalo_false in Hh as [Hz0 Hz1].
      eexists _, _, _. split; [reflexivity |]. simpl.
      split; [now apply insert_new_lookup_eq |].
      split; [intros x Hx; now apply insert_new_lookup_ne |].
      split.
      { intros env a b Ha Hb.
        apply isZeroInt_value in Hz0, Hz1.
        rewrite (value_eval env _ _ Hz0) in Ha.
        rewrite (value_eval env _ _ Hz1) in Hb.
        injection Ha as <-. injection Hb as <-. reflexivity. }
      split; [intros _; split; reflexivity |].
      intros [H0 | H1]; congruence.
Qed.

Lemma root_axis_extent_witness :
  exists h' k' w e,
    Halo.build_root_axis Sample.halo_on_T1 (Sample.axis 2 false) 50%positive
    = Ok (h', k')
    /\ halo_width_map_ h' !! 2%positive = Some w
    /\ eval (Sample.state 0) w = Some 3
    /\ Halo.getExtent h' (Sample.axis 2 false) = Some e
    /\ eval (Sample.state 0) e = Some 13.
Proof.
  destruct (proj2 (root_axis_extent Sample.halo_on_T1 (Sample.axis 2 false)
                     (mkAxisHaloInfo (IntConst 12 3) (IntConst 13 0))
                     50%positive eq_refl) eq_refl)
    as (h' & k' & w & Hb & Hw & _ & Hval & _ & Hext).
  destruct (Hext (or_introl eq_refl) eq_refl) as (e & He & Heval).
  exists h', k', w, e. split; [exact Hb |]. split; [exact Hw |].
  split; [exact (Hval (Sample.state 0) 3 0 eq_refl eq_refl) |].
  split; [exact He |].
  exact (Heval (Sample.state 0) 10 3 0 eq_refl eq_refl eq_refl).
Defined.

(** X5. The loop body of [build(TensorDomain* td)] at [Merge(outer, inner)].
    When neither operand has an extended extent, the output gets a halo
    width that is a known zero, and neither the extent map nor
    [merged_shifted_ids] changes. When one has, the output gets no halo
    width, joins [merged_shifted_ids], and its extended extent is the
    product of the operands' extents, the extended one where an operand has
    one and the plain extent where it has none. *)
Theorem merge_extent_propagation
    (h : HaloInfo) (merged_shifted_ids : gset addr)
    (outer inner out : IterDomain) (k : Kernel) :
  (Halo.getExtent h inner = None -> Halo.getExtent h outer = None ->
   exists h' k',
     Halo.build_domain_expr (h, merged_shifted_ids) (Merge outer inner out) k
     = Ok ((h', merged_shifted_ids), k')
     /\ kir_extent_map_ h' = kir_extent_map_ h
     /\ (halo_width_map_ h !! id_addr out = None ->
         exists z, halo_width_map_ h' !! id_addr out = Some z
                   /\ isZeroInt z = true))
  /\ (is_Some (Halo.getExtent h inner) \/ is_Some (Halo.getExtent h outer) ->
      exists h' k',
        Halo.build_domain_expr (h, merged_shifted_ids)
                               (Merge outer inner out) k
        = Ok ((h', {[id_addr out]} ∪ merged_shifted_ids), k')
        /\ halo_width_map_ h' = halo_width_map_ h
        /\ (kir_extent_map_ h !! id_addr out = None ->
            exists e,
              Halo.getExtent h' out = Some e
              /\ forall env x y,
                   eval env (default (id_extent outer)
                                     (Halo.getExtent h outer)) = Some x ->
                   eval env (default (id_extent inner)
                                     (Halo.getExtent h inner)) = Some y ->
                   eval env e = Some (x * y))).
Proof.
  split.
  - intros Hi Ho. unfold Halo.build_domain_expr. rewrite Hi, Ho.
    eexists _, _. split; [reflexivity |]. simpl. split; [reflexivity |].
    intros Hnone. eexists. split; [now apply insert_new_lookup_eq |].
    reflexivity.
  - intros Hsome.
    assert (Hstep : Halo.build_domain_expr (h, merged_shifted_ids)
                      (Merge outer inner out) k
              = (let* expanded_extent :=
                   IrBuilder.mulExpr
                     (default (id_extent outer) (Halo.getExtent h outer))
                     (default (id_extent inner) (Halo.getExtent h inner)) in
                 ret (Halo.set_kir_extent h
                        (insert_new (id_addr out) expanded_extent
                                    (kir_extent_map_ h)),
                      {[id_addr out]} ∪ merged_shifted_ids)) k).
    { unfold Halo.build_domain_expr.
      destruct (Halo.getExtent h inner) as [ei|],
               (Halo.getExtent h outer) as [eo|]; try reflexivity.
      destruct Hsome as [[? ?] | [? ?]]; discriminate. }
    rewrite Hstep. eexists _, _. split; [reflexivity |]. simpl.
    split; [reflexivity |]. intros Hnone. eexists.
    unfold Halo.getExtent at 1. simpl.
    split; [now apply insert_new_lookup_eq |].
    intros env x y Hx Hy. simpl. now rewrite Hx, Hy.
Qed.

Lemma merge_extent_propagation_witness :
  exists h' k' e,
    Halo.build_domain_expr (Sample.before_split, ∅)
      (Merge (Sample.axis 2 false) (Sample.axis 4 false) Sample.merged_axis)
      50%positive
    = Ok ((h', {[8%positive]} ∪ ∅), k')
    /\ halo_width_map_ h' = halo_width_map_ Sample.before_split
    /\ Halo.getExtent h' Sample.merged_axis = Some e
    /\ eval (Sample.state 0) e = Some (13 * 10).
Proof.
  destruct (proj2 (merge_extent_propagation Sample.before_split ∅
                     (Sample.axis 2 false) (Sample.axis 4 false)
                     Sample.merged_axis 50%positive))
    as (h' & k' & Hb & Hw & Hext).
  { right. vm_compute. now eexists. }
  destruct (Hext eq_refl) as (e & He & Heval).
  exists h', k', e. split; [exact Hb |]. split; [exact Hw |].
  split; [exact He |].
  exact (Heval (Sample.state 0) 13 10 eq_refl eq_refl).
Defined.

(** *** Validation: thread dimensions and other parallel types *)

Lemma validate_ok_iff g h uses tv :
  Halo.validate g h uses tv = Ok tt
  <-> forall axis, axis ∈ td_domain (tv_domain tv) ->
                   Halo.validate_axis g h uses (tv_memoryType tv) axis = Ok tt.
Proof.
  unfold Halo.validate.
  generalize (td_domain (tv_domain tv)) as axes.
  generalize (tv_memoryType tv) as mem. intros mem axes.
  induction axes as [| a axes IH]; simpl.
  - split; [intros _ axis Hin; now apply elem_of_nil in Hin | reflexivity].
  - destruct (Halo.validate_axis g h uses mem a) as [[] | e] eqn:Ea.
    + rewrite IH. split.
      * intros Hall axis Hin. apply elem_of_cons in Hin as [-> | Hin];
          [exact Ea | now apply Hall].
      * intros Hall axis Hin. apply Hall. now right.
    + rewrite validate_fold_fail. split; [discriminate |].
      intros Hall. specialize (Hall a (list_elem_of_here _ _)). congruence.
Qed.

(** X6. An extended axis bound to a thread dimension ([TIDx], [TIDy],
    [TIDz]) that needs shared visibility makes validation fail for a tensor
    in local or global memory. When the comparisons raise nothing, the axis
    passes in shared memory and fails the shared-memory check anywhere
    else. *)
Theorem validate_thread_parallel_needs_shared_memory
    (g : GpuLower) (h : HaloInfo) (uses : list Expr) (tv : TensorView)
    (axis : IterDomain) :
  axis ∈ td_domain (tv_domain tv) ->
  is_Some (Halo.getExtent h axis) ->
  isParallelTypeThreadDim (id_parallelType (getConcreteMappedID g axis))
  = true ->
  needs_shared_visibility g h uses axis ->
  (tv_memoryType tv <> Shared -> is_ok (Halo.validate g h uses tv) = false)
  /\ (Halo.extentEqual g h axis (getConcreteMappedID g axis) = Ok true ->
      is_ok (Halo.shared_mem_needed g h uses axis) = true ->
      forall mem,
        Halo.validate_axis g h uses mem axis
        = if bool_decide (mem = Shared) then Ok tt
          else Fail (CheckFailed
            "must be allocated on shared memory as its halo-extended axis is parallelized")).
Proof.
  intros Hin [e He] Hthread Hneeds.
  pose proof (shared_mem_needed_not_false _ _ _ _ Hneeds) as Hneeded.
  assert (Ht : isParallelTypeThread
                 (id_parallelType (getConcreteMappedID g axis)) = true).
  { unfold isParallelTypeThread. now rewrite Hthread. }
  assert (Hns : id_parallelType (getConcreteMappedID g axis) <> Serial).
  { intros Hs. rewrite Hs in Hthread. discriminate. }
  assert (Haxis : forall mem,
             (mem <> Shared ->
              is_ok (Halo.validate_axis g h uses mem axis) = false)
             /\ (Halo.extentEqual g h axis (getConcreteMappedID g axis)
                 = Ok true ->
                 is_ok (Halo.shared_mem_needed g h uses axis) = true ->
                 Halo.validate_axis g h uses mem axis
                 = if bool_decide (mem = Shared) then Ok tt
                   else Fail (CheckFailed
                     "must be allocated on shared memory as its halo-extended axis is parallelized"))).
  { intros mem. unfold Halo.validate_axis.
    destruct (Halo.extentEqual g h axis (getConcreteMappedID g axis))
      as [[|] | e1]; simpl; [| split; [reflexivity | discriminate]
                             | split; [reflexivity | discriminate]].
    rewrite He, Ht, Hthread.
    rewrite (bool_decide_eq_false_2 _ Hns). simpl.
    destruct (Halo.shared_mem_needed g h uses axis) as [[|] | e2]; simpl.
    - split; [| intros _ _; reflexivity].
      intros Hmem. now rewrite (bool_decide_eq_false_2 _ Hmem).
    - congruence.
    - split; [reflexivity | discriminate]. }
  split.
  - intros Hmem. unfold Halo.validate.
    apply (validate_fold_in _ _ _ _ _ axis); [exact Hin |].
    now apply Haxis.
  - intros Heq Hn mem. now apply Haxis.
Qed.

Lemma validate_thread_parallel_needs_shared_memory_witness :
  exists h k,
    Halo.build_td Sample.after_block_shift
      (tv_domain (Sample.parallel_tensor 2 TIDx Global)) 1000%positive
    = Ok (h, k)
    /\ is_ok (Halo.validate Sample.lower_blocks h
                [Sample.unary (ShiftOp [2] false)
                   (Sample.parallel_tensor 2 TIDx Global) Sample.T3]
                (Sample.parallel_tensor 2 TIDx Global)) = false
    /\ Halo.validate Sample.lower_blocks h
         [Sample.unary (ShiftOp [2] false)
            (Sample.parallel_tensor 2 TIDx Shared) Sample.T3]
         (Sample.parallel_tensor 2 TIDx Shared) = Ok tt.
Proof.
  eexists _, _. split; [vm_compute; reflexivity |].
  split; [| vm_compute; reflexivity].
  apply (validate_thread_parallel_needs_shared_memory _ _ _ _
           (Sample.parallel_axis 2 TIDx)).
  - vm_compute. apply list_elem_of_here.
  - vm_compute. eexists. reflexivity.
  - reflexivity.
  - eexists. split; [apply list_elem_of_here | now left].
  - discriminate.
Defined.

(** X7. [validate] passes exactly when every axis of the tensor passes. An
    axis that is not proven to have the extent of its concrete axis fails,
    extended or not. Of the axes that are proven so: one without extended
    extent passes, and so does an extended one whose concrete axis is
    serial, whatever the uses and the memory type; an extended one bound to
    a parallel type that is neither serial nor a thread or block dimension
    (vectorized, unrolled) fails the check of the parallel type, also when
    no use needs shared visibility. *)
Theorem validate_parallel_types
    (g : GpuLower) (h : HaloInfo) (uses : list Expr) (tv : TensorView) :
  (Halo.validate g h uses tv = Ok tt
   <-> forall axis, axis ∈ td_domain (tv_domain tv) ->
         Halo.validate_axis g h uses (tv_memoryType tv) axis = Ok tt)
  /\ forall axis mem,
       let ptype := id_parallelType (getConcreteMappedID g axis) in
       (Halo.extentEqual g h axis (getConcreteMappedID g axis) <> Ok true ->
        is_ok (Halo.validate_axis g h uses mem axis) = false)
       /\ (Halo.extentEqual g h axis (getConcreteMappedID g axis) = Ok true ->
           (Halo.getExtent h axis = None \/ ptype = Serial ->
            Halo.validate_axis g h uses mem axis = Ok tt)
           /\ (is_Some (Halo.getExtent h axis) -> ptype <> Serial ->
               isParallelTypeThreadDim ptype = false ->
               isParallelTypeBlockDim ptype = false ->
               Halo.validate_axis g h uses mem axis
               = Fail (CheckFailed "Unsupported parallel type"))).
Proof.
  split; [apply validate_ok_iff |].
  intros axis mem ptype. unfold Halo.validate_axis. fold ptype. split.
  - destruct (Halo.extentEqual g h axis (getConcreteMappedID g axis))
      as [[|] | e]; simpl; [congruence | reflexivity | reflexivity].
  - intros ->. simpl. split.
    + intros [-> | Hs]; [reflexivity |].
      destruct (Halo.getExtent h axis); [| reflexivity].
      now rewrite (bool_decide_eq_true_2 _ Hs).
    + intros [e ->] Hns Htd Hbd.
      rewrite (bool_decide_eq_false_2 _ Hns).
      unfold isParallelTypeThread. now rewrite Htd, Hbd.
Qed.

Lemma validate_parallel_types_witness :
  exists h k,
    Halo.build_td Sample.after_block_shift
      (tv_domain (Sample.parallel_tensor 2 Vectorize Global)) 1000%positive
    = Ok (h, k)
    /\ Halo.validate_axis Sample.lower_blocks h [] Global
         (Sample.parallel_axis 2 Vectorize)
       = Fail (CheckFailed "Unsupported parallel type")
    /\ Halo.validate_axis Sample.lower_blocks h [] Global
         (Sample.parallel_axis 2 Serial) = Ok tt.
Proof.
  eexists _, _. split; [vm_compute; reflexivity |].
  split.
  - apply (proj2 (proj2 (validate_parallel_types Sample.lower_blocks _ []
                           Sample.T0)
                        (Sample.parallel_axis 2 Vectorize) Global)).
    + vm_compute. reflexivity.
    + vm_compute. eexists. reflexivity.
    + discriminate.
    + reflexivity.
    + reflexivity.
  - apply (proj2 (proj2 (validate_parallel_types Sample.lower_blocks _ []
                           Sample.T0)
                        (Sample.parallel_axis 2 Serial) Global)).
    + vm_compute. reflexivity.
    + right. reflexivity.
Defined.

(** *** The padding predicate *)

Lemma padding_axis_exact env g h s ga indices buffer_init predicate i id
      k r k' :
  ShiftPredicateInserter.predicate_axis g h s ga indices buffer_init false
    predicate (i, id) k = Ok (r, k') ->
  if ShiftPredicateInserter.skipped g buffer_init id then r = predicate
  else exists info,
      Halo.getRootAxisInfo h id = Ok info
      /\ (ptruthy env r
          <-> ptruthy env predicate
              /\ padding_bound_holds env indices i id info).
Proof.
  unfold ShiftPredicateInserter.predicate_axis.
  destruct (ShiftPredicateInserter.skipped g buffer_init id).
  { now intros [= <- _]. }
  intros H.
  apply bind_Ok in H as (info & k0 & E & H). apply lift_Ok in E as [Hinfo ->].
  apply bind_Ok in H as (c & k0 & E & H). apply lift_Ok in E as [Hc ->].
  unfold at_index in Hc.
  destruct (indices !! i) as [c'|] eqn:Hci; [| discriminate].
  injection Hc as ->.
  apply bind_Ok in H as (width & k1 & Hwidth & H).
  apply bind_Ok in H as (limit & k2 & Hlimit & H).
  exists info. split; [exact Hinfo |].
  rewrite (ptruthy_and_lt_iff env _ _ _ _ _ _ H).
  assert (Hl : eval env limit
               = match eval env (id_extent id), eval env (widths_0 info),
                       eval env (widths_1 info) with
                 | Some e, Some a, Some b => Some (e + (a + b))
                 | _, _, _ => None
                 end).
  { rewrite (eval_SaddExpr env _ _ _ _ _ Hlimit).
    unfold AxisHalo.total_width in Hwidth.
    rewrite (eval_addExpr_Int env _ _ _ _ _ Hwidth).
    destruct (eval env (id_extent id)), (eval env (widths_0 info)),
      (eval env (widths_1 info)); reflexivity. }
  unfold index_below, padding_bound_holds. rewrite Hl. split.
  - intros [Hp (x & y & Hx & Hy & Hlt)]. split; [exact Hp |].
    destruct (eval env (id_extent id)) as [e|]; [| discriminate].
    destruct (eval env (widths_0 info)) as [a|]; [| discriminate].
    destruct (eval env (widths_1 info)) as [b|]; [| discriminate].
    injection Hy as <-. exists x, e, a, b.
    split; [now exists c |]. now repeat split.
  - intros [Hp (x & e & a & b & (idx & Hidx & Hx) & He & Ha & Hb & Hlt)].
    split; [exact Hp |].
    assert (idx = c) as -> by congruence.
    exists x, (e + (a + b)). rewrite He, Ha, Hb. now repeat split.
Qed.

Lemma padding_loop_exact env g h s ga indices buffer_init axes :
  forall predicate k r k',
    foldM (ShiftPredicateInserter.predicate_axis g h s ga indices buffer_init
             false)
          axes predicate k = Ok (r, k') ->
    ptruthy env r
    <-> ptruthy env predicate
        /\ forall i id,
            In (i, id) axes ->
            ShiftPredicateInserter.skipped g buffer_init id = false ->
            exists info,
              Halo.getRootAxisInfo h id = Ok info
              /\ padding_bound_holds env indices i id info.
Proof.
  induction axes as [| [j jd] axes IH]; intros predicate k r k' H.
  - injection H as <- _. split; [intros Hr; split; [exact Hr |] | tauto].
    intros i id [].
  - cbn [foldM] in H. apply bind_Ok in H as (p1 & k1 & Haxis & Hrest).
    rewrite (IH _ _ _ _ Hrest).
    pose proof (padding_axis_exact env _ _ _ _ _ _ _ _ _ _ _ _ Haxis)
      as Hhere.
    destruct (ShiftPredicateInserter.skipped g buffer_init jd) eqn:Eskip.
    + subst p1. split.
      * intros [Hp Hall]. split; [exact Hp |].
        intros i id [[= <- <-] | Hin] Hs; [congruence | now apply Hall].
      * intros [Hp Hall]. split; [exact Hp |].
        intros i id Hin. apply Hall. now right.
    + destruct Hhere as (info & Hinfo & Hiff). rewrite Hiff. split.
      * intros [[Hp HB] Hall]. split; [exact Hp |].
        intros i id [[= <- <-] | Hin] Hs; [now exists info | now apply Hall].
      * intros [Hp Hall]. split.
        -- split; [exact Hp |].
           destruct (Hall j jd (or_introl eq_refl) Eskip)
             as (info' & Hinfo' & HB).
           assert (info' = info) as -> by congruence. exact HB.
        -- intros i id Hin. apply Hall. now right.
Qed.

(** X8. The padding predicate that [getPredicate] builds for a padded shift
    or a gather (other than for a reduction-buffer initialisation in local
    memory) holds in a kernel state exactly when the thread predicate holds
    and, on every root axis that is not skipped, the consumer index is below
    the extent of the axis plus its halo on both sides. No lower bound and
    no producer index enters it. *)
Theorem padding_predicate_exact
    (g : GpuLower) (h : HaloInfo) (definition : Expr) (indices : list Val)
    (buffer_init : bool) (out_tv : TensorView) (thread_pred : Val)
    (k k' : Kernel) (r : Val) (env : addr -> option Z) :
  ShiftPredicateInserter.getPredicate g h definition (indices, buffer_init)
    out_tv thread_pred false k = Ok (Some r, k') ->
  padded_shift_or_gather (expr_op definition) = true ->
  bool_decide (tv_memoryType out_tv = Local) && buffer_init = false ->
  truthy env r
  <-> truthy env thread_pred
      /\ forall i id,
          td_root (tv_domain out_tv) !! i = Some id ->
          id_isBroadcast id = false ->
          buffer_init && id_isReduction id = false ->
          isDerived g id = false ->
          exists info,
            Halo.getRootAxisInfo h id = Ok info
            /\ padding_bound_holds env indices i id info.
Proof.
  intros Hget Hpadded Hno_exit.
  assert (Hneeds : Halo.needsShiftPredicate h definition = Ok true).
  { unfold ShiftPredicateInserter.getPredicate in Hget.
    apply bind_Ok in Hget as (b & k0 & Hb & Hget).
    apply lift_Ok in Hb as [Hb ->].
    apply bind_Ok in Hget as (u & k0 & Ha & _).
    destruct b; [exact Hb | discriminate]. }
  rewrite getPredicate_start in Hget by exact Hneeds.
  rewrite Hpadded in Hget. simpl in Hget. rewrite Hno_exit in Hget.
  apply bind_Ok in Hget as (u & k0 & Ha & Hget).
  apply bind_Ok in Hget as (predicate & k1 & Hloop & Hmerge).
  change (truthy env r) with (ptruthy env (Some r)).
  rewrite (merge_thread_pred_exact env _ _ _ _ _ Hmerge).
  rewrite (padding_loop_exact env _ _ _ _ _ _ _ _ _ _ _ Hloop).
  simpl. split.
  - intros [[_ Hall] Ht]. split; [exact Ht |].
    intros i id Hroot Hb Hr Hd. apply Hall; [now apply In_indexed |].
    now apply skipped_false.
  - intros [Ht Hall]. split; [| exact Ht]. split; [exact I |].
    intros i id Hin Hs. apply skipped_false in Hs as (Hb & Hr & Hd).
    apply Hall; [now apply In_indexed | assumption ..].
Qed.

Lemma padding_predicate_exact_witness :
  exists h r k',
    Sample.analysed Sample.negative_shift = Ok h
    /\ ShiftPredicateInserter.getPredicate Sample.lower h
         (Sample.unary (ShiftOp [2] true) Sample.T0 Sample.T1)
         ([IntSym 200 NoDef], false) Sample.T1 (BoolConst 60 true) false
         2000%positive = Ok (Some r, k')
    /\ (truthy (Sample.state 11) r
        <-> truthy (Sample.state 11) (BoolConst 60 true)
            /\ forall i id,
                td_root (tv_domain Sample.T1) !! i = Some id ->
                id_isBroadcast id = false ->
                false && id_isReduction id = false ->
                isDerived Sample.lower id = false ->
                exists info,
                  Halo.getRootAxisInfo h id = Ok info
                  /\ padding_bound_holds (Sample.state 11)
                       [IntSym 200 NoDef] i id info).
Proof.
  eexists _, _, _. split; [vm_compute; reflexivity |].
  split; [vm_compute; reflexivity |].
  eapply (padding_predicate_exact Sample.lower _
            (Sample.unary (ShiftOp [2] true) Sample.T0 Sample.T1)
            [IntSym 200 NoDef] false Sample.T1 (BoolConst 60 true)
            2000%positive _ _ (Sample.state 11)).
  - vm_compute. reflexivity.
  - reflexivity.
  - reflexivity.
Defined.

(** *** [getPredicate]: what it asserts, and when nothing is predicated *)

(** X9. [getPredicate] asserts that the defining expression needs a shift
    predicate: when [needsShiftPredicate] is false it fails, in either
    flavour and before anything else is looked at. Past the two early exits
    (the padding flavour of an expression without padding, a
    reduction-buffer initialisation in local memory) it fails when the
    number of indices differs from the number of root axes. *)
Theorem getPredicate_asserts
    (g : GpuLower) (h : HaloInfo) (definition : Expr) (indices : list Val)
    (buffer_init : bool) (out_tv : TensorView) (thread_pred : Val)
    (isShiftPredicate : bool) (k : Kernel) :
  (Halo.needsShiftPredicate h definition = Ok false ->
   ShiftPredicateInserter.getPredicate g h definition (indices, buffer_init)
     out_tv thread_pred isShiftPredicate k
   = Fail (InternalAssert "needs_shift_predicate"))
  /\ (Halo.needsShiftPredicate h definition = Ok true ->
      isShiftPredicate || padded_shift_or_gather (expr_op definition) = true ->
      bool_decide (tv_memoryType out_tv = Local) && buffer_init = false ->
      length indices <> length (td_root (tv_domain out_tv)) ->
      ShiftPredicateInserter.getPredicate g h definition
        (indices, buffer_init) out_tv thread_pred isShiftPredicate k
      = Fail (InternalAssert "indices.size() == root_domain.size()")).
Proof.
  split.
  - intros Hneeds. unfold ShiftPredicateInserter.getPredicate.
    unfold bind at 1. unfold lift at 1. now rewrite Hneeds.
  - intros Hneeds Hflavour Hno_exit Hlen.
    rewrite getPredicate_start by exact Hneeds. simpl.
    assert (negb isShiftPredicate
            && negb (padded_shift_or_gather (expr_op definition)) = false)
      as ->.
    { destruct isShiftPredicate; [reflexivity |]. simpl in *.
      now rewrite Hflavour. }
    rewrite Hno_exit. unfold bind at 1.
    apply Nat.eqb_neq in Hlen. now rewrite Hlen.
Qed.

Lemma getPredicate_asserts_witness :
  ShiftPredicateInserter.getPredicate Sample.lower Sample.blank
    (Sample.unary (OtherOp true) Sample.T1 Sample.T2)
    ([IntSym 200 NoDef], false) Sample.T2 (BoolConst 60 true) true
    1000%positive
  = Fail (InternalAssert "needs_shift_predicate")
  /\ ShiftPredicateInserter.getPredicate Sample.lower Sample.blank
       (Sample.unary (ShiftOp [2] true) Sample.T1 Sample.T2)
       ([], false) Sample.T2 (BoolConst 60 true) true 1000%positive
     = Fail (InternalAssert "indices.size() == root_domain.size()").
Proof.
  split.
  - apply (proj1 (getPredicate_asserts Sample.lower Sample.blank
                    (Sample.unary (OtherOp true) Sample.T1 Sample.T2)
                    [IntSym 200 NoDef] false Sample.T2 (BoolConst 60 true)
                    true 1000%positive)).
    vm_compute. reflexivity.
  - apply (proj2 (getPredicate_asserts Sample.lower Sample.blank
                    (Sample.unary (ShiftOp [2] true) Sample.T1 Sample.T2)
                    [] false Sample.T2 (BoolConst 60 true)
                    true 1000%positive)).
    + vm_compute. reflexivity.
    + reflexivity.
    + reflexivity.
    + discriminate.
Defined.

Lemma predicate_loop_all_skipped g h s ga indices buffer_init flavour axes :
  (forall ic, In ic axes ->
              ShiftPredicateInserter.skipped g buffer_init (snd ic) = true) ->
  forall predicate k,
    foldM (ShiftPredicateInserter.predicate_axis g h s ga indices buffer_init
             flavour) axes predicate k
    = Ok (predicate, k).
Proof.
  induction axes as [| [j jd] axes IH]; intros Hall predicate k.
  - reflexivity.
  - cbn [foldM]. unfold bind at 1.
    unfold ShiftPredicateInserter.predicate_axis at 1.
    pose proof (Hall (j, jd) (or_introl eq_refl)) as Hj. simpl in Hj.
    rewrite Hj. unfold ret at 1.
    apply IH. intros ic Hin. apply Hall. now right.
Qed.

(** X10. When the loop of [getPredicate] skips every root axis (each is a
    broadcast, a reduction axis of a buffer initialisation, or derived from
    a trivial reduction), the result is decided by the thread predicate
    alone: it is the thread predicate itself when that is symbolic, a new
    constant false when that is the constant false, and no predicate at all
    ([nullptr]) when that is the constant true, without a node being
    created. *)
Theorem getPredicate_without_axes
    (g : GpuLower) (h : HaloInfo) (definition : Expr) (indices : list Val)
    (buffer_init : bool) (out_tv : TensorView) (thread_pred : Val)
    (isShiftPredicate : bool) (k : Kernel) :
  Halo.needsShiftPredicate h definition = Ok true ->
  isShiftPredicate || padded_shift_or_gather (expr_op definition) = true ->
  bool_decide (tv_memoryType out_tv = Local) && buffer_init = false ->
  length indices = length (td_root (tv_domain out_tv)) ->
  (forall id, id ∈ td_root (tv_domain out_tv) ->
              id_isBroadcast id = true
              \/ (buffer_init = true /\ id_isReduction id = true)
              \/ isDerived g id = true) ->
  ShiftPredicateInserter.getPredicate g h definition (indices, buffer_init)
    out_tv thread_pred isShiftPredicate k
  = match bvalue thread_pred with
    | Some true => Ok (None, k)
    | Some false => Ok (Some (BoolConst k false), Pos.succ k)
    | None => Ok (Some thread_pred, k)
    end.
Proof.
  intros Hneeds Hflavour Hno_exit Hlen Hskip.
  rewrite getPredicate_start by exact Hneeds. simpl.
  assert (negb isShiftPredicate
          && negb (padded_shift_or_gather (expr_op definition)) = false)
    as ->.
  { destruct isShiftPredicate; [reflexivity |]. simpl in *.
    now rewrite Hflavour. }
  rewrite Hno_exit. unfold bind at 1.
  apply Nat.eqb_eq in Hlen. rewrite Hlen. simpl assert_that. unfold ret at 1.
  unfold bind at 1.
  rewrite predicate_loop_all_skipped.
  - unfold ShiftPredicateInserter.merge_thread_pred.
    destruct (bvalue thread_pred) as [[|]|]; reflexivity.
  - intros [i id] Hin. simpl.
    assert (Hid : id ∈ td_root (tv_domain out_tv)).
    { apply In_indexed in Hin. apply list_elem_of_lookup. now exists i. }
    unfold ShiftPredicateInserter.skipped.
    destruct (Hskip id Hid) as [-> | [[-> ->] | ->]];
      [reflexivity | now rewrite orb_true_r | now rewrite orb_true_r].
Qed.

Lemma getPredicate_without_axes_witness :
  ShiftPredicateInserter.getPredicate Sample.lower_trivial Sample.blank
    (Sample.unary (ShiftOp [2] true) Sample.T1 Sample.T2)
    ([IntSym 200 NoDef], false) Sample.T2 (BoolConst 60 true) true
    1000%positive
  = Ok (None, 1000%positive).
Proof.
  apply (getPredicate_without_axes Sample.lower_trivial Sample.blank
           (Sample.unary (ShiftOp [2] true) Sample.T1 Sample.T2)
           [IntSym 200 NoDef] false Sample.T2 (BoolConst 60 true) true
           1000%positive).
  - vm_compute. reflexivity.
  - reflexivity.
  - reflexivity.
  - reflexivity.
  - intros id Hid. right. right. reflexivity.
Defined.

(** *** The producer indices *)

(** X11. [getShiftProducerIndex]. Without a shift, or at an offset of zero,
    the producer index is the consumer index itself, and no node is
    created. At an offset [o] other than zero and [INT_MIN] it is a
    [kir::Int] with the value of the consumer index less [o]. The offset
    [INT_MIN] has no negation, and an index that is no [kir::Int] fails the
    cast. *)
Theorem shift_producer_index
    (i : nat) (c : Val) (offsets : list Z) (pad : bool) (k : Kernel) :
  ShiftPredicateInserter.getShiftProducerIndex i c None k = Ok (c, k)
  /\ (offsets !! i = Some 0 ->
      ShiftPredicateInserter.getShiftProducerIndex i c (Some (offsets, pad)) k
      = Ok (c, k))
  /\ (forall o, offsets !! i = Some o -> o <> 0 ->
        (isInt c = false ->
         ShiftPredicateInserter.getShiftProducerIndex i c
           (Some (offsets, pad)) k
         = Fail (InternalAssert "consumer_index->as<kir::Int>()"))
        /\ (isInt c = true -> o = INT_MIN ->
            ShiftPredicateInserter.getShiftProducerIndex i c
              (Some (offsets, pad)) k
            = Fail (Undefined "-INT_MIN"))
        /\ (isInt c = true -> o <> INT_MIN ->
            exists p k',
              ShiftPredicateInserter.getShiftProducerIndex i c
                (Some (offsets, pad)) k = Ok (p, k')
              /\ isInt p = true
              /\ forall env x, eval env c = Some x ->
                               eval env p = Some (x - o))).
Proof.
  split; [reflexivity |]. split.
  - intros Ho. unfold ShiftPredicateInserter.getShiftProducerIndex.
    unfold bind, lift, offset. now rewrite Ho.
  - intros o Ho Hne.
    assert (Hstep :
              ShiftPredicateInserter.getShiftProducerIndex i c
                (Some (offsets, pad)) k
              = (assert_that (isInt c) "consumer_index->as<kir::Int>()";;
                 let* back := lift (negate o) in
                 SimplifyingIrBuilder.addExpr_imm c back) k).
    { unfold ShiftPredicateInserter.getShiftProducerIndex.
      unfold bind at 1. unfold lift at 1, offset. rewrite Ho.
      apply Z.eqb_neq in Hne. now rewrite Hne. }
    rewrite Hstep. clear Hstep. split; [| split].
    + intros Hc. unfold bind, assert_that. now rewrite Hc.
    + intros Hc ->. unfold bind, assert_that, lift. rewrite Hc. reflexivity.
    + intros Hc Hmin. unfold bind at 1. unfold assert_that. rewrite Hc.
      unfold ret at 1. unfold bind at 1. unfold lift at 1.
      rewrite (negate_ok _ Hmin).
      destruct (addExpr_imm_total c (- o) k) as (p & k' & E & _).
      exists p, k'. split; [exact E |]. split.
      * revert E. unfold SimplifyingIrBuilder.addExpr_imm.
        destruct (- o =? 0); [intros [= <- _]; exact Hc |].
        destruct (value c); [intros [= <- _]; reflexivity |].
        destruct (0 <? - o); unfold bind; simpl; intros [= <- _];
          reflexivity.
      * intros env x Hx. rewrite (eval_addExpr_imm env _ _ _ _ _ E), Hx.
        reflexivity.
Qed.

Lemma shift_producer_index_witness :
  exists p k',
    ShiftPredicateInserter.getShiftProducerIndex 0 (IntSym 200 NoDef)
      (Some ([-2], true)) 1000%positive = Ok (p, k')
    /\ isInt p = true
    /\ eval (Sample.state 5) p = Some (5 - -2).
Proof.
  assert (Hne : -2 <> 0) by discriminate.
  assert (Hmin : -2 <> INT_MIN) by discriminate.
  destruct (proj2 (proj2 (proj2 (proj2 (shift_producer_index 0
                                          (IntSym 200 NoDef) [-2] true
                                          1000%positive))
                                (-2) eq_refl Hne))
                  eq_refl Hmin)
    as (p & k' & E & Hi & Heval).
  exists p, k'. split; [exact E |]. split; [exact Hi |].
  exact (Heval (Sample.state 5) 5 eq_refl).
Defined.

(** X12. [getGatherProducerIndex]. Without a gather, at a root axis past
    the window shape (a window axis of the output) and at an axis with a
    window of one, the producer index is the consumer index itself, and no
    node is created. At an axis with another window it fails when the
    window axis of the axis is not among the indices; else it is a new node
    with the value of the consumer index plus the index of the window axis
    less the left padding (a constant). *)
Theorem gather_producer_index
    (i : nat) (c : Val) (windowShape : list Val)
    (padWidth : list (list Val)) (indices : list Val) (k : Kernel) :
  ShiftPredicateInserter.getGatherProducerIndex i c None indices k
  = Ok (c, k)
  /\ (length windowShape <= i ->
      ShiftPredicateInserter.getGatherProducerIndex i c
        (Some (windowShape, padWidth)) indices k = Ok (c, k))%nat
  /\ (forall w, windowShape !! i = Some w -> isOneInt w = true ->
        ShiftPredicateInserter.getGatherProducerIndex i c
          (Some (windowShape, padWidth)) indices k = Ok (c, k))
  /\ (forall w, windowShape !! i = Some w -> isOneInt w = false ->
        (length indices <= length windowShape + i ->
         ShiftPredicateInserter.getGatherProducerIndex i c
           (Some (windowShape, padWidth)) indices k
         = Fail (InternalAssert "window_axis < (int)indices.size()"))%nat
        /\ (forall widx pad_dim pad_size pv,
              indices !! (length windowShape + i)%nat = Some widx ->
              padWidth !! i = Some pad_dim ->
              pad_dim !! 0%nat = Some pad_size ->
              value pad_size = Some pv ->
              exists p k',
                ShiftPredicateInserter.getGatherProducerIndex i c
                  (Some (windowShape, padWidth)) indices k = Ok (p, k')
                /\ (k <= val_addr p)%positive
                /\ forall env x y,
                     eval env c = Some x -> eval env widx = Some y ->
                     eval env p = Some (x + y - pv))).
Proof.
  split; [reflexivity |]. split; [| split].
  - intros Hlen. unfold ShiftPredicateInserter.getGatherProducerIndex.
    apply Nat.leb_le in Hlen. now rewrite Hlen.
  - intros w Hw Hone. unfold ShiftPredicateInserter.getGatherProducerIndex.
    assert (Hlen : (length windowShape <=? i)%nat = false).
    { apply Nat.leb_gt. now apply lookup_lt_Some in Hw. }
    rewrite Hlen. unfold bind, lift, at_index. now rewrite Hw, Hone.
  - intros w Hw Hone.
    assert (Hstep :
              ShiftPredicateInserter.getGatherProducerIndex i c
                (Some (windowShape, padWidth)) indices k
              = (assert_that (length windowShape + i <? length indices)%nat
                   "window_axis < (int)indices.size()";;
                 let* window_idx :=
                   lift (at_index "indices" indices
                                  (length windowShape + i)) in
                 let* pad_dim := lift (at_index "padWidth" padWidth i) in
                 let* pad_size := lift (at_index "padWidth[axis]" pad_dim 0) in
                 let* sum := IrBuilder.addExpr c window_idx in
                 let* pad := ShiftPredicateInserter.copy_Int pad_size in
                 IrBuilder.subExpr sum pad) k).
    { unfold ShiftPredicateInserter.getGatherProducerIndex.
      assert (Hlen : (length windowShape <=? i)%nat = false).
      { apply Nat.leb_gt. now apply lookup_lt_Some in Hw. }
      rewrite Hlen. unfold bind at 1. unfold lift at 1, at_index at 1.
      now rewrite Hw, Hone. }
    rewrite Hstep. clear Hstep. split.
    + intros Hshort. unfold bind at 1. unfold assert_that.
      assert ((length windowShape + i <? length indices)%nat = false) as ->
        by (apply Nat.ltb_ge; exact Hshort).
      reflexivity.
    + intros widx pad_dim pad_size pv Hwidx Hpd Hps Hpv.
      unfold bind at 1. unfold assert_that.
      assert ((length windowShape + i <? length indices)%nat = true) as ->.
      { apply Nat.ltb_lt. now apply lookup_lt_Some in Hwidx. }
      unfold ret at 1. unfold bind, lift, at_index.
      rewrite Hwidx, Hpd, Hps. unfold ShiftPredicateInserter.copy_Int.
      rewrite Hpv. simpl. eexists _, _. split; [reflexivity |].
      split; [simpl; lia |].
      intros env x y Hx Hy. simpl. now rewrite Hx, Hy.
Qed.

Lemma gather_producer_index_witness :
  exists p k',
    ShiftPredicateInserter.getGatherProducerIndex 0 (IntSym 200 NoDef)
      (Some ([IntConst 103 3], [[IntConst 104 1; IntConst 105 1]]))
      [IntSym 200 NoDef; IntSym 101 NoDef] 1000%positive = Ok (p, k')
    /\ eval (Sample.state 5) p = Some (5 + 10 - 1).
Proof.
  destruct (proj2 (proj2 (proj2 (proj2
              (gather_producer_index 0 (IntSym 200 NoDef) [IntConst 103 3]
                 [[IntConst 104 1; IntConst 105 1]]
                 [IntSym 200 NoDef; IntSym 101 NoDef] 1000%positive)))
              (IntConst 103 3) eq_refl eq_refl)
              (IntSym 101 NoDef) [IntConst 104 1; IntConst 105 1]
              (IntConst 104 1) 1 eq_refl eq_refl eq_refl eq_refl)
    as (p & k' & E & _ & Heval).
  exists p, k'. split; [exact E |].
  exact (Heval (Sample.state 5) 5 10 eq_refl eq_refl).
Defined.

(** *** What backward propagation leaves alone *)

Lemma foldM_invariant_in {A S} (body : S -> A -> Lower S) (I : S -> Prop) xs :
  (forall s x k s' k', x ∈ xs -> I s -> body s x k = Ok (s', k') -> I s') ->
  forall s k s' k', I s -> foldM body xs s k = Ok (s', k') -> I s'.
Proof.
  induction xs as [| x xs IH]; intros Hbody s k s' k' Hs H.
  - now injection H as <- _.
  - cbn [foldM] in H. apply bind_Ok in H as (s1 & k1 & E & H).
    apply (IH (fun s0 y k0 s0' k0' Hy => Hbody s0 y k0 s0' k0'
                                           (list_elem_of_further _ _ _ Hy))
              s1 k1 s' k'); [| exact H].
    exact (Hbody _ _ _ _ _ (list_elem_of_here _ _) Hs E).
Qed.

Lemma bind_lift_set (m : Lower AxisHaloInfo) h p k h' k' :
  (let* p_info := m in lift (Halo.setRootAxisInfo h p p_info)) k
  = Ok (h', k') ->
  exists info, Halo.setRootAxisInfo h p info = Ok h'.
Proof.
  intros H. apply bind_Ok in H as (info & k1 & _ & H).
  apply lift_Ok in H as [H _]. now exists info.
Qed.

(** A round of the loop over the consumer root axes writes nothing, or the
    entry of the producer axis its consumer axis is mapped to. *)
Lemma propagateRootAxis_writes op c2p h ic k h' k' :
  Halo.propagateRootAxis op c2p h ic k = Ok (h', k') ->
  h' = h
  \/ exists p info,
      c2p !! id_addr (snd ic) = Some p
      /\ Halo.setRootAxisInfo h p info = Ok h'.
Proof.
  destruct ic as [i c_id]. unfold Halo.propagateRootAxis. cbn [snd].
  destruct (c2p !! id_addr c_id) as [p_id|];
    [| intros [= <- _]; now left].
  intros H.
  apply bind_Ok in H as (p_info & k0 & _ & H).
  apply bind_Ok in H as (c_info & k1 & _ & H).
  assert (Hdone : forall (m : Lower AxisHaloInfo) k2,
             (let* p_info := m in
              lift (Halo.setRootAxisInfo h p_id p_info)) k2 = Ok (h', k') ->
             h' = h
             \/ exists p info,
                 Some p_id = Some p
                 /\ Halo.setRootAxisInfo h p info = Ok h').
  { intros m k2 E. apply bind_lift_set in E as [info E].
    right. now exists p_id, info. }
  destruct (id_isBroadcast c_id).
  - apply bind_Ok in H as (u & k2 & _ & H). exact (Hdone _ _ H).
  - destruct op as [offsets pad | ws pw | tv_op].
    + apply bind_Ok in H as (o & k2 & _ & H). exact (Hdone _ _ H).
    + apply bind_Ok in H as (w & k2 & _ & H).
      destruct (isOneInt w).
      * apply bind_Ok in H as (u & k3 & _ & H). injection H as <- _.
        now left.
      * apply bind_Ok in H as (pad_dim & k3 & _ & H).
        apply bind_Ok in H as (pad_dim0 & k4 & _ & H).
        apply bind_Ok in H as (u & k5 & _ & H).
        apply bind_Ok in H as (w0 & k6 & _ & H).
        apply bind_Ok in H as (p1 & k7 & _ & H).
        apply bind_Ok in H as (reach & k8 & _ & H).
        apply bind_Ok in H as (covered & k9 & _ & H).
        apply bind_Ok in H as (w1 & k10 & _ & H).
        exact (Hdone _ _ H).
    + exact (Hdone _ _ H).
Qed.

Lemma setRootAxisInfo_maps h p info h' :
  Halo.setRootAxisInfo h p info = Ok h' ->
  kir_extent_map_ h' = kir_extent_map_ h
  /\ halo_width_map_ h' = halo_width_map_ h
  /\ forall a, id_addr p <> a ->
               root_axis_map_ h' !! a = root_axis_map_ h !! a
               /\ kir_root_axis_map_ h' !! a = kir_root_axis_map_ h !! a.
Proof.
  unfold Halo.setRootAxisInfo. destruct (Halo.is_root p); [| discriminate].
  intros [= <-]. simpl. repeat split; now apply lookup_insert_ne.
Qed.

(** X13. Backward propagation through an expression, when it succeeds,
    changes neither the extent map nor the halo-width map, and it leaves
    alone the root entry of every axis that is not the producer axis some
    root axis of an output tensor is mapped to, for an input tensor that is
    no fusion input. In particular an expression whose input tensors are all
    fusion inputs changes no entry. *)
Theorem propagation_frame
    (g : GpuLower) (h h' : HaloInfo) (expr : Expr) (k k' : Kernel) :
  Halo.propagateRootAxisInfo g h expr k = Ok (h', k') ->
  kir_extent_map_ h' = kir_extent_map_ h
  /\ halo_width_map_ h' = halo_width_map_ h
  /\ forall a,
       (forall producer consumer c p,
          producer ∈ omap as_TensorView (expr_inputs expr) ->
          tv_isFusionInput producer = false ->
          consumer ∈ omap as_TensorView (expr_outputs expr) ->
          c ∈ td_root (tv_domain consumer) ->
          mapConsumerToProducer g producer consumer !! id_addr c = Some p ->
          id_addr p <> a) ->
       root_axis_map_ h' !! a = root_axis_map_ h !! a
       /\ kir_root_axis_map_ h' !! a = kir_root_axis_map_ h !! a.
Proof.
  set (keeps := fun s : HaloInfo =>
         kir_extent_map_ s = kir_extent_map_ h
         /\ halo_width_map_ s = halo_width_map_ h
         /\ forall a,
              (forall producer consumer c p,
                 producer ∈ omap as_TensorView (expr_inputs expr) ->
                 tv_isFusionInput producer = false ->
                 consumer ∈ omap as_TensorView (expr_outputs expr) ->
                 c ∈ td_root (tv_domain consumer) ->
                 mapConsumerToProducer g producer consumer !! id_addr c
                 = Some p ->
                 id_addr p <> a) ->
              root_axis_map_ s !! a = root_axis_map_ h !! a
              /\ kir_root_axis_map_ s !! a = kir_root_axis_map_ h !! a).
  intros H. change (keeps h').
  assert (H0 : keeps h) by (unfold keeps; auto).
  revert H0 H. unfold Halo.propagateRootAxisInfo.
  apply foldM_invariant_in. intros s consumer k0 s' k0' Hcons Hs.
  apply foldM_invariant_in; [| exact Hs]. clear s Hs.
  intros s producer k1 s1 k1' Hprod Hs.
  unfold Halo.propagateRootAxisInfo_pc.
  destruct (tv_isFusionInput producer) eqn:Einput.
  { now intros [= <- _]. }
  apply foldM_invariant_in; [| exact Hs]. clear s Hs.
  intros s [i c] k2 s2 k2' Hc (He & Hw & Hroot) Hstep.
  apply propagateRootAxis_writes in Hstep
    as [-> | (p & info & Hmap & Hset)]; [now split |].
  destruct (setRootAxisInfo_maps _ _ _ _ Hset) as (He' & Hw' & Hroot').
  split; [congruence |]. split; [congruence |].
  intros a Ha. destruct (Hroot a Ha) as [R1 R2].
  assert (Hne : id_addr p <> a).
  { apply (Ha producer consumer c p Hprod Einput Hcons); [| exact Hmap].
    apply list_elem_of_In in Hc. apply In_indexed in Hc.
    apply list_elem_of_lookup. now exists i. }
  destruct (Hroot' a Hne) as [R1' R2']. split; congruence.
Qed.

Lemma propagation_frame_witness :
  exists h' k',
    Halo.propagateRootAxisInfo Sample.lower Sample.blank
      (Sample.unary (ShiftOp [2] false) Sample.T1 Sample.T2) 50%positive
    = Ok (h', k')
    /\ kir_extent_map_ h' = kir_extent_map_ Sample.blank
    /\ halo_width_map_ h' = halo_width_map_ Sample.blank.
Proof.
  eexists _, _. split; [vm_compute; reflexivity |].
  destruct (propagation_frame Sample.lower Sample.blank _
              (Sample.unary (ShiftOp [2] false) Sample.T1 Sample.T2)
              50%positive _ eq_refl) as (He & Hw & _).
  split; [exact He | exact Hw].
Defined.

(** *** A verdict of the comparator means the axes were comparable *)

(** X14. [extentCompare] answers only for comparable axes. Whenever it
    returns a verdict, the two axes are loop-mapped, and either both have a
    recorded halo width, and the verdict is that of the comparison of the
    widths, or neither has, both are outputs of a merge, and the verdict is
    the conjunction of the verdicts for the inner and the outer operands;
    in every other case it fails. *)
Theorem extent_comparison_needs_comparable
    (g : GpuLower) (h : HaloInfo) (cmp : Val -> Val -> Result bool)
    (id1 id2 : IterDomain) (b : bool) :
  Halo.extentCompare g h cmp id1 id2 = Ok b ->
  areMapped g id1 id2 = true
  /\ ((exists w1 w2,
         halo_width_map_ h !! id_addr id1 = Some w1
         /\ halo_width_map_ h !! id_addr id2 = Some w2
         /\ cmp w1 w2 = Ok b)
      \/ (halo_width_map_ h !! id_addr id1 = None
          /\ halo_width_map_ h !! id_addr id2 = None
          /\ exists outer1 inner1 outer2 inner2 inner_le outer_le,
              id_definition id1 = MergeOf outer1 inner1
              /\ id_definition id2 = MergeOf outer2 inner2
              /\ Halo.extentCompare g h cmp inner1 inner2 = Ok inner_le
              /\ Halo.extentCompare g h cmp outer1 outer2 = Ok outer_le
              /\ b = inner_le && outer_le)).
Proof.
  destruct id1 as [a1 s1 e1 t1 b1 r1 f1 p1 d1]. simpl.
  destruct (areMapped g _ id2); simpl; [| discriminate].
  intros H. split; [reflexivity |].
  unfold Halo.hasHaloWidth, Halo.getHaloWidth in H. simpl in H.
  destruct (halo_width_map_ h !! a1) as [w1|] eqn:H1.
  - rewrite bool_decide_eq_true_2 in H by now eexists.
    destruct (halo_width_map_ h !! id_addr id2) as [w2|] eqn:H2.
    + rewrite bool_decide_eq_true_2 in H by now eexists.
      left. now exists w1, w2.
    + rewrite bool_decide_eq_false_2 in H by (intros [? ?]; discriminate).
      discriminate.
  - rewrite bool_decide_eq_false_2 in H by (intros [? ?]; discriminate).
    destruct (halo_width_map_ h !! id_addr id2) as [w2|] eqn:H2.
    + rewrite bool_decide_eq_true_2 in H by now eexists. discriminate.
    + rewrite bool_decide_eq_false_2 in H by (intros [? ?]; discriminate).
      right. split; [reflexivity |]. split; [reflexivity |].
      destruct d1 as [| outer1 inner1 | |]; try discriminate.
      destruct (id_definition id2) as [| outer2 inner2 | |]; try discriminate.
      unfold rbind in H.
      destruct (Halo.extentCompare g h cmp inner1 inner2) as [bi|] eqn:Ei;
        [| discriminate].
      destruct (Halo.extentCompare g h cmp outer1 outer2) as [bo|] eqn:Eo;
        [| discriminate].
      injection H as <-.
      now exists outer1, inner1, outer2, inner2, bi, bo.
Qed.

Lemma extent_comparison_needs_comparable_witness :
  areMapped Sample.mapped_all Sample.merged1 Sample.merged2 = true
  /\ ((exists w1 w2,
         halo_width_map_ Sample.after_uneven_merge
           !! id_addr Sample.merged1 = Some w1
         /\ halo_width_map_ Sample.after_uneven_merge
              !! id_addr Sample.merged2 = Some w2
         /\ Halo.cmp_equal w1 w2 = Ok false)
      \/ (halo_width_map_ Sample.after_uneven_merge
            !! id_addr Sample.merged1 = None
          /\ halo_width_map_ Sample.after_uneven_merge
               !! id_addr Sample.merged2 = None
          /\ exists outer1 inner1 outer2 inner2 inner_le outer_le,
              id_definition Sample.merged1 = MergeOf outer1 inner1
              /\ id_definition Sample.merged2 = MergeOf outer2 inner2
              /\ Halo.extentCompare Sample.mapped_all
                   Sample.after_uneven_merge Halo.cmp_equal inner1 inner2
                 = Ok inner_le
              /\ Halo.extentCompare Sample.mapped_all
                   Sample.after_uneven_merge Halo.cmp_equal outer1 outer2
                 = Ok outer_le
              /\ false = inner_le && outer_le)).
Proof.
  apply (extent_comparison_needs_comparable Sample.mapped_all
           Sample.after_uneven_merge Halo.cmp_equal Sample.merged1
           Sample.merged2 false).
  vm_compute. reflexivity.
Defined.

(** *** The analysis of a fusion: initialisation and what success means *)

(** X15. The initialisation loop of [build(Fusion* fusion)] over a list of root
    axes succeeds, gives every axis of the list an entry without halo in
    both root tables, and changes nothing else; an axis in the list that is
    no root axis makes it fail on the assertion of [setRootAxisInfo]. *)
Theorem init_root_axes_zero
    (h : HaloInfo) (axes : list IterDomain) (k : Kernel) :
  ((forall id, id ∈ axes ->
               id_definition id = RootAxis \/ id_isRFactorProduct id = true) ->
   exists h' k',
     Halo.init_root_axes h axes k = Ok (h', k')
     /\ (forall id, id ∈ axes ->
           exists info,
             Halo.getRootAxisInfo h' id = Ok info
             /\ Halo.getRootAxisInfo_kir h' id = Ok info
             /\ zero_halo info)
     /\ (forall a, (forall id, id ∈ axes -> id_addr id <> a) ->
           root_axis_map_ h' !! a = root_axis_map_ h !! a
           /\ kir_root_axis_map_ h' !! a = kir_root_axis_map_ h !! a)
     /\ kir_extent_map_ h' = kir_extent_map_ h
     /\ halo_width_map_ h' = halo_width_map_ h)
  /\ (forall id, id ∈ axes -> id_definition id <> RootAxis ->
                 id_isRFactorProduct id = false ->
      Halo.init_root_axes h axes k = Fail (InternalAssert "Invalid IterDomain")).
Proof.
  assert (Hroot : forall id,
             id_definition id = RootAxis \/ id_isRFactorProduct id = true
             <-> Halo.is_root id = true).
  { intros id. unfold Halo.is_root.
    destruct (id_definition id), (id_isRFactorProduct id);
      intuition congruence. }
  unfold Halo.init_root_axes. split.
  - revert h k. induction axes as [| x axes IH]; intros h k Hall.
    { exists h, k. split; [reflexivity |].
      split; [intros id Hin; now apply elem_of_nil in Hin |].
      repeat split. }
    assert (Hx : Halo.is_root x = true)
      by (apply Hroot, Hall, list_elem_of_here).
    set (z := mkAxisHaloInfo (IntConst k 0) (IntConst (Pos.succ k) 0)).
    set (h1 := mkHaloInfo (<[id_addr x := z]> (root_axis_map_ h))
                          (<[id_addr x := z]> (kir_root_axis_map_ h))
                          (kir_extent_map_ h) (halo_width_map_ h)).
    assert (Hstep : (let* info := AxisHalo.new in
                     lift (Halo.setRootAxisInfo h x info)) k
                    = Ok (h1, Pos.succ (Pos.succ k))).
    { unfold bind, AxisHalo.new, lift, Halo.setRootAxisInfo. simpl.
      now rewrite Hx. }
    destruct (IH h1 (Pos.succ (Pos.succ k)))
      as (h' & k' & Hloop & Hzero & Hframe & He & Hw).
    { intros id Hin. apply Hall. now right. }
    exists h', k'. split.
    { cbn [foldM]. now rewrite (bind_ok_eq _ _ _ _ _ Hstep). }
    split; [| split; [| split; [exact He | exact Hw]]].
    + intros id Hin.
      assert (Hid : Halo.is_root id = true) by (apply Hroot, Hall, Hin).
      destruct (decide (id_addr id ∈ (id_addr <$> axes))) as [Hlater | Hnot].
      * apply list_elem_of_fmap in Hlater as (id0 & Haddr & Hin0).
        destruct (Hzero id0 Hin0) as (info & Hg & Hgk & Hz).
        exists info. split; [| split; [| exact Hz]].
        -- apply getRootAxisInfo_is_root in Hg as [_ Hg].
           unfold Halo.getRootAxisInfo. now rewrite Hid, Haddr, Hg.
        -- revert Hgk. unfold Halo.getRootAxisInfo_kir.
           rewrite Hid, Haddr. now destruct (Halo.is_root id0).
      * apply elem_of_cons in Hin as [-> | Hin].
        2:{ exfalso. apply Hnot. apply list_elem_of_fmap. now exists id. }
        destruct (Hframe (id_addr x)) as [R1 R2].
        { intros id Hin Heq. apply Hnot. apply list_elem_of_fmap.
          now exists id. }
        exists z. unfold Halo.getRootAxisInfo, Halo.getRootAxisInfo_kir.
        rewrite Hx, R1, R2. simpl. rewrite !lookup_insert_eq.
        repeat split.
    + intros a Ha. destruct (Hframe a) as [R1 R2].
      { intros id Hin. apply Ha. now right. }
      rewrite R1, R2. simpl.
      assert (id_addr x <> a) by (apply Ha, list_elem_of_here).
      split; now apply lookup_insert_ne.
  - intros id Hin Hdef Hrf.
    assert (Hid : Halo.is_root id = false).
    { destruct (Halo.is_root id) eqn:E; [| reflexivity].
      apply Hroot in E as [E | E]; congruence. }
    revert h k. induction axes as [| x axes IH]; intros h k.
    { now apply elem_of_nil in Hin. }
    cbn [foldM]. unfold bind at 1.
    destruct (Halo.is_root x) eqn:Hx.
    + assert (Hxid : x <> id) by congruence.
      apply elem_of_cons in Hin as [-> | Hin]; [congruence |].
      unfold bind at 1. unfold AxisHalo.new, bind, lift,
        Halo.setRootAxisInfo. simpl. rewrite Hx. now apply IH.
    + unfold bind at 1. unfold AxisHalo.new, bind, lift,
        Halo.setRootAxisInfo. simpl. now rewrite Hx.
Qed.

Lemma init_root_axes_zero_witness :
  exists h' k',
    Halo.init_root_axes Halo.empty (td_root (tv_domain Sample.T2g))
      10%positive = Ok (h', k')
    /\ (forall id, id ∈ td_root (tv_domain Sample.T2g) ->
          exists info,
            Halo.getRootAxisInfo h' id = Ok info
            /\ Halo.getRootAxisInfo_kir h' id = Ok info
            /\ zero_halo info)
    /\ Halo.init_root_axes Halo.empty [Sample.axis 2 false; Sample.inner]
         10%positive = Fail (InternalAssert "Invalid IterDomain").
Proof.
  destruct (proj1 (init_root_axes_zero Halo.empty
                     (td_root (tv_domain Sample.T2g)) 10%positive))
    as (h' & k' & Hinit & Hzero & _).
  { intros id Hin. left.
    apply elem_of_cons in Hin as [-> | Hin]; [reflexivity |].
    apply elem_of_cons in Hin as [-> | Hin]; [reflexivity |].
    now apply elem_of_nil in Hin. }
  exists h', k'. split; [exact Hinit |]. split; [exact Hzero |].
  apply (proj2 (init_root_axes_zero Halo.empty
                  [Sample.axis 2 false; Sample.inner] 10%positive)
               Sample.inner).
  - apply list_elem_of_further, list_elem_of_here.
  - discriminate.
  - reflexivity.
Defined.

Lemma validate_loop g uses tvs :
  forall h k h' k',
    foldM (fun h tv => lift (Halo.validate g h (uses tv) tv);; ret h) tvs h k
    = Ok (h', k') ->
    h' = h /\ forall tv, tv ∈ tvs -> Halo.validate g h (uses tv) tv = Ok tt.
Proof.
  induction tvs as [| x tvs IH]; intros h k h' k' H.
  - injection H as <- _. split; [reflexivity |].
    intros tv Hin. now apply elem_of_nil in Hin.
  - cbn [foldM] in H. apply bind_Ok in H as (h1 & k1 & Hstep & H).
    apply bind_Ok in Hstep as ([] & k2 & Hv & Hret).
    apply lift_Ok in Hv as [Hv _]. injection Hret as <- _.
    destruct (IH _ _ _ _ H) as [-> Hall]. split; [reflexivity |].
    intros tv Hin. apply elem_of_cons in Hin as [-> | Hin];
      [exact Hv | now apply Hall].
Qed.

(** X16. What a successful [build(Fusion* fusion)] guarantees of its result, for
    every tensor of the fusion: the tensor passes [validate] in the final
    state; each of its axes is proven to have the extent of its concrete
    axis; an extended axis is serial or bound to a thread or block
    dimension; and an extended axis that needs shared visibility is not
    bound to a block dimension, and if it is bound to a thread dimension the
    tensor is in shared memory. *)
Theorem build_postconditions
    (g : GpuLower) (h0 h : HaloInfo) (fusion : Halo.Fusion) (k k' : Kernel) :
  Halo.build g h0 fusion k = Ok (h, k') ->
  forall tv, tv ∈ Halo.fusion_tvs fusion ->
    Halo.validate g h (Halo.fusion_uses fusion tv) tv = Ok tt
    /\ forall axis, axis ∈ td_domain (tv_domain tv) ->
         let ptype := id_parallelType (getConcreteMappedID g axis) in
         Halo.extentEqual g h axis (getConcreteMappedID g axis) = Ok true
         /\ (is_Some (Halo.getExtent h axis) ->
             (ptype = Serial \/ isParallelTypeThreadDim ptype = true
              \/ isParallelTypeBlockDim ptype = true)
             /\ (needs_shared_visibility g h (Halo.fusion_uses fusion tv)
                                         axis ->
                 isParallelTypeBlockDim ptype = false
                 /\ (isParallelTypeThreadDim ptype = true ->
                     tv_memoryType tv = Shared))).
Proof.
  intros H tv Htv. unfold Halo.build in H.
  apply bind_Ok in H as (h1 & k1 & _ & H).
  apply bind_Ok in H as (h2 & k2 & _ & H).
  apply bind_Ok in H as (h3 & k3 & _ & H).
  apply validate_loop in H as [-> Hall].
  specialize (Hall tv Htv). split; [exact Hall |].
  intros axis Hin ptype.
  pose proof (proj1 (validate_ok_iff _ _ _ _) Hall axis Hin) as Haxis.
  unfold Halo.validate_axis in Haxis. fold ptype in Haxis.
  destruct (Halo.extentEqual g h3 axis (getConcreteMappedID g axis))
    as [[|] | e]; simpl in Haxis; try discriminate.
  split; [reflexivity |]. intros [e He]. rewrite He in Haxis.
  destruct (bool_decide (ptype = Serial)) eqn:Es.
  { apply bool_decide_eq_true_1 in Es. split; [now left |].
    intros _. rewrite Es. split; [reflexivity | discriminate]. }
  unfold isParallelTypeThread in Haxis.
  destruct (isParallelTypeThreadDim ptype) eqn:Etd;
    destruct (isParallelTypeBlockDim ptype) eqn:Ebd;
    simpl in Haxis; try discriminate.
  - destruct ptype; discriminate.
  - split; [right; now left |]. intros Hneeds.
    split; [reflexivity |]. intros _.
    destruct (Halo.shared_mem_needed g h3 (Halo.fusion_uses fusion tv) axis)
      as [needed | e'] eqn:En; [| discriminate].
    apply (shared_mem_needed_spec _ _ _ _ _ En) in Hneeds. subst needed.
    simpl in Haxis.
    destruct (bool_decide (tv_memoryType tv = Shared)) eqn:Em;
      [| discriminate].
    now apply bool_decide_eq_true_1 in Em.
  - split; [right; now right |]. intros Hneeds. exfalso.
    destruct (Halo.shared_mem_needed g h3 (Halo.fusion_uses fusion tv) axis)
      as [needed | e'] eqn:En; [| discriminate].
    apply (shared_mem_needed_spec _ _ _ _ _ En) in Hneeds. subst needed.
    discriminate.
Qed.

Lemma build_postconditions_witness :
  exists h k',
    Halo.build Sample.lower_blocks Halo.empty Sample.block_chain
      1000%positive = Ok (h, k')
    /\ Halo.validate Sample.lower_blocks h
         (Halo.fusion_uses Sample.block_chain Sample.B1) Sample.B1 = Ok tt.
Proof.
  assert (Hb : exists h k',
             Halo.build Sample.lower_blocks Halo.empty Sample.block_chain
               1000%positive = Ok (h, k'))
    by (eexists _, _; vm_compute; reflexivity).
  destruct Hb as (h & k' & Hb). exists h, k'. split; [exact Hb |].
  apply (build_postconditions _ _ _ _ _ _ Hb Sample.B1).
  apply list_elem_of_further, list_elem_of_here.
Defined.

(** *** The comparison of [extentEqual], on expressions *)

Lemma subnodes_self v : v ∈ subnodes v.
Proof. destruct v; simpl; apply list_elem_of_here. Qed.

Lemma subnodes_definition y v :
  match definition y with
  | UnaryOp _ y0 => v ∈ subnodes y0
  | BinaryOp _ y0 y1 => v ∈ subnodes y0 \/ v ∈ subnodes y1
  | _ => False
  end -> v ∈ subnodes y.
Proof.
  destruct y as [| a d | | a d |]; simpl; try tauto;
    destruct d; try tauto; intros H; apply list_elem_of_further;
    try exact H; apply elem_of_app; exact H.
Qed.

Lemma one_arena_same x y :
  one_arena x y -> same_ptr x y = true -> x = y.
Proof.
  intros H Hs. apply bool_decide_eq_true_1 in Hs.
  apply H; [apply subnodes_self | apply subnodes_self | exact Hs].
Qed.

(** What the comparison does with a node and a second one, past the tests
    for the same node and the same constant. *)
Lemma cmp_equal_symbolic a d y :
  same_ptr (IntSym a d) y = false ->
  Halo.cmp_equal (IntSym a d) y
  = match d, definition y with
    | UnaryOp x_op x0, UnaryOp y_op y0 =>
        if bool_decide (x_op = y_op)
        then if isInt x0 && isInt y0
             then let? e0 := Halo.cmp_equal x0 y0 in Ok e0
             else Fail (InternalAssert "x_input && y_input")
        else Ok false
    | BinaryOp x_op x0 x1, BinaryOp y_op y0 y1 =>
        if bool_decide (x_op = y_op)
        then if isInt x0 && isInt y0
             then let? e0 := Halo.cmp_equal x0 y0 in
                  if negb e0 then Ok false
                  else if isInt x1 && isInt y1
                       then let? e1 := Halo.cmp_equal x1 y1 in Ok e1
                       else Fail (InternalAssert "x_input && y_input")
             else Fail (InternalAssert "x_input && y_input")
        else Ok false
    | _, _ => Ok false
    end.
Proof.
  intros Hs. simpl. rewrite Hs.
  destruct d as [| x_op x0 | x_op x0 x1 |]; try reflexivity;
    destruct (definition y) as [| y_op y0 | y_op y0 y1 |]; try reflexivity;
    destruct (bool_decide (x_op = y_op)); try reflexivity;
    destruct (isInt x0 && isInt y0); try reflexivity; unfold rbind;
    destruct (Halo.cmp_equal x0 y0) as [[|] |]; try reflexivity; simpl.
  destruct (isInt x1 && isInt y1); try reflexivity.
  now destruct (Halo.cmp_equal x1 y1) as [[|] |].
Qed.

Lemma eval_definition env y :
  eval env y
  = match definition y with
    | UnaryOp op y0 =>
        match eval env y0 with
        | Some v => eval_unary op v
        | None => None
        end
    | BinaryOp op y0 y1 =>
        match eval env y0, eval env y1 with
        | Some v0, Some v1 => eval_binary op v0 v1
        | _, _ => None
        end
    | TernaryOp _ _ _ => None
    | NoDef => eval env y
    end.
Proof. destruct y as [| a d | | a d |]; try reflexivity; now destruct d. Qed.

(** X17. The comparison of [extentEqual] is sound: two widths it proves
    equal (the same node, the same constant, or the same operation over
    operands proven equal) have the same value in every kernel state. Nodes
    are compared by address, so this is for widths of one arena. *)
Theorem cmp_equal_sound (x y : Val) :
  one_arena x y ->
  Halo.cmp_equal x y = Ok true ->
  forall env, eval env x = eval env y.
Proof.
  revert y.
  induction x using Val_Def_ind
    with (P0 := fun d =>
            match d with
            | UnaryOp _ x0 =>
                forall y, one_arena x0 y -> Halo.cmp_equal x0 y = Ok true ->
                          forall env, eval env x0 = eval env y
            | BinaryOp _ x0 x1 =>
                (forall y, one_arena x0 y -> Halo.cmp_equal x0 y = Ok true ->
                           forall env, eval env x0 = eval env y)
                /\ (forall y, one_arena x1 y ->
                              Halo.cmp_equal x1 y = Ok true ->
                              forall env, eval env x1 = eval env y)
            | _ => True
            end);
    try exact I; try assumption; try (split; assumption).
  - (* a constant *)
    intros y Ha H env.
    destruct (same_ptr (IntConst a v) y) eqn:Hs;
      [now rewrite (one_arena_same _ _ Ha Hs) |].
    simpl in H. rewrite Hs in H.
    destruct (value y) as [yv|] eqn:Hy; [| discriminate].
    destruct (v =? yv) eqn:Ev; [| discriminate].
    apply Z.eqb_eq in Ev. subst yv. symmetry. now apply value_eval.
  - (* a node with a definition *)
    intros y Ha H env.
    destruct (same_ptr (IntSym a def) y) eqn:Hs;
      [now rewrite (one_arena_same _ _ Ha Hs) |].
    rewrite (cmp_equal_symbolic _ _ _ Hs) in H.
    rewrite (eval_definition env y).
    destruct def as [| x_op x0 | x_op x0 x1 |]; try discriminate.
    + destruct (definition y) as [| y_op y0 | y_op y0 y1 |] eqn:Dy;
        try discriminate.
      destruct (bool_decide (x_op = y_op)) eqn:Eop; [| discriminate].
      apply bool_decide_eq_true_1 in Eop. subst y_op.
      destruct (isInt x0 && isInt y0); [| discriminate].
      destruct (Halo.cmp_equal x0 y0) as [[|] |] eqn:E0; try discriminate.
      simpl. rewrite (IHx y0); [reflexivity | | exact E0].
      intros u v Hu Hv. apply Ha.
      * simpl. now apply list_elem_of_further.
      * apply subnodes_definition. now rewrite Dy.
    + destruct (definition y) as [| y_op y0 | y_op y0 y1 |] eqn:Dy;
        try discriminate.
      destruct (bool_decide (x_op = y_op)) eqn:Eop; [| discriminate].
      apply bool_decide_eq_true_1 in Eop. subst y_op.
      destruct (isInt x0 && isInt y0); [| discriminate].
      destruct (Halo.cmp_equal x0 y0) as [[|] |] eqn:E0; try discriminate.
      simpl in H.
      destruct (isInt x1 && isInt y1); [| discriminate].
      destruct (Halo.cmp_equal x1 y1) as [[|] |] eqn:E1; try discriminate.
      destruct IHx as [IH0 IH1]. simpl.
      rewrite (IH0 y0); [rewrite (IH1 y1); [reflexivity | | exact E1]
                        | | exact E0].
      * intros u v Hu Hv. apply Ha.
        -- simpl. apply list_elem_of_further, elem_of_app. now right.
        -- apply subnodes_definition. rewrite Dy. now right.
      * intros u v Hu Hv. apply Ha.
        -- simpl. apply list_elem_of_further, elem_of_app. now left.
        -- apply subnodes_definition. rewrite Dy. now left.
  - intros y Ha H env.
    destruct (same_ptr (BoolConst a b) y) eqn:Hs;
      [now rewrite (one_arena_same _ _ Ha Hs) |].
    simpl in H. rewrite Hs in H. discriminate.
  - intros y Ha H env.
    destruct (same_ptr (BoolSym a def) y) eqn:Hs;
      [now rewrite (one_arena_same _ _ Ha Hs) |].
    simpl in H. rewrite Hs in H. discriminate.
  - intros y Ha H env.
    destruct (same_ptr (NamedScalar a name) y) eqn:Hs;
      [now rewrite (one_arena_same _ _ Ha Hs) |].
    simpl in H. rewrite Hs in H. discriminate.
Qed.

Lemma cmp_equal_sound_witness :
  eval (Sample.state 0)
       (IntSym 5 (BinaryOp Add (IntSym 101 NoDef) (IntConst 20 3)))
  = eval (Sample.state 0)
         (IntSym 6 (BinaryOp Add (IntSym 101 NoDef) (IntConst 21 3))).
Proof.
  apply (cmp_equal_sound
           (IntSym 5 (BinaryOp Add (IntSym 101 NoDef) (IntConst 20 3)))
           (IntSym 6 (BinaryOp Add (IntSym 101 NoDef) (IntConst 21 3)))).
  - intros u v Hu Hv. simpl in Hu, Hv.
    repeat (apply elem_of_cons in Hu as [-> | Hu]);
      try (now apply elem_of_nil in Hu);
      repeat (apply elem_of_cons in Hv as [-> | Hv]);
      try (now apply elem_of_nil in Hv);
      simpl; intros Haddr; try reflexivity; discriminate.
  - reflexivity.
Defined.

(** X18. Two axes whose recorded halo widths are different nodes defined by
    the same binary operation. [extentLessEqual] does not prove them
    ordered, whatever the operands are. [extentEqual] proves them equal
    when the operands are the same [kir::Int] nodes, so an extent can be
    proven equal and not proven less or equal; and it fails, rather than
    answer, when a first operand is no [kir::Int]. *)
Theorem equal_extent_not_less_equal
    (g : GpuLower) (h : HaloInfo) (id1 id2 : IterDomain) (a b : addr)
    (op : BinaryOpType) (x0 x1 y0 y1 : Val) :
  areMapped g id1 id2 = true ->
  halo_width_map_ h !! id_addr id1 = Some (IntSym a (BinaryOp op x0 x1)) ->
  halo_width_map_ h !! id_addr id2 = Some (IntSym b (BinaryOp op y0 y1)) ->
  a <> b ->
  Halo.extentLessEqual g h id1 id2 = Ok false
  /\ (x0 = y0 -> x1 = y1 -> isInt x0 = true -> isInt x1 = true ->
      Halo.extentEqual g h id1 id2 = Ok true)
  /\ (isInt x0 && isInt y0 = false ->
      Halo.extentEqual g h id1 id2
      = Fail (InternalAssert "x_input && y_input")).
Proof.
  intros Hm H1 H2 Hab.
  assert (Hs : same_ptr (IntSym a (BinaryOp op x0 x1))
                        (IntSym b (BinaryOp op y0 y1)) = false)
    by (apply bool_decide_eq_false_2; exact Hab).
  unfold Halo.extentLessEqual, Halo.extentEqual.
  rewrite !(extentCompare_widths _ _ _ _ _ _ _ Hm H1 H2).
  split; [| split].
  - unfold Halo.cmp_lessEqual. now rewrite Hs.
  - intros <- <- I0 I1. rewrite (cmp_equal_symbolic _ _ _ Hs). simpl.
    rewrite (bool_decide_eq_true_2 _ eq_refl), I0, I1. simpl.
    rewrite (cmp_equal_same x0 x0) by apply same_ptr_refl. simpl.
    now rewrite (cmp_equal_same x1 x1) by apply same_ptr_refl.
  - intros Hint. rewrite (cmp_equal_symbolic _ _ _ Hs). simpl.
    now rewrite (bool_decide_eq_true_2 _ eq_refl), Hint.
Qed.

Lemma equal_extent_not_less_equal_witness :
  Halo.extentLessEqual Sample.mapped_all Sample.symbolic_widths
    (Sample.derived 6 OtherDef) (Sample.derived 7 OtherDef) = Ok false
  /\ Halo.extentEqual Sample.mapped_all Sample.symbolic_widths
       (Sample.derived 6 OtherDef) (Sample.derived 7 OtherDef) = Ok true.
Proof.
  assert (Hab : 30%positive <> 31%positive) by discriminate.
  destruct (equal_extent_not_less_equal Sample.mapped_all
              Sample.symbolic_widths (Sample.derived 6 OtherDef)
              (Sample.derived 7 OtherDef) 30 31 Max
              (IntSym 40 NoDef) (IntSym 41 NoDef)
              (IntSym 40 NoDef) (IntSym 41 NoDef)
              eq_refl eq_refl eq_refl Hab) as (Hle & Heq & _).
  split; [exact Hle |]. now apply Heq.
Defined.
